(** * car_mirror_tool: the hybrid UI-tree reconciliation core of [car2.py]

    A shallow embedding of the pure core of [src/car2.py]:
    - [HybridUIParser]: id-suffix index, candidate search, match score,
      best-match selection with reservation, attribute supplementing, the
      recursive merge and its statistics;
    - [ViewHierarchyParser]: the indentation-driven geometry parser;
    - [UIParser.find_element_at_point]: the point query.

    Conventions of the embedding.
    - A Python [str] is a Rocq [string]; only code points below 256 occur.
    - A node [dict] is a record [NodeData] plus its ordered children.  Keys
      that some nodes lack ([focused], [x1] ..., [text_source] ...) are
      [option] fields; [dict.get(k)] on a missing key is [None].
    - Python [int] is [Z]; [len] is [nat].
    - The match score is a Python [float].  The matcher and the merge take
      the arithmetic of the score as a parameter [sc : Scoring]: the score
      function and the three comparisons the code makes with it.  There are
      two instances: [binary64_scoring], the score as Python computes it, on
      primitive binary64 numbers; and [exact_scoring], the same function
      with every constant and operation kept but over the exact rationals
      [Q], without rounding.  What is proved for every [sc] holds for the
      code as it runs; the selection rule is proved from the laws of the
      comparisons, which binary64 satisfies with NaN set apart, and no
      score is NaN while the child counts stay below 2^53; the formula and
      the range of the score are proved for the exact instance, the lower
      end of the range for binary64 as well. *)

From Stdlib Require Import ZArith QArith Lqa Lia List Bool Ascii String DecimalString.
From Stdlib Require Import PrimFloat Uint63 SpecFloat FloatOps FloatAxioms.
From stdpp Require Import base option list gmap strings.

Local Open Scope Z_scope.

(** ** Strings *)

Module Str.

(** [sub in s] *)
Fixpoint contains (sub s : string) : bool :=
  if String.prefix sub s then true
  else match s with
       | EmptyString => false
       | String _ s' => contains sub s'
       end.

(** [s.endswith(suf)] *)
Definition endswith (suf s : string) : bool :=
  let n := String.length s in
  let k := String.length suf in
  (k <=? n)%nat && String.eqb (String.substring (n - k) k s) suf.

Fixpoint rev_acc (s acc : string) : string :=
  match s with
  | EmptyString => acc
  | String c s' => rev_acc s' (String c acc)
  end.

Definition rev (s : string) : string := rev_acc s EmptyString.

(** [s.split(sep)] for a non-empty [sep]: left-to-right, non-overlapping.
    [skip] counts the characters of the separator occurrence still to be
    consumed; [cur] is the current piece, reversed. *)
Fixpoint split_aux (sep s : string) (skip : nat) (cur : string) : list string :=
  match s with
  | EmptyString => [rev cur]
  | String c s' =>
      match skip with
      | S k => split_aux sep s' k cur
      | O =>
          if String.prefix sep s
          then rev cur :: split_aux sep s' (String.length sep - 1) EmptyString
          else split_aux sep s' 0 (String c cur)
      end
  end.

Definition split (sep s : string) : list string := split_aux sep s 0 EmptyString.

(** [s.split(sep)[-1]] *)
Definition split_last (sep s : string) : string :=
  List.last (split sep s) EmptyString.

(** truthiness of a [str] *)
Definition nonempty (s : string) : bool :=
  match s with EmptyString => false | _ => true end.

End Str.

(** ** Nodes and trees *)

(** The eight geometry keys [x1 y1 x2 y2 center_x center_y width height];
    both parsers write all eight together or none of them. *)
Record Geom := mkGeom {
  x1 : Z; y1 : Z; x2 : Z; y2 : Z;
  center_x : Z; center_y : Z;
  width : Z; height : Z
}.

Record NodeData := mkData {
  class_ : string;
  resource_id : string;
  text : string;
  content_desc : string;
  bounds : string;
  package : string;
  index : string;
  clickable : option string;
  long_clickable : option string;
  checkable : option string;
  checked : option string;
  selected : option string;
  enabled : option string;
  focusable : option string;
  focused : option string;
  scrollable : option string;
  geom : option Geom;
  text_source : option string;
  info_supplemented : option bool;
  text_matched : option bool
}.

#[local] Unset Elimination Schemes.
Inductive Tree := Node (d : NodeData) (ch : list Tree).
#[local] Set Elimination Schemes.

Definition data (t : Tree) : NodeData := let 'Node d _ := t in d.
Definition children (t : Tree) : list Tree := let 'Node _ ch := t in ch.

(** number of nodes of a tree *)
Fixpoint tree_size (t : Tree) : nat :=
  match t with
  | Node _ ch => S (list_sum (List.map tree_size ch))
  end.

(** ** The match score: [HybridUIParser._calculate_match_score] *)

Module Score.

Local Open Scope string_scope.

Definition type_groups : list (string * list string) :=
  [ ("text", ["TextView"; "EditText"; "TextInputEditText"; "AppCompatTextView"]);
    ("button", ["Button"; "ImageButton"; "AppCompatButton"; "MaterialButton"]);
    ("image", ["ImageView"; "AppCompatImageView"; "ImageButton"]);
    ("layout", ["LinearLayout"; "RelativeLayout"; "FrameLayout"; "ConstraintLayout"]);
    ("container", ["RecyclerView"; "ListView"; "ScrollView"; "ViewPager"]) ].

(** [any(c in cls for c in class_list)] *)
Definition in_group (cls : string) (class_list : list string) : bool :=
  existsb (fun c => Str.contains c cls) class_list.

(** [_similar_class_names] *)
Definition similar_class_names (class1 class2 : string) : bool :=
  if String.eqb class1 class2 then true
  else existsb (fun g => in_group class1 (snd g) && in_group class2 (snd g))
               type_groups.

Definition score_attrs : list (NodeData -> option string) :=
  [clickable; focusable; enabled; scrollable].

(** [vh_node.get(attr) == ui_node.get(attr)] *)
Definition attr_agree (vh ui : NodeData) (attr : NodeData -> option string) : bool :=
  bool_decide (attr vh = attr ui).

Definition attr_score (vh ui : NodeData) : nat :=
  List.length (List.filter (attr_agree vh ui) score_attrs).

Definition attr_count : nat := List.length score_attrs.

Local Open Scope Q_scope.

Definition id_term (has_same_id : bool) (score : Q) : Q :=
  if has_same_id then score + (4 # 10) else score.

Definition class_term (vh_class ui_class : string) (score : Q) : Q :=
  if String.eqb vh_class ui_class then score + (3 # 10)
  else if similar_class_names vh_class ui_class then score + (2 # 10)
  else score.

Definition child_term (vh_child_count ui_child_count : nat) (score : Q) : Q :=
  if (vh_child_count =? ui_child_count)%nat then score + (15 # 100)
  else if (0 <? vh_child_count)%nat && (0 <? ui_child_count)%nat then
    let similarity :=
      inject_Z (Z.of_nat (Nat.min vh_child_count ui_child_count))
      / inject_Z (Z.of_nat (Nat.max vh_child_count ui_child_count)) in
    score + (15 # 100) * similarity
  else score.

Definition attr_term (vh ui : NodeData) (score : Q) : Q :=
  if (0 <? attr_count)%nat then
    score + (15 # 100) * (inject_Z (Z.of_nat (attr_score vh ui))
                          / inject_Z (Z.of_nat attr_count))
  else score.

Definition calculate_match_score (vh_node ui_node : Tree) (has_same_id : bool) : Q :=
  let score := 0 in
  let score := id_term has_same_id score in
  let vh_class := Str.split_last "." (class_ (data vh_node)) in
  let ui_class := Str.split_last "." (class_ (data ui_node)) in
  let score := class_term vh_class ui_class score in
  let vh_child_count := List.length (children vh_node) in
  let ui_child_count := List.length (children ui_node) in
  let score := child_term vh_child_count ui_child_count score in
  attr_term (data vh_node) (data ui_node) score.

End Score.

(** ** The match score in binary64 *)

Module Binary64.

Import Score.
Local Open Scope string_scope.
Local Open Scope float_scope.
#[local] Set Warnings "-inexact-float".

(** an [int] count as the operand of a true division *)
Definition of_count (n : nat) : float :=
  PrimFloat.of_uint63 (Uint63.of_Z (Z.of_nat n)).

(** [_calculate_match_score], every operation rounded as Python rounds it *)
Definition calculate_match_score (vh_node ui_node : Tree) (has_same_id : bool)
    : float :=
  let score := 0 in
  let score := if has_same_id then score + 0.4 else score in
  let vh_class := Str.split_last "." (class_ (data vh_node)) in
  let ui_class := Str.split_last "." (class_ (data ui_node)) in
  let score :=
    if String.eqb vh_class ui_class then score + 0.3
    else if similar_class_names vh_class ui_class then score + 0.2
    else score in
  let vh_child_count := List.length (children vh_node) in
  let ui_child_count := List.length (children ui_node) in
  let score :=
    if (vh_child_count =? ui_child_count)%nat then score + 0.15
    else if (0 <? vh_child_count)%nat && (0 <? ui_child_count)%nat then
      let similarity :=
        of_count (Nat.min vh_child_count ui_child_count)
        / of_count (Nat.max vh_child_count ui_child_count) in
      score + 0.15 * similarity
    else score in
  if (0 <? attr_count)%nat then
    score + 0.15 * (of_count (attr_score (data vh_node) (data ui_node))
                    / of_count attr_count)
  else score.

End Binary64.

(** ** The arithmetic of the score *)

(** What the matcher does with a score: compute it
    ([_calculate_match_score]), test [score > 0], test [score >= 0.5], and
    compare two scores with [<] when sorting. *)
Record Scoring := mkScoring {
  num : Type;
  match_score : Tree -> Tree -> bool -> num;
  positive : num -> bool;
  accepted : num -> bool;
  less : num -> num -> bool
}.

#[local] Set Warnings "-inexact-float".

Definition binary64_scoring : Scoring :=
  {| num := float;
     match_score := Binary64.calculate_match_score;
     positive := fun score => PrimFloat.ltb 0 score;
     accepted := fun score => PrimFloat.leb 0.5 score;
     less := PrimFloat.ltb |}.

Definition exact_scoring : Scoring :=
  {| num := Q;
     match_score := Score.calculate_match_score;
     positive := fun score => if Qlt_le_dec 0 score then true else false;
     accepted := fun score => Qle_bool (1 # 2) score;
     less := fun a b => if Qlt_le_dec a b then true else false |}.

(** Which scores are numbers: every rational, and every binary64 value
    other than NaN. *)
Definition binary64_is_number (score : float) : bool :=
  negb (PrimFloat.is_nan score).

Definition exact_is_number (score : Q) : bool := true.

(** ** The order of the binary64 numbers *)

Module FloatOrder.

(** the place of a binary64 number other than NaN in the order: sign class,
    then exponent, then mantissa *)
Definition rank (x : spec_float) : Z * Z * Z :=
  match x with
  | S754_zero _ => (0, 0, 0)
  | S754_infinity s => (if s then -2 else 2, 0, 0)
  | S754_nan => (0, 0, 0)
  | S754_finite s m e => if s then (-1, - e, - Z.pos m) else (1, e, Z.pos m)
  end.

Definition below (a b : Z * Z * Z) : Prop :=
  let '(a1, a2, a3) := a in
  let '(b1, b2, b3) := b in
  a1 < b1 \/ (a1 = b1 /\ (a2 < b2 \/ (a2 = b2 /\ a3 < b3))).

Definition is_number (x : spec_float) : Prop := x <> S754_nan.

(** a binary64 number that is neither NaN nor negative *)
Definition nonneg (x : spec_float) : Prop :=
  match x with
  | S754_nan => False
  | S754_zero _ => True
  | S754_infinity s | S754_finite s _ _ => s = false
  end.

Definition ok (x : float) : Prop := nonneg (Prim2SF x).

(** the child counts that convert to binary64 without rounding *)
Definition small_count (t : Tree) : Prop :=
  Z.of_nat (List.length (children t)) < 2 ^ 53.




End FloatOrder.

(** ** [HybridUIParser] *)

(** A reference to a node of the attribute (UIAutomator) tree.  Python holds
    the node objects themselves, in the tree, in [ui_node_map] and in the
    candidate lists at once; here a reference is the node's position in
    [ui_tree] (child indices from the root) together with the node found
    there.  The merge writes only the key [_used] of an attribute node: that
    key is kept apart, in the set [used] of the positions whose node carries
    [_used = True].  Positions name the nodes of one attribute tree: the
    application builds a new parser for every analysis. *)
Record UIRef := mkRef { ref_path : list nat; ref_node : Tree }.

(** A line printed by [_match_and_merge]: the geometry node's class and id
    and, for a match, the attribute node it was matched with. *)
Inductive Event :=
| Matched (vh_class vh_id : string) (ui : UIRef)
| Unmatched (vh_class vh_id : string).

Record Parser := mkParser {
  ui_tree : option Tree;
  vh_tree : option Tree;
  matched_count : nat;
  unmatched_count : nat;
  ui_node_map : gmap string (list UIRef);
  used : gset (list nat);
  printed : list Event
}.

Module Hybrid.

Local Open Scope string_scope.

(** [HybridUIParser.__init__] *)
Definition init : Parser :=
  {| ui_tree := None; vh_tree := None;
     matched_count := 0; unmatched_count := 0;
     ui_node_map := ∅; used := ∅; printed := [] |}.

Definition set_used (self : Parser) (u : gset (list nat)) : Parser :=
  {| ui_tree := ui_tree self; vh_tree := vh_tree self;
     matched_count := matched_count self;
     unmatched_count := unmatched_count self;
     ui_node_map := ui_node_map self; used := u; printed := printed self |}.

Definition set_index (self : Parser) (m : gmap string (list UIRef)) : Parser :=
  {| ui_tree := ui_tree self; vh_tree := vh_tree self;
     matched_count := matched_count self;
     unmatched_count := unmatched_count self;
     ui_node_map := m; used := used self; printed := printed self |}.

(** [self.matched_count += 1] and the match line *)
Definition count_matched (self : Parser) (e : Event) : Parser :=
  {| ui_tree := ui_tree self; vh_tree := vh_tree self;
     matched_count := S (matched_count self);
     unmatched_count := unmatched_count self;
     ui_node_map := ui_node_map self; used := used self;
     printed := (printed self ++ [e])%list |}.

(** [self.unmatched_count += 1] and the no-match line *)
Definition count_unmatched (self : Parser) (e : Event) : Parser :=
  {| ui_tree := ui_tree self; vh_tree := vh_tree self;
     matched_count := matched_count self;
     unmatched_count := S (unmatched_count self);
     ui_node_map := ui_node_map self; used := used self;
     printed := (printed self ++ [e])%list |}.

(** the test [_find_content_node] applies to a resource id *)
Definition is_content_id (rid : string) : bool :=
  Str.nonempty rid
  && (Str.contains "content" rid || Str.endswith ":id/content" rid).

(** [_find_content_node]: pre-order, first hit *)
Fixpoint find_content_node (path : list nat) (node : Tree) : option UIRef :=
  match node with
  | Node d ch =>
      if is_content_id (resource_id d) then Some (mkRef path node)
      else
        (fix each (i : nat) (l : list Tree) : option UIRef :=
           match l with
           | [] => None
           | child :: rest =>
               match find_content_node (path ++ [i])%list child with
               | Some r => Some r
               | None => each (S i) rest
               end
           end) 0%nat ch
  end.

(** [_extract_id_suffix] *)
Definition extract_id_suffix (full_id : string) : option string :=
  if negb (Str.nonempty full_id) then None
  else if Str.contains ":id/" full_id then Some (Str.split_last ":id/" full_id)
  else if Str.contains "/" full_id then Some (Str.split_last "/" full_id)
  else Some full_id.

(** [self.ui_node_map[id_suffix].append(ui_node)], creating the list first *)
Definition index_add (id_suffix : string) (r : UIRef)
    (m : gmap string (list UIRef)) : gmap string (list UIRef) :=
  <[id_suffix := (default [] (m !! id_suffix) ++ [r])%list]> m.

(** [_build_ui_index] *)
Fixpoint build_ui_index (path : list nat) (ui_node : Tree)
    (m : gmap string (list UIRef)) : gmap string (list UIRef) :=
  match ui_node with
  | Node d ch =>
      let m :=
        if Str.nonempty (resource_id d) then
          match extract_id_suffix (resource_id d) with
          | Some id_suffix =>
              if Str.nonempty id_suffix
              then index_add id_suffix (mkRef path ui_node) m else m
          | None => m
          end
        else m in
      (fix each (i : nat) (l : list Tree) (m : gmap string (list UIRef)) :=
         match l with
         | [] => m
         | child :: rest => each (S i) rest (build_ui_index (path ++ [i])%list child m)
         end) 0%nat ch m
  end.

(** [_is_node_available] *)
Definition is_node_available (self : Parser) (r : UIRef) : bool :=
  negb (bool_decide (ref_path r ∈ used self)).

(** [_mark_node_used] *)
Definition mark_node_used (self : Parser) (r : UIRef) : Parser :=
  set_used self ({[ref_path r]} ∪ used self).

Definition Candidate (sc : Scoring) : Type := UIRef * num sc.

(** [_search_in_subtree] *)
Fixpoint search_in_subtree (sc : Scoring) (self : Parser) (vh_node : Tree)
    (path : list nat) (ui_root : Tree) (candidates : list (Candidate sc))
    (max_depth current_depth : nat) : list (Candidate sc) :=
  match ui_root with
  | Node d ch =>
      if (max_depth <? current_depth)%nat then candidates
      else
        let r := mkRef path ui_root in
        let candidates :=
          if is_node_available self r then
            let score := match_score sc vh_node ui_root false in
            if positive sc score then (candidates ++ [(r, score)])%list
            else candidates
          else candidates in
        (fix each (i : nat) (l : list Tree) (candidates : list (Candidate sc)) :=
           match l with
           | [] => candidates
           | ui_child :: rest =>
               each (S i) rest
                 (search_in_subtree sc self vh_node (path ++ [i])%list ui_child
                    candidates max_depth (S current_depth))
           end) 0%nat ch candidates
  end.

(** The index entry strategy 1 walks through: [self.ui_node_map[id_suffix]]
    when the geometry node has an id whose suffix is a key of the index. *)
Definition id_refs (self : Parser) (vh_node : Tree) : list UIRef :=
  let vh_id := resource_id (data vh_node) in
  if Str.nonempty vh_id then
    match extract_id_suffix vh_id with
    | Some id_suffix =>
        if Str.nonempty id_suffix then
          match ui_node_map self !! id_suffix with
          | Some refs => refs
          | None => []
          end
        else []
    | None => []
    end
  else [].

(** The candidates found through the id index (strategy 1). *)
Definition candidates_by_id (sc : Scoring) (self : Parser) (vh_node : Tree)
    : list (Candidate sc) :=
  List.map
    (fun ui_node => (ui_node, match_score sc vh_node (ref_node ui_node) true))
    (List.filter (is_node_available self) (id_refs self vh_node)).

(** The candidate list of [_find_best_match], before sorting. *)
Definition collect_candidates (sc : Scoring) (self : Parser) (vh_node : Tree)
    (ui_context : option UIRef) : list (Candidate sc) :=
  let candidates := candidates_by_id sc self vh_node in
  match ui_context with
  | Some ctx =>
      search_in_subtree sc self vh_node (ref_path ctx) (ref_node ctx)
        candidates 2 0
  | None => candidates
  end.

(** [list.sort(key=lambda x: x[1], reverse=True)]: a stable sort, highest
    score first; candidates of equal score keep their order. *)
Fixpoint insert_desc (sc : Scoring) (c : Candidate sc)
    (sorted : list (Candidate sc)) : list (Candidate sc) :=
  match sorted with
  | [] => [c]
  | h :: t =>
      if less sc (snd c) (snd h) then h :: insert_desc sc c t
      else c :: h :: t
  end.

Definition sort_desc (sc : Scoring) (l : list (Candidate sc))
    : list (Candidate sc) :=
  List.fold_right (insert_desc sc) [] l.

(** [_find_best_match] *)
Definition find_best_match (sc : Scoring) (self : Parser) (vh_node : Tree)
    (ui_context : option UIRef) : option UIRef * Parser :=
  let candidates := collect_candidates sc self vh_node ui_context in
  match sort_desc sc candidates with
  | (best_match, score) :: _ =>
      if accepted sc score
      then (Some best_match, mark_node_used self best_match)
      else (None, self)
  | [] => (None, self)
  end.

End Hybrid.

Module Merge.

Import Hybrid.
Local Open Scope string_scope.

(** [if attr in ui_node: vh_node[attr] = ui_node[attr]] *)
Definition sync_attr (vh_value ui_value : option string) : option string :=
  match ui_value with
  | Some v => Some v
  | None => vh_value
  end.

(** [_supplement_text_info] *)
Definition supplement_text_info (vh ui : NodeData) : NodeData :=
  let ui_text := text ui in
  let ui_content_desc := content_desc ui in
  let '(cd, src) :=
    if Str.nonempty ui_content_desc then (ui_content_desc, Some "content-desc")
    else if Str.nonempty ui_text then (ui_text, Some "text")
    else (content_desc vh, text_source vh) in
  let ui_resource_id := resource_id ui in
  let rid :=
    if Str.nonempty ui_resource_id && negb (Str.nonempty (resource_id vh))
    then ui_resource_id else resource_id vh in
  {| class_ := class_ vh;
     resource_id := rid;
     text := ui_text;
     content_desc := cd;
     bounds := bounds vh;
     package := package vh;
     index := index vh;
     clickable := sync_attr (clickable vh) (clickable ui);
     long_clickable := sync_attr (long_clickable vh) (long_clickable ui);
     checkable := sync_attr (checkable vh) (checkable ui);
     checked := sync_attr (checked vh) (checked ui);
     selected := sync_attr (selected vh) (selected ui);
     enabled := sync_attr (enabled vh) (enabled ui);
     focusable := sync_attr (focusable vh) (focusable ui);
     focused := sync_attr (focused vh) (focused ui);
     scrollable := sync_attr (scrollable vh) (scrollable ui);
     geom := geom vh;
     text_source := src;
     info_supplemented := Some true;
     text_matched := Some true |}.

(** [vh_node['text_matched'] = False] *)
Definition set_unmatched (vh : NodeData) : NodeData :=
  {| class_ := class_ vh; resource_id := resource_id vh; text := text vh;
     content_desc := content_desc vh; bounds := bounds vh;
     package := package vh; index := index vh;
     clickable := clickable vh; long_clickable := long_clickable vh;
     checkable := checkable vh; checked := checked vh;
     selected := selected vh; enabled := enabled vh;
     focusable := focusable vh; focused := focused vh;
     scrollable := scrollable vh; geom := geom vh;
     text_source := text_source vh;
     info_supplemented := info_supplemented vh;
     text_matched := Some false |}.

(** [_match_and_merge]: the geometry node is rewritten in place, so the
    function returns the node as it stands after the call. *)
Fixpoint match_and_merge (sc : Scoring) (self : Parser) (vh_node : Tree)
    (ui_context : option UIRef) : Tree * Parser :=
  match vh_node with
  | Node d vh_children =>
      let each :=
        fix each (self : Parser) (l : list Tree) (ctx : option UIRef)
            : list Tree * Parser :=
          match l with
          | [] => ([], self)
          | vh_child :: rest =>
              let '(vh_child', self) := match_and_merge sc self vh_child ctx in
              let '(rest', self) := each self rest ctx in
              (vh_child' :: rest', self)
          end in
      match find_best_match sc self vh_node ui_context with
      | (Some matched_ui, self) =>
          let self :=
            count_matched self (Matched (class_ d) (resource_id d) matched_ui) in
          let d' := supplement_text_info d (data (ref_node matched_ui)) in
          let '(ch', self) := each self vh_children (Some matched_ui) in
          (Node d' ch', self)
      | (None, self) =>
          let self :=
            count_unmatched self (Unmatched (class_ d) (resource_id d)) in
          let d' := set_unmatched d in
          let '(ch', self) := each self vh_children ui_context in
          (Node d' ch', self)
      end
  end.

(** [merge_trees]: returns [vh_content] as the merge leaves it, or [None].
    Of the geometry tree only the content subtree is merged and returned, so
    its position in [vh_tree] plays no part. *)
Definition merge_trees (sc : Scoring) (self : Parser) : option Tree * Parser :=
  match vh_tree self, ui_tree self with
  | Some vh, Some ui =>
      let vh_content :=
        match find_content_node [] vh with
        | Some r => ref_node r
        | None => vh
        end in
      let ui_content :=
        match find_content_node [] ui with
        | Some r => r
        | None => mkRef [] ui
        end in
      let self :=
        set_index self
          (build_ui_index (ref_path ui_content) (ref_node ui_content)
             (ui_node_map self)) in
      let '(merged, self) :=
        match_and_merge sc self vh_content (Some ui_content) in
      (Some merged, self)
  | _, _ => (None, self)
  end.

(** The [match_rate] entry of the statistics: the text ["0%"], or the
    text [f"{matched / total * 100:.1f}%"], kept as the two counts that go
    into the division. *)
Inductive Rate :=
| RateZero
| RatePercent (matched total : nat).

(** the percentage a rate stands for, before it is printed with one decimal *)
Definition rate_value (r : Rate) : Q :=
  match r with
  | RateZero => 0
  | RatePercent matched total =>
      inject_Z (Z.of_nat matched) / inject_Z (Z.of_nat total) * 100
  end.

Record Statistics := mkStats {
  stat_matched : nat;
  stat_unmatched : nat;
  stat_total : nat;
  stat_match_rate : Rate
}.

(** [get_statistics] *)
Definition get_statistics (self : Parser) : Statistics :=
  let total := (matched_count self + unmatched_count self)%nat in
  {| stat_matched := matched_count self;
     stat_unmatched := unmatched_count self;
     stat_total := total;
     stat_match_rate :=
       if (0 <? total)%nat
       then RatePercent (matched_count self) total
       else RateZero |}.

End Merge.

(** ** The specification's reading of the matcher

    Definitions written after the words of the specification, to be compared
    with the code above. *)

Module ScoreSpec.

Import Score.
Local Open Scope Q_scope.

(** The score as the specification words it: four independent terms. *)

Definition same_class_family (c1 c2 : string) : bool :=
  existsb (fun g => in_group c1 (snd g) && in_group c2 (snd g)) type_groups.

Definition id_points (from_id_lookup : bool) : Q :=
  if from_id_lookup then 4 # 10 else 0.

Definition class_points (vh ui : Tree) : Q :=
  let c1 := Str.split_last "." (class_ (data vh)) in
  let c2 := Str.split_last "." (class_ (data ui)) in
  if String.eqb c1 c2 then 3 # 10
  else if same_class_family c1 c2 then 2 # 10
  else 0.

Definition child_similarity (a b : nat) : Q :=
  if (a =? b)%nat then 1
  else if (0 <? a)%nat && (0 <? b)%nat
       then inject_Z (Z.of_nat (Nat.min a b)) / inject_Z (Z.of_nat (Nat.max a b))
       else 0.

Definition agreeing_flags (vh ui : NodeData) : nat :=
  (if bool_decide (clickable vh = clickable ui) then 1 else 0)
  + (if bool_decide (focusable vh = focusable ui) then 1 else 0)
  + (if bool_decide (enabled vh = enabled ui) then 1 else 0)
  + (if bool_decide (scrollable vh = scrollable ui) then 1 else 0).

Definition spec_score (vh ui : Tree) (from_id_lookup : bool) : Q :=
  id_points from_id_lookup
  + class_points vh ui
  + (15 # 100) * child_similarity (List.length (children vh))
                                  (List.length (children ui))
  + (15 # 100) * (inject_Z (Z.of_nat (agreeing_flags (data vh) (data ui))) / 4).

End ScoreSpec.

(** The score as the specification words it, in the arithmetic of the
    code: each of the four terms a binary64 number, added from left to
    right with every operation rounded. *)
Module ScoreSpec64.

Import Score.
Local Open Scope float_scope.
#[local] Set Warnings "-inexact-float".

Definition id_points (from_id_lookup : bool) : float :=
  if from_id_lookup then 0.4 else 0.

Definition class_points (vh ui : Tree) : float :=
  let c1 := Str.split_last "." (class_ (data vh)) in
  let c2 := Str.split_last "." (class_ (data ui)) in
  if String.eqb c1 c2 then 0.3
  else if ScoreSpec.same_class_family c1 c2 then 0.2
  else 0.

Definition child_similarity (a b : nat) : float :=
  if (a =? b)%nat then 1
  else if (0 <? a)%nat && (0 <? b)%nat
       then Binary64.of_count (Nat.min a b) / Binary64.of_count (Nat.max a b)
       else 0.

Definition spec_score (vh ui : Tree) (from_id_lookup : bool) : float :=
  id_points from_id_lookup
  + class_points vh ui
  + 0.15 * child_similarity (List.length (children vh))
                            (List.length (children ui))
  + 0.15 * (Binary64.of_count (ScoreSpec.agreeing_flags (data vh) (data ui))
            / 4).

End ScoreSpec64.

(** The attribute nodes a proximity search visits: pre-order, down to
    [max_depth] levels below the search root. *)
Fixpoint preorder_upto (max_depth current_depth : nat) (path : list nat)
    (t : Tree) : list UIRef :=
  match t with
  | Node d ch =>
      if (max_depth <? current_depth)%nat then []
      else
        mkRef path t ::
        (fix each (i : nat) (l : list Tree) : list UIRef :=
           match l with
           | [] => []
           | c :: rest =>
               preorder_upto max_depth (S current_depth) (path ++ [i]) c
               ++ each (S i) rest
           end) 0%nat ch
  end.

(** All nodes of a tree in pre-order, with their positions. *)
Fixpoint preorder (path : list nat) (t : Tree) : list UIRef :=
  match t with
  | Node d ch =>
      mkRef path t ::
      (fix each (i : nat) (l : list Tree) : list UIRef :=
         match l with
         | [] => []
         | c :: rest => preorder (path ++ [i]) c ++ each (S i) rest
         end) 0%nat ch
  end.

(** The candidates a walk over [refs] contributes: the unreserved nodes of
    positive score, scored without the id bonus. *)
Definition walk_candidates (sc : Scoring) (self : Parser) (vh_node : Tree)
    (refs : list UIRef) : list (Hybrid.Candidate sc) :=
  List.flat_map
    (fun r =>
       if Hybrid.is_node_available self r then
         let score := match_score sc vh_node (ref_node r) false in
         if positive sc score then [(r, score)] else []
       else [])
    refs.

(** ** Characters, digit runs and the regular expressions of the parsers *)

Module Lex.

Local Open Scope char_scope.

Definition code (c : ascii) : nat := nat_of_ascii c.

Definition between (lo hi c : ascii) : bool :=
  (code lo <=? code c)%nat && (code c <=? code hi)%nat.

(** [\d] *)
Definition is_digit (c : ascii) : bool := between "0" "9" c.

(** [[a-f0-9]] *)
Definition is_hex (c : ascii) : bool := between "a" "f" c || is_digit c.

(** [[a-zA-Z0-9_]] *)
Definition is_id_char (c : ascii) : bool :=
  between "a" "z" c || between "A" "Z" c || is_digit c || Ascii.eqb c "_".

(** [[a-zA-Z0-9.$_]] *)
Definition is_class_char (c : ascii) : bool :=
  is_id_char c || Ascii.eqb c "." || Ascii.eqb c "$".

(** [str.isspace] on the code points below 256 *)
Definition is_space (c : ascii) : bool :=
  let n := code c in
  ((9 <=? n) && (n <=? 13))%nat || ((28 <=? n) && (n <=? 32))%nat
  || (n =? 133)%nat || (n =? 160)%nat.

(** The longest prefix of [s] made of [p]-characters, and the rest: a greedy
    [[...]*]. *)
Fixpoint span (p : ascii -> bool) (s : string) : string * string :=
  match s with
  | EmptyString => (EmptyString, EmptyString)
  | String c s' =>
      if p c then let '(a, b) := span p s' in (String c a, b)
      else (EmptyString, s)
  end.

(** A greedy [[...]+]: fails on an empty run. *)
Definition span1 (p : ascii -> bool) (s : string) : option (string * string) :=
  let '(a, b) := span p s in
  if Str.nonempty a then Some (a, b) else None.

(** a literal prefix *)
Fixpoint expect (lit s : string) : option string :=
  match lit, s with
  | EmptyString, _ => Some s
  | String a lit', String b s' => if Ascii.eqb a b then expect lit' s' else None
  | String _ _, EmptyString => None
  end.

(** [re.search]: the first position from which the anchored matcher [m]
    succeeds. *)
Fixpoint search {A} (m : string -> option A) (s : string) : option A :=
  match m s with
  | Some r => Some r
  | None =>
      match s with
      | EmptyString => None
      | String _ s' => search m s'
      end
  end.

Definition digit_value (c : ascii) : Z := Z.of_nat (code c - code "0").

(** [int(digits)] *)
Definition int_of_digits (digits : string) : Z :=
  (fix go (s : string) (acc : Z) : Z :=
     match s with
     | EmptyString => acc
     | String c s' => go s' (10 * acc + digit_value c)
     end) digits 0.

(** [str(n)] for an [int] *)
Definition str_of_int (n : Z) : string :=
  DecimalString.NilZero.string_of_int (Z.to_int n).

(** [s.lstrip()] and [s.strip()] *)
Definition lstrip (s : string) : string := snd (span is_space s).
Definition strip (s : string) : string := Str.rev (lstrip (Str.rev (lstrip s))).

(** [re.findall(r'\d+', s)]: the maximal digit runs of [s]; [cur] is the
    run being read, reversed. *)
Fixpoint findall_digits_from (s cur : string) : list string :=
  let flush := if Str.nonempty cur then [Str.rev cur] else [] in
  match s with
  | EmptyString => flush
  | String c s' =>
      if is_digit c then findall_digits_from s' (String c cur)
      else flush ++ findall_digits_from s' EmptyString
  end.

Definition findall_digits (s : string) : list string :=
  findall_digits_from s EmptyString.

End Lex.

(** Four integers [left, top, right, bottom].  The geometry parser keeps
    bounds as text ["l,t-r,b"] and re-reads them with
    [(\d+),(\d+)-(\d+),(\d+)] where it needs the numbers; such a text is
    represented by the four integers it denotes. *)
Record Bounds := mkBounds { left : Z; top : Z; right : Z; bottom : Z }.

(** ** [UIParser] *)

Module UIParser.

Local Open Scope string_scope.
Local Open Scope Z_scope.

(** An element of the UIAutomator document: its attributes and children. *)
#[local] Unset Elimination Schemes.
Inductive Element := Elem (attrs : list (string * string)) (elems : list Element).
#[local] Set Elimination Schemes.

(** [node.get(key, default)] *)
Fixpoint attr_get (key : string) (attrs : list (string * string))
    (default : string) : string :=
  match attrs with
  | [] => default
  | (k, v) :: rest => if String.eqb k key then v else attr_get key rest default
  end.

(** the geometry keys written from four numbers *)
Definition geom_of (l t r b : Z) : Geom :=
  {| x1 := l; y1 := t; x2 := r; y2 := b;
     center_x := (l + r) / 2; center_y := (t + b) / 2;
     width := r - l; height := b - t |}.

(** the bounds part of [_parse_node] *)
Definition parse_bounds (bounds_str : string) : option Geom :=
  if Str.nonempty bounds_str then
    match Lex.findall_digits bounds_str with
    | [a; b; c; d] =>
        Some (geom_of (Lex.int_of_digits a) (Lex.int_of_digits b)
                      (Lex.int_of_digits c) (Lex.int_of_digits d))
    | _ => None
    end
  else None.

(** [_parse_node] *)
Fixpoint parse_node (node : Element) : Tree :=
  match node with
  | Elem attrs elems =>
      Node
        {| class_ := attr_get "class" attrs "";
           package := attr_get "package" attrs "";
           text := attr_get "text" attrs "";
           resource_id := attr_get "resource-id" attrs "";
           content_desc := attr_get "content-desc" attrs "";
           bounds := attr_get "bounds" attrs "";
           clickable := Some (attr_get "clickable" attrs "false");
           enabled := Some (attr_get "enabled" attrs "true");
           focusable := Some (attr_get "focusable" attrs "false");
           focused := Some (attr_get "focused" attrs "false");
           scrollable := Some (attr_get "scrollable" attrs "false");
           long_clickable := Some (attr_get "long-clickable" attrs "false");
           selected := Some (attr_get "selected" attrs "false");
           checkable := Some (attr_get "checkable" attrs "false");
           checked := Some (attr_get "checked" attrs "false");
           index := attr_get "index" attrs "0";
           geom := parse_bounds (attr_get "bounds" attrs "");
           text_source := None;
           info_supplemented := None;
           text_matched := None |}
        (List.map parse_node elems)
  end.

(** [parse_ui_xml]: the document is given as the result of [ET.parse], its
    root element or [None] when reading or parsing raised. *)
Definition parse_ui_xml (document : option Element) : option Tree :=
  option_map parse_node document.

(** [node['x1'] <= x <= node['x2'] and node['y1'] <= y <= node['y2']] *)
Definition contains_point (g : Geom) (x y : Z) : bool :=
  (x1 g <=? x) && (x <=? x2 g) && (y1 g <=? y) && (y <=? y2 g).

(** [_find_elements_at_point] *)
Fixpoint find_elements_at_point (node : Tree) (x y : Z)
    (elements : list Tree) : list Tree :=
  match node with
  | Node d ch =>
      let elements :=
        match geom d with
        | Some g =>
            if contains_point g x y then (elements ++ [node])%list else elements
        | None => elements
        end in
      (fix each (l : list Tree) (elements : list Tree) : list Tree :=
         match l with
         | [] => elements
         | child :: rest => each rest (find_elements_at_point child x y elements)
         end) ch elements
  end.

(** the key of [min]: [e.get('width', inf) * e.get('height', inf)]; every
    collected element has its geometry keys *)
Definition area (e : Tree) : option Z :=
  match geom (data e) with
  | Some g => Some (width g * height g)
  | None => None
  end.

(** [a < b] on keys, a missing geometry counting as infinite *)
Definition key_lt (a b : option Z) : bool :=
  match a, b with
  | Some a, Some b => a <? b
  | Some _, None => true
  | None, _ => false
  end.

(** [min(elements, key=...)]: the first element of least key *)
Fixpoint min_by_area (best : Tree) (rest : list Tree) : Tree :=
  match rest with
  | [] => best
  | e :: rest' =>
      if key_lt (area e) (area best) then min_by_area e rest'
      else min_by_area best rest'
  end.

(** [find_element_at_point] *)
Definition find_element_at_point (ui_data : option Tree) (x y : Z) : option Tree :=
  match ui_data with
  | None => None
  | Some root =>
      match find_elements_at_point root x y [] with
      | e :: rest => Some (min_by_area e rest)
      | [] => None
      end
  end.

End UIParser.

(** ** [ViewHierarchyParser] *)

Module VH.

Local Open Scope string_scope.
Local Open Scope Z_scope.

Definition FILTER_IDS : list string :=
  ["action_mode_bar_stub"; "navigationBarBackground"; "statusBarBackground"].

Definition FILTER_CLASSES : list string := ["android.view.IndicatorBar"].

(** What [_parse_line] extracts from one line.  [li_bounds] stands for both
    [bounds] (the matched text) and [bounds_parsed] (its four numbers). *)
Record LineInfo := mkLine {
  li_class : string;
  li_bounds : Bounds;
  li_resource_id : option string;
  li_instance_hash : option string;
  li_visible : bool;
  li_focusable : bool;
  li_enabled : bool;
  li_clickable : bool
}.

(** [view_info] once [parse] has placed the line. *)
Record ViewInfo := mkView {
  vi_line : LineInfo;
  vi_absolute_bounds : Bounds;
  vi_parent_bounds : option Bounds;
  vi_indent : Z;
  vi_level : nat;
  vi_original_line : string
}.

(** [(\d+),(\d+)-(\d+),(\d+)], anchored *)
Definition match_bounds (s : string) : option Bounds :=
  '(l, s) ← Lex.span1 Lex.is_digit s;
  s ← Lex.expect "," s;
  '(t, s) ← Lex.span1 Lex.is_digit s;
  s ← Lex.expect "-" s;
  '(r, s) ← Lex.span1 Lex.is_digit s;
  s ← Lex.expect "," s;
  '(b, _) ← Lex.span1 Lex.is_digit s;
  Some (mkBounds (Lex.int_of_digits l) (Lex.int_of_digits t)
                 (Lex.int_of_digits r) (Lex.int_of_digits b)).

(** [#[a-f0-9]+ (?:app|android):id/([a-zA-Z0-9_]+)], anchored; group 1 *)
Definition match_id (s : string) : option string :=
  s ← Lex.expect "#" s;
  '(_, s) ← Lex.span1 Lex.is_hex s;
  s ← Lex.expect " " s;
  s ← match Lex.expect "app" s ≫= Lex.expect ":id/" with
      | Some s' => Some s'
      | None => Lex.expect "android" s ≫= Lex.expect ":id/"
      end;
  '(name, _) ← Lex.span1 Lex.is_id_char s;
  Some name.

(** [\{([a-f0-9]+)], anchored; group 1 *)
Definition match_hash (s : string) : option string :=
  s ← Lex.expect "{" s;
  '(h, _) ← Lex.span1 Lex.is_hex s;
  Some h.

(** [_parse_line] *)
Definition parse_line (line : string) : option LineInfo :=
  match Lex.span1 Lex.is_class_char line with
  | None => None
  | Some (cls, _) =>
      match Lex.search match_bounds line with
      | None => None
      | Some b =>
          Some {| li_class := cls;
                  li_bounds := b;
                  li_resource_id := Lex.search match_id line;
                  li_instance_hash := Lex.search match_hash line;
                  li_visible := Str.contains "V." line;
                  li_focusable := Str.contains ".F" line;
                  li_enabled := Str.contains ".E" line;
                  li_clickable :=
                    Str.contains ".C" line
                    || Str.contains "Button" cls
                    || Str.contains "TextView" cls |}
      end
  end.

(** [_should_filter] *)
Definition should_filter (view_info : LineInfo) : bool :=
  (match li_resource_id view_info with
   | Some rid =>
       Str.nonempty rid
       && existsb (fun filter_id => Str.contains filter_id rid) FILTER_IDS
   | None => false
   end)
  || (Str.nonempty (li_class view_info)
      && existsb (fun filter_class => String.eqb filter_class (li_class view_info))
                 FILTER_CLASSES)
  || (let b := li_bounds view_info in
      let width := right b - left b in
      let height := bottom b - top b in
      (width =? 0) && (height =? 0)).

(** [_calculate_absolute_bounds]; both texts always match the pattern *)
Definition calculate_absolute_bounds (parent_bounds child_bounds : Bounds) : Bounds :=
  let p_left := left parent_bounds in
  let p_top := top parent_bounds in
  {| left := p_left + left child_bounds;
     top := p_top + top child_bounds;
     right := p_left + right child_bounds;
     bottom := p_top + bottom child_bounds |}.

(** [str(flag).lower()] *)
Definition str_of_bool (b : bool) : string := if b then "true" else "false".

(** [f"[{left},{top}][{right},{bottom}]"] *)
Definition bounds_text (l t r b : Z) : string :=
  "[" +:+ Lex.str_of_int l +:+ "," +:+ Lex.str_of_int t +:+ "]["
  +:+ Lex.str_of_int r +:+ "," +:+ Lex.str_of_int b +:+ "]".

(** [_create_ui_node] *)
Definition create_ui_node (view_info : ViewInfo) : NodeData :=
  let abs_bounds := vi_absolute_bounds view_info in
  let li := vi_line view_info in
  let resource_id :=
    match li_resource_id li with
    | Some rid =>
        if Str.nonempty rid then
          if String.eqb rid "content" then "app:id/content"
          else "app:id/" +:+ rid
        else ""
    | None => ""
    end in
  let l := left abs_bounds in
  let t := top abs_bounds in
  let r := right abs_bounds in
  let b := bottom abs_bounds in
  {| class_ := li_class li;
     resource_id := resource_id;
     text := "";
     content_desc := "";
     bounds := bounds_text l t r b;
     clickable := Some (str_of_bool (li_clickable li));
     enabled := Some (str_of_bool (li_enabled li));
     focusable := Some (str_of_bool (li_focusable li));
     scrollable := Some "false";
     package := "";
     index := "0";
     long_clickable := None; checkable := None; checked := None;
     selected := None; focused := None;
     geom := Some (UIParser.geom_of l t r b);
     text_source := None; info_supplemented := None; text_matched := None |}.

(** [_create_virtual_root] *)
Definition create_virtual_root : NodeData :=
  {| class_ := "RootNode"; resource_id := ""; text := ""; content_desc := "";
     bounds := "[0,0][0,0]";
     clickable := Some "false"; enabled := Some "true";
     focusable := Some "false"; scrollable := Some "false";
     package := ""; index := "0";
     long_clickable := None; checkable := None; checked := None;
     selected := None; focused := None;
     geom := Some (mkGeom 0 0 0 0 0 0 0 0);
     text_source := None; info_supplemented := None; text_matched := None |}.

(** The parser while it runs.  The nodes live in [store]: a node is named by
    its index there and lists its children by their indices, so that
    [parent_node['children'].append(ui_node)] changes the parent wherever it
    is referred to.  Index 0 is the virtual root [self.root].  Both stacks
    have their top first. *)
Record State := mkState {
  parent_stack : list ViewInfo;
  nodes_stack : list nat;
  skip_children_until_indent : Z;
  views : list ViewInfo;
  store : list (NodeData * list nat)
}.

Definition root_id : nat := 0%nat.

(** [ViewHierarchyParser.__init__] and the locals of [parse] *)
Definition init : State :=
  {| parent_stack := []; nodes_stack := [];
     skip_children_until_indent := -1;
     views := []; store := [(create_virtual_root, [])] |}.

Definition set_skip (st : State) (indent : Z) : State :=
  {| parent_stack := parent_stack st; nodes_stack := nodes_stack st;
     skip_children_until_indent := indent;
     views := views st; store := store st |}.

Definition set_stacks (st : State) (ps : list ViewInfo) (ns : list nat) : State :=
  {| parent_stack := ps; nodes_stack := ns;
     skip_children_until_indent := skip_children_until_indent st;
     views := views st; store := store st |}.

(** the [while] loop that pops both stacks *)
Fixpoint pop_stacks (indent_level : Z) (ps : list ViewInfo) (ns : list nat)
    : list ViewInfo * list nat :=
  match ps with
  | p :: ps' =>
      if indent_level <=? vi_indent p then pop_stacks indent_level ps' (tl ns)
      else (ps, ns)
  | [] => ([], ns)
  end.

(** [store[parent]['children'].append(child)] *)
Definition add_child (parent child : nat) (store : list (NodeData * list nat))
    : list (NodeData * list nat) :=
  alter (fun n => (fst n, (snd n ++ [child])%list)) parent store.

(** [len(line) - len(line.lstrip())] *)
Definition indent_of (line : string) : Z :=
  Z.of_nat (String.length line - String.length (Lex.lstrip line)).

(** a line that [parse] passes over at once *)
Definition ignored (line : string) : bool :=
  negb (Str.nonempty (Lex.strip line)) || Str.contains "View Hierarchy:" line.

(** a line at [indent_level] placed and turned into a node *)
Definition place (st : State) (line : string) (indent_level : Z)
    (view_info : LineInfo) : State :=
  let '(ps, ns) := pop_stacks indent_level (parent_stack st) (nodes_stack st) in
  let st := set_stacks st ps ns in
  let '(absolute_bounds, parent_bounds) :=
    match ps with
    | parent :: _ =>
        (calculate_absolute_bounds (vi_absolute_bounds parent)
           (li_bounds view_info),
         Some (vi_absolute_bounds parent))
    | [] => (li_bounds view_info, None)
    end in
  let view_info :=
    {| vi_line := view_info;
       vi_absolute_bounds := absolute_bounds;
       vi_parent_bounds := parent_bounds;
       vi_indent := indent_level;
       vi_level := List.length ps;
       vi_original_line := line |} in
  let ui_node := create_ui_node view_info in
  let zero_size :=
    match geom ui_node with
    | Some g => (width g =? 0) && (height g =? 0)
    | None => false
    end in
  if zero_size then set_skip st indent_level
  else
    let id := List.length (store st) in
    let store' :=
      match ns with
      | parent_node :: _ => add_child parent_node id (store st)
      | [] => add_child root_id id (store st)
      end in
    {| parent_stack := view_info :: ps;
       nodes_stack := id :: ns;
       skip_children_until_indent := skip_children_until_indent st;
       views := (views st ++ [view_info])%list;
       store := (store' ++ [(ui_node, [])])%list |}.

(** the body of the [for] loop of [parse] *)
Definition step (st : State) (line : string) : State :=
  if ignored line then st
  else
    let indent_level := indent_of line in
    let skipping :=
      (0 <=? skip_children_until_indent st)
      && (skip_children_until_indent st <? indent_level) in
    if skipping then st
    else
      let st :=
        if 0 <=? skip_children_until_indent st then set_skip st (-1) else st in
      match parse_line (Lex.strip line) with
      | None => st
      | Some view_info =>
          if should_filter view_info then set_skip st indent_level
          else place st line indent_level view_info
      end.

Definition parse_lines (st : State) (lines : list string) : State :=
  List.fold_left step lines st.

(** [parse]: the state it leaves; [views st] is the returned list *)
Definition parse (hierarchy_text : string) : State :=
  parse_lines init (Str.split (String "010"%char EmptyString) hierarchy_text).

(** [to_ui_format]: the index of the returned node *)
Definition to_ui_format (st : State) : nat :=
  match store st !! root_id with
  | Some (_, [only]) => only
  | _ => root_id
  end.

(** The tree below a node of the store. *)
Fixpoint tree_of (fuel : nat) (store : list (NodeData * list nat)) (id : nat)
    : option Tree :=
  match fuel with
  | O => None
  | S fuel' =>
      match store !! id with
      | Some (d, ch) =>
          match mapM (tree_of fuel' store) ch with
          | Some ch' => Some (Node d ch')
          | None => None
          end
      | None => None
      end
  end.

(** the tree [to_ui_format] returns *)
Definition result_tree (st : State) : option Tree :=
  tree_of (List.length (store st)) (store st) (to_ui_format st).

End VH.

(** ** The hybrid analysis of [CarScreenMirrorTool] *)

Module App.

Import Hybrid.

(** The file [ADBHelper.dump_ui_automator] names: whether it exists, and
    the root element [ET.parse] reads from it ([None] when it raises). *)
Record UiFile := mkUiFile {
  file_exists : bool;
  document : option UIParser.Element
}.

(** What the device answers during one analysis.  [fetch_view_hierarchy]
    is the text obtained through [get_current_activity] and
    [get_view_hierarchy] ([None] when either fails); [ask_view_hierarchy] is
    the text obtained for the activity name typed into the dialog ([None]
    when the dialog is dismissed or the dump fails).  A query repeated
    within one analysis is answered the same way. *)
Record Device := mkDevice {
  dump_ui_automator : option UiFile;
  fetch_view_hierarchy : option string;
  ask_view_hierarchy : option string
}.

(** truthiness of an optional text: [None] and the empty text are false *)
Definition has_text (s : option string) : bool :=
  match s with
  | Some s => Str.nonempty s
  | None => false
  end.

(** [HybridUIParser.parse_view_hierarchy] *)
Definition parse_view_hierarchy (self : Parser) (hierarchy_text : string) : Parser :=
  {| ui_tree := ui_tree self;
     vh_tree := VH.result_tree (VH.parse hierarchy_text);
     matched_count := matched_count self;
     unmatched_count := unmatched_count self;
     ui_node_map := ui_node_map self; used := used self;
     printed := printed self |}.

(** [HybridUIParser.parse_uiautomator]; the nodes of a newly parsed tree
    carry no [_used] key *)
Definition parse_uiautomator (self : Parser) (xml_file : UiFile) : Parser :=
  {| ui_tree := UIParser.parse_ui_xml (document xml_file);
     vh_tree := vh_tree self;
     matched_count := matched_count self;
     unmatched_count := unmatched_count self;
     ui_node_map := ui_node_map self; used := ∅;
     printed := printed self |}.

(** What an analysis leaves: [self.hierarchy_data] and, when the hybrid
    merge produced a tree, the statistics it shows. *)
Record Analysis := mkAnalysis {
  hierarchy_data : option Tree;
  shown_statistics : option Merge.Statistics
}.

(** [_parseUIAutomatorMode] *)
Definition parseUIAutomatorMode (dev : Device) : Analysis :=
  match dump_ui_automator dev with
  | Some ui_file =>
      if file_exists ui_file
      then mkAnalysis (UIParser.parse_ui_xml (document ui_file)) None
      else mkAnalysis None None
  | None => mkAnalysis None None
  end.

(** [_parseViewHierarchyMode] *)
Definition parseViewHierarchyMode (dev : Device) : Analysis :=
  let hierarchy_text := fetch_view_hierarchy dev in
  let hierarchy_text :=
    if has_text hierarchy_text then hierarchy_text else ask_view_hierarchy dev in
  match hierarchy_text with
  | Some text =>
      if Str.nonempty text then
        let st := VH.parse text in
        match VH.views st with
        | [] => mkAnalysis None None
        | _ :: _ => mkAnalysis (VH.result_tree st) None
        end
      else mkAnalysis None None
  | None => mkAnalysis None None
  end.

(** [_parseHybridMode]; [hierarchy_data] was cleared before it runs *)
Definition parseHybridMode (sc : Scoring) (dev : Device) : Analysis :=
  let ui_file := dump_ui_automator dev in
  let hierarchy_text := fetch_view_hierarchy dev in
  match ui_file, hierarchy_text with
  | None, _ =>
      if has_text hierarchy_text then parseViewHierarchyMode dev
      else mkAnalysis None None
  | Some file, _ =>
      if negb (has_text hierarchy_text) then parseUIAutomatorMode dev
      else if negb (file_exists file) then parseViewHierarchyMode dev
      else
        let hybrid_parser := Hybrid.init in
        let hybrid_parser :=
          parse_view_hierarchy hybrid_parser (default EmptyString hierarchy_text) in
        let hybrid_parser := parse_uiautomator hybrid_parser file in
        let '(data, hybrid_parser) := Merge.merge_trees sc hybrid_parser in
        match data with
        | Some _ => mkAnalysis data (Some (Merge.get_statistics hybrid_parser))
        | None => mkAnalysis None None
        end
  end.

End App.

(** ** Auxiliary notions used in the statements *)


(** What the statements about the highest score ask of the comparisons,
    given which scores are numbers: [<] is irreflexive and transitive, of
    two scores one below the other any third that is a number is above the
    lower or below the higher, and a number that is not below an accepted
    score is accepted.  The rationals satisfy this, and so do the binary64
    numbers with NaN set apart. *)
Record ScoringLaws (sc : Scoring) (is_number : num sc -> bool) : Prop := {
  less_irrefl : forall a, less sc a a = false;
  less_trans :
    forall a b c, less sc a b = true -> less sc b c = true -> less sc a c = true;
  less_between :
    forall a b c,
      is_number b = true -> less sc a c = true ->
      less sc a b = true \/ less sc b c = true;
  accepted_upward :
    forall a b,
      is_number b = true -> accepted sc a = true -> less sc b a = false ->
      accepted sc b = true
}.



(** the attribute nodes matched by the lines of a merge, in order *)
Definition matched_paths (events : list Event) : list (list nat) :=
  List.flat_map
    (fun e => match e with
              | Matched _ _ ui => [ref_path ui]
              | Unmatched _ _ => []
              end)
    events.


(** ** Sample inputs *)

Module Samples.

Local Open Scope string_scope.

Definition nl : string := String "010"%char EmptyString.

(** A title line with one child line. *)
Definition title_dump : string :=
  "android.widget.TextView{a1 V.ED..... ........ 0,0-100,50 #7f080001 app:id/title}"
  +:+ nl +:+
  "  android.view.View{a2 V.ED..... ........ 0,0-10,10}".

Definition title_vh : Tree :=
  default (Node VH.create_virtual_root []) (VH.result_tree (VH.parse title_dump)).

Definition leaf (cls : string) : UIParser.Element :=
  UIParser.Elem [("class", cls)] [].

(** An attribute document: a text view with one child, then a view that
    carries the id [title] and has three children. *)
Definition tie_document : UIParser.Element :=
  UIParser.Elem [("class", "android.widget.FrameLayout")]
    [ UIParser.Elem [("class", "android.widget.TextView"); ("clickable", "true")]
        [leaf "android.view.View"];
      UIParser.Elem [("class", "android.view.View");
                     ("resource-id", "com.app:id/title");
                     ("clickable", "true")]
        [leaf "android.view.View"; leaf "android.view.View";
         leaf "android.view.View"] ].

Definition tie_ui : Tree := UIParser.parse_node tie_document.


End Samples.

(** The loop of [_match_and_merge] over the children, on its own. *)
Fixpoint merge_each (sc : Scoring) (self : Parser) (l : list Tree)
    (ctx : option UIRef) : list Tree * Parser :=
  match l with
  | [] => ([], self)
  | vh_child :: rest =>
      let '(vh_child', self) := Merge.match_and_merge sc self vh_child ctx in
      let '(rest', self) := merge_each sc self rest ctx in
      (vh_child' :: rest', self)
  end.

(** What one stretch of a merge pass does to the parser: it prints [events],
    one line per geometry node, counts them, and reserves exactly the
    attribute nodes it matched, each of them free before and once only. *)
Record Pass (self self' : Parser) (events : list Event) (nodes : nat) : Prop := {
  pass_printed : printed self' = printed self ++ events;
  pass_lines : List.length events = nodes;
  pass_matched :
    matched_count self'
    = (matched_count self + List.length (matched_paths events))%nat;
  pass_total :
    (matched_count self' + unmatched_count self'
     = matched_count self + unmatched_count self + nodes)%nat;
  pass_nodup : NoDup (matched_paths events);
  pass_fresh : forall p, p ∈ matched_paths events -> p ∉ used self;
  pass_used : forall p, p ∈ used self' <-> p ∈ used self \/ p ∈ matched_paths events;
  pass_index : ui_node_map self' = ui_node_map self
}.

(** a parser holding the two trees, as after [parse_view_hierarchy] and
    [parse_uiautomator] *)
Definition with_trees (self : Parser) (vh ui : Tree) : Parser :=
  {| ui_tree := Some ui; vh_tree := Some vh;
     matched_count := matched_count self;
     unmatched_count := unmatched_count self;
     ui_node_map := ui_node_map self; used := used self;
     printed := printed self |}.

(** the content anchor of a tree, or the whole tree when it has none *)
Definition anchored (t : Tree) : Tree :=
  match Hybrid.find_content_node [] t with
  | Some r => ref_node r
  | None => t
  end.

(** The conservation read for every pass: also after a second pass by the
    same parser, over the geometry tree as its first pass left it and the
    same attribute tree, the two counters add up to the number of nodes of
    the anchored geometry tree.  (For a geometry tree without content node
    the tree [merge_trees] returns is the whole of [vh_tree].) *)
Definition conservation_every_pass : Prop :=
  forall (sc : Scoring) (vh ui merged : Tree) (self' : Parser),
    Hybrid.find_content_node [] vh = None ->
    Merge.merge_trees sc (with_trees Hybrid.init vh ui) = (Some merged, self') ->
    let self'' := snd (Merge.merge_trees sc (with_trees self' merged ui)) in
    (matched_count self'' + unmatched_count self'')%nat
    = tree_size (anchored merged).

(** The copying rule read as a plain two-way choice: the content
    description when it is non-empty, else the text, with the source
    recorded either way. *)
Definition supplement_two_way (vh ui result : NodeData) : Prop :=
  (if Str.nonempty (content_desc ui)
   then content_desc result = content_desc ui
        /\ text_source result = Some "content-desc"%string
   else content_desc result = text ui
        /\ text_source result = Some "text"%string)
  /\ text result = text ui
  /\ (resource_id result <> resource_id vh -> resource_id vh = EmptyString).

Module Samples2.

Import Samples.
Local Open Scope string_scope.

(** An attribute document whose only node is the title, with text. *)
Definition hello_document : UIParser.Element :=
  UIParser.Elem [("class", "android.widget.TextView");
                 ("resource-id", "com.app:id/title");
                 ("text", "Hello")] [].

Definition hello_ui : Tree := UIParser.parse_node hello_document.

(** An attribute document whose only node is the title, with neither text
    nor content description. *)
Definition silent_document : UIParser.Element :=
  UIParser.Elem [("class", "android.widget.TextView");
                 ("resource-id", "com.app:id/title")] [].

Definition silent_ui : Tree := UIParser.parse_node silent_document.

(** An attribute node that agrees with the title in id, class, child count
    and all four flags. *)
Definition twin_document : UIParser.Element :=
  UIParser.Elem [("class", "android.widget.TextView");
                 ("resource-id", "com.app:id/title");
                 ("clickable", "true")]
    [leaf "android.view.View"].

Definition twin_ui : Tree := UIParser.parse_node twin_document.

(** An attribute node that agrees with the title in nothing. *)
Definition stranger_document : UIParser.Element :=
  UIParser.Elem [("class", "android.view.View");
                 ("enabled", "false"); ("focusable", "true");
                 ("scrollable", "true")] [].

Definition stranger_ui : Tree := UIParser.parse_node stranger_document.

End Samples2.

(** all nodes of a tree, in pre-order *)
Definition tree_nodes (t : Tree) : list Tree := List.map ref_node (preorder [] t).

(** all nodes of the tree given to a query *)
Definition all_nodes (ui_data : option Tree) : list Tree :=
  match ui_data with
  | Some t => tree_nodes t
  | None => []
  end.

(** [a]'s area is at most [b]'s, both having geometry *)
Definition area_le (a b : Tree) : Prop :=
  match geom (data a), geom (data b) with
  | Some ga, Some gb => width ga * height ga <= width gb * height gb
  | _, _ => False
  end.

(** the node has parsed geometry that contains the point *)
Definition node_contains (x y : Z) (n : Tree) : bool :=
  match geom (data n) with
  | Some g => UIParser.contains_point g x y
  | None => false
  end.

Module Samples3.

Import Samples.

(** the node of [tie_ui] that carries the id [title]: no text, no content
    description *)
Definition tie_winner : UIRef :=
  mkRef [1%nat] (List.nth 1 (children tie_ui) tie_ui).

End Samples3.

(** ** Notions used in the statements about the geometry parser *)

Module VHSpec.

Import VH.
Local Open Scope Z_scope.

(** [parse] looks at the line: it is neither passed over at once nor inside
    the subtree being skipped. *)
Definition examined (st : State) (line : string) : bool :=
  negb (ignored line)
  && negb ((0 <=? skip_children_until_indent st)
           && (skip_children_until_indent st <? indent_of line)).

(** a following line that belongs to the subtree of a line at [indent] *)
Definition below (indent : Z) (line : string) : bool :=
  ignored line || (indent <? indent_of line).



Definition zero_size (b : Bounds) : bool :=
  (right b - left b =? 0) && (bottom b - top b =? 0).



(** [parent]'s bounds contain [child]'s bounds *)
Definition bounds_contain (parent child : NodeData) : bool :=
  match geom parent, geom child with
  | Some p, Some c =>
      (x1 p <=? x1 c) && (x2 c <=? x2 p) && (y1 p <=? y1 c) && (y2 c <=? y2 p)
  | _, _ => false
  end.

(** [child] lies right of and below [parent]'s top-left corner *)
Definition origin_within (parent child : NodeData) : bool :=
  match geom parent, geom child with
  | Some p, Some c =>
      (x1 p <=? x1 c) && (x1 p <=? x2 c) && (y1 p <=? y1 c) && (y1 p <=? y2 c)
  | _, _ => false
  end.

(** [rel] holds between every node of [t] and each of its children *)
Fixpoint all_children (rel : NodeData -> NodeData -> bool) (t : Tree) : bool :=
  match t with
  | Node d ch => forallb (fun c => rel d (data c) && all_children rel c) ch
  end.

(** [parent] contains [child], as bounds *)
Definition within (parent child : Bounds) : Prop :=
  left parent <= left child /\ right child <= right parent
  /\ top parent <= top child /\ bottom child <= bottom parent.

(** Containment as a property of the parser: in every tree it returns,
    each node's bounds contain the bounds of each of its children. *)
Definition containment_holds : Prop :=
  forall text t,
    result_tree (parse text) = Some t -> all_children bounds_contain t = true.

(** a placed line's absolute bounds are its relative bounds shifted by the
    top-left corner of the line it was placed under *)
Definition shifted (vi : ViewInfo) : Prop :=
  match vi_parent_bounds vi with
  | Some pb =>
      vi_absolute_bounds vi
      = calculate_absolute_bounds pb (li_bounds (vi_line vi))
  | None => vi_absolute_bounds vi = li_bounds (vi_line vi)
  end.

(** [rel] holds between every node of [t] and each of its children *)
Fixpoint every_edge (rel : NodeData -> NodeData -> Prop) (t : Tree) : Prop :=
  match t with
  | Node d ch =>
      (fix each (l : list Tree) : Prop :=
         match l with
         | [] => True
         | c :: rest => rel d (data c) /\ every_edge rel c /\ each rest
         end) ch
  end.

(** The child node [dc] was built for one of the placed lines [vs], and
    that line's absolute bounds are its relative bounds shifted by the
    top-left corner [x1], [y1] of the parent node [d]; the child's bounds
    lie within the parent's exactly when the relative right and bottom do
    not exceed the parent's width and height. *)
Definition shifted_from_parent (vs : list ViewInfo) (d dc : NodeData) : Prop :=
  exists vi g,
    vi ∈ vs /\ dc = create_ui_node vi /\ geom d = Some g
    /\ (let rel := li_bounds (vi_line vi) in
        vi_absolute_bounds vi
        = mkBounds (x1 g + left rel) (y1 g + top rel)
                   (x1 g + right rel) (y1 g + bottom rel)
        /\ (bounds_contain d dc = true
            <-> right rel <= width g /\ bottom rel <= height g)).

End VHSpec.

Module Samples4.

Import Samples.
Local Open Scope string_scope.

(** a line of zero width and non-zero height *)
Definition thin_line : string :=
  "android.view.View{a3 V.ED..... ........ 0,0-0,10}".


(** a small frame whose child is larger than the frame *)
Definition overflow_dump : string :=
  "android.widget.FrameLayout{a7 V.E...... ........ 10,10-20,20}"
  +:+ nl +:+
  "  android.view.View{a8 V.ED..... ........ 0,0-100,100}".

End Samples4.

Module VHInv.

Import VH VHSpec.

(** the geometry keys of a node with bounds [b] *)
Definition geom_of_bounds (b : Bounds) : Geom :=
  UIParser.geom_of (left b) (top b) (right b) (bottom b).

(** The state invariant of [parse]: each entry of [parent_stack] describes
    the node at the same depth of [nodes_stack]; the virtual root is node 0;
    the children of a node were created after it, exist, and lie right of
    and below its top-left corner. *)
Record WF (st : State) : Prop := {
  wf_stacks :
    Forall2 (fun vi id =>
               exists d ch,
                 store st !! id = Some (d, ch)
                 /\ geom d = Some (geom_of_bounds (vi_absolute_bounds vi)))
            (parent_stack st) (nodes_stack st);
  wf_root : exists ch, store st !! root_id = Some (create_virtual_root, ch);
  wf_children :
    forall p d ch c,
      store st !! p = Some (d, ch) -> c ∈ ch ->
      (p < c)%nat
      /\ exists dc chc,
           store st !! c = Some (dc, chc) /\ origin_within d dc = true
}.

(** what [parse] keeps of a parent and a child node: the child was built
    for a placed line of natural relative bounds, shifted by the bounds the
    parent node was built from *)
Definition edge (vs : list ViewInfo) (d dc : NodeData) : Prop :=
  exists vi pb,
    vi ∈ vs /\ dc = create_ui_node vi
    /\ geom d = Some (geom_of_bounds pb)
    /\ vi_absolute_bounds vi
       = calculate_absolute_bounds pb (li_bounds (vi_line vi))
    /\ (0 <= left (li_bounds (vi_line vi))
        /\ 0 <= top (li_bounds (vi_line vi)))%Z.

(** every child listed in the store is tied to its parent by [edge] *)
Definition Edges (st : State) : Prop :=
  forall p d ch c,
    store st !! p = Some (d, ch) -> c ∈ ch ->
    exists dc chc, store st !! c = Some (dc, chc) /\ edge (views st) d dc.

(** the store after a new node [dn] was appended and listed as the last
    child of [pid] *)
Definition push_store (st : State) (pid : nat) (dn : NodeData)
    : list (NodeData * list nat) :=
  add_child pid (List.length (store st)) (store st) ++ [(dn, [])].

(** all four numbers are natural *)
Definition natural_bounds (b : Bounds) : Prop :=
  (0 <= left b /\ 0 <= top b /\ 0 <= right b /\ 0 <= bottom b)%Z.

End VHInv.

(** a parser holding whichever trees exist *)
Definition with_sources (self : Parser) (vh ui : option Tree) : Parser :=
  {| ui_tree := ui; vh_tree := vh;
     matched_count := matched_count self;
     unmatched_count := unmatched_count self;
     ui_node_map := ui_node_map self; used := used self;
     printed := printed self |}.

(** The merge read as passing through the one tree that exists. *)
Definition merge_passes_through (sc : Scoring) : Prop :=
  forall vh ui : option Tree,
    fst (Merge.merge_trees sc (with_sources Hybrid.init vh ui))
    = match vh, ui with
      | Some t, None => Some t
      | None, Some t => Some t
      | None, None => None
      | Some _, Some _ =>
          fst (Merge.merge_trees sc (with_sources Hybrid.init vh ui))
      end.

(** The hybrid analysis read as ending empty only when both dumps are
    missing. *)
Definition empty_only_if_both_missing (sc : Scoring) : Prop :=
  forall dev : App.Device,
    App.hierarchy_data (App.parseHybridMode sc dev) = None ->
    App.dump_ui_automator dev = None
    /\ App.has_text (App.fetch_view_hierarchy dev) = false.

(** what [_parseViewHierarchyMode] leaves for a non-empty dump text *)
Definition view_hierarchy_result (text : string) : App.Analysis :=
  match VH.views (VH.parse text) with
  | [] => App.mkAnalysis None None
  | _ :: _ => App.mkAnalysis (VH.result_tree (VH.parse text)) None
  end.

(** ** A family of node pairs for checking the two arithmetics against each
    other *)

Module Grid.

Local Open Scope string_scope.

Definition flag (b : bool) : option string := Some (VH.str_of_bool b).

(** a node of class [cls] with [n] children whose first [k] score flags are
    ["false"] and whose other score flags are ["true"] *)
Definition node (cls : string) (n k : nat) : Tree :=
  Node {| class_ := cls; resource_id := ""; text := ""; content_desc := "";
          bounds := ""; package := ""; index := "0";
          clickable := flag (negb (0 <? k)%nat);
          focusable := flag (negb (1 <? k)%nat);
          enabled := flag (negb (2 <? k)%nat);
          scrollable := flag (negb (3 <? k)%nat);
          long_clickable := None; checkable := None; checked := None;
          selected := None; focused := None;
          geom := None; text_source := None; info_supplemented := None;
          text_matched := None |}
       (List.repeat (Node VH.create_virtual_root []) n).

(** a case: id bonus or not, the class of the attribute node, the two child
    counts, and the number of agreeing flags *)
Definition Case : Type := bool * string * nat * nat * nat.

Definition vh_of (c : Case) : Tree :=
  let '(_, _, a, _, _) := c in node "android.widget.TextView" a 4.

Definition ui_of (c : Case) : Tree :=
  let '(_, cls, _, b, k) := c in node cls b k.

Definition has_id (c : Case) : bool := let '(i, _, _, _, _) := c in i.

(** every case with child counts up to [n]: the attribute class equal to
    the geometry class, of its family, or unrelated *)
Definition cases (n : nat) : list Case :=
  i ← [false; true];
  cls ← ["android.widget.TextView"; "android.widget.EditText";
         "android.view.View"];
  a ← seq 0 (S n);
  b ← seq 0 (S n);
  k ← seq 0 5;
  [(i, cls, a, b, k)].

(** on a case the binary64 score lies in [0, 1] and passes the tests
    [score > 0] and [score >= 0.5] exactly when the exact score does *)
Definition agrees (c : Case) : bool :=
  let s64 := match_score binary64_scoring (vh_of c) (ui_of c) (has_id c) in
  let s := match_score exact_scoring (vh_of c) (ui_of c) (has_id c) in
  PrimFloat.leb 0 s64 && PrimFloat.leb s64 1
  && Bool.eqb (positive binary64_scoring s64) (positive exact_scoring s)
  && Bool.eqb (accepted binary64_scoring s64) (accepted exact_scoring s).

End Grid.
(** * Further functions of [car2.py] and [car_mirrot_tool.py] *)

From Stdlib Require DecimalPos.

(** ** Bounds kept as text *)

Module BoundsText.

Local Open Scope string_scope.
Local Open Scope Z_scope.

(** [f"{left},{top}-{right},{bottom}"] *)
Definition format (l t r b : Z) : string :=
  Lex.str_of_int l +:+ "," +:+ Lex.str_of_int t +:+ "-"
  +:+ Lex.str_of_int r +:+ "," +:+ Lex.str_of_int b.

(** the text that stands for four numbers *)
Definition text_of (b : Bounds) : string :=
  format (left b) (top b) (right b) (bottom b).

(** [_calculate_absolute_bounds], on the texts it is given *)
Definition calculate_absolute_bounds (parent_bounds child_bounds : string)
    : string :=
  match VH.match_bounds parent_bounds with
  | None => child_bounds
  | Some parent_match =>
      let p_left := left parent_match in
      let p_top := top parent_match in
      match VH.match_bounds child_bounds with
      | None => child_bounds
      | Some child_match =>
          let c_left := left child_match in
          let c_top := top child_match in
          let c_right := right child_match in
          let c_bottom := bottom child_match in
          let abs_left := p_left + c_left in
          let abs_top := p_top + c_top in
          let abs_right := p_left + c_right in
          let abs_bottom := p_top + c_bottom in
          format abs_left abs_top abs_right abs_bottom
      end
  end.

(** The bounds text and geometry keys [_create_ui_node] writes for the text
    [abs_bounds]: those of its four numbers when it matches, and the empty
    text with all keys 0 when it does not. *)
Definition node_geometry (abs_bounds : string) : string * Geom :=
  match VH.match_bounds abs_bounds with
  | Some m =>
      let left := left m in
      let top := top m in
      let right := right m in
      let bottom := bottom m in
      (VH.bounds_text left top right bottom,
       {| x1 := left; y1 := top; x2 := right; y2 := bottom;
          center_x := (left + right) / 2; center_y := (top + bottom) / 2;
          width := right - left; height := bottom - top |})
  | None => ("", mkGeom 0 0 0 0 0 0 0 0)
  end.

(** a text made of digits only *)
Definition all_digits (s : string) : Prop :=
  Forall (fun c => Lex.is_digit c = true) (list_ascii_of_string s).

(** a text that does not begin with a digit *)
Definition no_digit_ahead (s : string) : Prop :=
  match s with
  | EmptyString => True
  | String c _ => Lex.is_digit c = false
  end.

End BoundsText.

(** ** The shape of what [ViewHierarchyParser.parse] builds *)

Module ParseShape.

Import VH.
Local Open Scope Z_scope.

(** width and height of bounds *)
Definition size (b : Bounds) : Z * Z := (right b - left b, bottom b - top b).

(** [t] is the tree below node [id] of the store, and all its nodes have
    their index in [lo, hi) *)
Fixpoint rep (store : list (NodeData * list nat)) (lo hi id : nat) (t : Tree)
    {struct t} : Prop :=
  match t with
  | Node d ts =>
      (lo <= id < hi)%nat
      /\ exists ch,
           store !! id = Some (d, ch)
           /\ (fix all (ch : list nat) (ts : list Tree) {struct ts} : Prop :=
                 match ch, ts with
                 | [], [] => True
                 | c :: ch', t' :: ts' => rep store lo hi c t' /\ all ch' ts'
                 | _, _ => False
                 end) ch ts
  end.

(** A node on the stack while the tree is built: its index and data, and
    the children it has that are complete, with their trees.  Its last
    child, if the node above it on the stack is one, is not among them. *)
Record Frame := mkFrame {
  fr_id : nat;
  fr_data : NodeData;
  fr_closed : list nat;
  fr_trees : list Tree
}.

(** The frames, top first, describe the store: each frame's node lists its
    complete children followed by [open], the node of the frame above; the
    complete children lie between the node and [bound]. *)
Fixpoint spine (store : list (NodeData * list nat)) (open : list nat)
    (bound : nat) (frames : list Frame) : Prop :=
  match frames with
  | [] => True
  | f :: below =>
      store !! fr_id f = Some (fr_data f, (fr_closed f ++ open)%list)
      /\ Forall2 (rep store (S (fr_id f)) bound) (fr_closed f) (fr_trees f)
      /\ (fr_id f < bound)%nat
      /\ spine store [fr_id f] (fr_id f) below
  end.

(** the data of the nodes of a tree, in pre-order *)
Definition nodes_data (t : Tree) : list NodeData :=
  List.map data (tree_nodes t).

(** the data of all nodes the frames hold, bottom frame first *)
Fixpoint flat_frames (frames : list Frame) : list NodeData :=
  match frames with
  | [] => []
  | f :: below =>
      (flat_frames below
       ++ fr_data f :: List.flat_map nodes_data (fr_trees f))%list
  end.

(** the tree the frames stand for, with [inner] below the top frame *)
Fixpoint close (inner : list Tree) (frames : list Frame) : list Tree :=
  match frames with
  | [] => inner
  | f :: below => close [Node (fr_data f) (fr_trees f ++ inner)%list] below
  end.

(** What [parse] keeps true of its state: the node stack, above the
    virtual root, is the rightmost branch of the tree built so far; the
    store holds the virtual root and then one node for each view, in the
    order of the views; and the two stacks have one length. *)
Record Built (st : State) (frames : list Frame) : Prop := {
  built_ids : List.map fr_id frames = (nodes_stack st ++ [root_id])%list;
  built_spine : spine (store st) [] (List.length (store st)) frames;
  built_flat : flat_frames frames = List.map fst (store st);
  built_views :
    List.map fst (store st)
    = create_virtual_root :: List.map create_ui_node (views st);
  built_stacks :
    List.length (parent_stack st) = List.length (nodes_stack st)
}.

End ParseShape.

(** ** What a merge leaves of the geometry tree *)

Module MergeShape.

(** a node with the keys the merge may write blanked: what is left are its
    class, bounds, package, index and geometry keys *)
Definition erase (d : NodeData) : NodeData :=
  {| class_ := class_ d; resource_id := EmptyString; text := EmptyString;
     content_desc := EmptyString; bounds := bounds d; package := package d;
     index := index d;
     clickable := None; long_clickable := None; checkable := None;
     checked := None; selected := None; enabled := None; focusable := None;
     focused := None; scrollable := None;
     geom := geom d;
     text_source := None; info_supplemented := None; text_matched := None |}.

(** the tree with every node erased: its shape and geometry *)
Fixpoint skeleton (t : Tree) : Tree :=
  match t with
  | Node d ch => Node (erase d) (List.map skeleton ch)
  end.

(** the number of nodes of [t] that satisfy [p] *)
Fixpoint count_nodes (p : NodeData -> bool) (t : Tree) : nat :=
  match t with
  | Node d ch =>
      ((if p d then 1 else 0) + list_sum (List.map (count_nodes p) ch))%nat
  end.

(** [node['text_matched'] is b] *)
Definition flagged (b : bool) (d : NodeData) : bool :=
  bool_decide (text_matched d = Some b).

End MergeShape.

(** ** [CarScreenMirrorTool]: counting and searching the tree *)

Module Tool.

Local Open Scope string_scope.



(** [countElements] *)
Fixpoint countElements (node : Tree) : nat :=
  match node with
  | Node _ ch =>
      (fix each (l : list Tree) (count : nat) : nat :=
         match l with
         | [] => count
         | child :: rest => each rest (count + countElements child)%nat
         end) ch 1%nat
  end.





(** the number of elements of a UIAutomator document *)
Fixpoint element_count (e : UIParser.Element) : nat :=
  match e with
  | UIParser.Elem _ elems => S (list_sum (List.map element_count elems))
  end.

End Tool.

(** ** Notions used in the statements about the point query *)

Module HitSpec.

Local Open Scope Z_scope.

(** [width * height] of a node, 0 for a node without geometry keys *)
Definition area_of (n : Tree) : Z :=
  match geom (data n) with
  | Some g => width g * height g
  | None => 0
  end.

(** [e] is the first element of least area in [l] *)
Definition first_least (l : list Tree) (e : Tree) : Prop :=
  exists pre post,
    l = (pre ++ e :: post)%list
    /\ Forall (fun n => area_of e < area_of n) pre
    /\ Forall (fun n => area_of e <= area_of n) post.

End HitSpec.

(** ** [ADBHelper]: the texts it builds and reads *)

Module ADB.

Local Open Scope string_scope.

Definition quote : ascii := "034"%char.
Definition backslash : ascii := "092"%char.
Definition space : ascii := "032"%char.
Definition newline : string := String "010"%char EmptyString.

(** [s.replace(old, new)] for a one-character [old] *)
Fixpoint replace_char (old : ascii) (new : string) (s : string) : string :=
  match s with
  | EmptyString => EmptyString
  | String c s' =>
      if Ascii.eqb c old then new ++ replace_char old new s'
      else String c (replace_char old new s')
  end.

(** the text [input_text] sends: every space becomes [%s], then every
    double quote gets a backslash before it *)
Definition escape_text (text : string) : string :=
  replace_char quote (String backslash (String quote EmptyString))
    (replace_char space "%s" text).

(** [f"-s {device_id}" if device_id else ""] *)
Definition device_cmd (device_id : option string) : string :=
  match device_id with
  | Some id => if Str.nonempty id then "-s " ++ id else ""
  | None => ""
  end.

(** the command [input_text] executes *)
Definition input_text (text : string) (device_id : option string) : string :=
  "adb " ++ device_cmd device_id ++ " shell input text "
  ++ String quote (escape_text text ++ String quote EmptyString).

(** [c] does not occur in [s] *)
Definition free_of (c : ascii) (s : string) : Prop :=
  Forall (fun a => a <> c) (list_ascii_of_string s).

(** Inside double quotes a backslash takes the character after it with
    it; no double quote of [s] stands free. *)
Fixpoint quotes_escaped (s : string) : bool :=
  match s with
  | EmptyString => true
  | String c s' =>
      if Ascii.eqb c quote then false
      else if Ascii.eqb c backslash then
        match s' with
        | String _ s'' => quotes_escaped s''
        | EmptyString => true
        end
      else quotes_escaped s'
  end.

(** [[a-zA-Z0-9_.]] *)
Definition is_name_char (c : ascii) : bool :=
  Lex.is_id_char c || Ascii.eqb c "."%char.

(** [([a-zA-Z0-9_.]+)/([a-zA-Z0-9_.]+)], anchored; groups 1 and 2 *)
Definition match_component (s : string) : option (string * string) :=
  '(package_name, s) ← Lex.span1 is_name_char s;
  s ← Lex.expect "/" s;
  '(activity_name, _) ← Lex.span1 is_name_char s;
  Some (package_name, activity_name).

(** the first loop of [get_current_activity], over the lines of
    [dumpsys activity activities] *)
Fixpoint resumed_activity (lines : list string) : option string :=
  match lines with
  | [] => None
  | line :: rest =>
      if Str.contains "mResumedActivity" line
         || Str.contains "mFocusedActivity" line
      then
        match Lex.search match_component line with
        | Some (package_name, activity_name) =>
            let activity_name :=
              if String.prefix "." activity_name
              then package_name ++ activity_name else activity_name in
            Some (package_name ++ "/" ++ activity_name)
        | None => resumed_activity rest
        end
      else resumed_activity rest
  end.

(** its second loop, over the lines of [dumpsys window windows] *)
Fixpoint focused_window (lines : list string) : option string :=
  match lines with
  | [] => None
  | line :: rest =>
      if Str.contains "mCurrentFocus=" line || Str.contains "mFocusedApp=" line
      then
        match Lex.search match_component line with
        | Some (g1, g2) => Some (g1 ++ "/" ++ g2)
        | None => focused_window rest
        end
      else focused_window rest
  end.

(** [get_current_activity], given what the two commands print ([None]
    when a command fails); the second is run only when the first gave no
    activity *)
Definition get_current_activity (activities windows : option string)
    : option string :=
  let first :=
    match activities with
    | Some output =>
        if Str.nonempty output
        then resumed_activity (Str.split newline output) else None
    | None => None
    end in
  match first with
  | Some full_name => Some full_name
  | None =>
      match windows with
      | Some output =>
          if Str.nonempty output
          then focused_window (Str.split newline output) else None
      | None => None
      end
  end.

(** The activity name [_parseHybridMode] and [_parseViewHierarchyMode] look
    the view hierarchy up with: [None] when no lookup is made. *)
Definition activity_name_of (current_activity_info : option string)
    : option string :=
  match current_activity_info with
  | Some info =>
      if Str.nonempty info && Str.contains "/" info then
        let parts := Str.split "/" info in
        let activity_name :=
          if (1 <? List.length parts)%nat
          then List.nth 1 parts "" else List.nth 0 parts "" in
        let activity_name :=
          if Str.contains "." activity_name
          then Str.split_last "." activity_name else activity_name in
        Some activity_name
      else None
  | None => None
  end.

(** [s.find(sub)]: the lowest index at which [sub] occurs *)
Fixpoint find (sub s : string) : option nat :=
  if String.prefix sub s then Some 0%nat
  else match s with
       | EmptyString => None
       | String _ s' => option_map S (find sub s')
       end.

(** [s[n:]] *)
Fixpoint drop (n : nat) (s : string) : string :=
  match n, s with
  | O, _ => s
  | S n', String _ s' => drop n' s'
  | S _, EmptyString => EmptyString
  end.

(** [s[:n]] *)
Fixpoint take (n : nat) (s : string) : string :=
  match n, s with
  | O, _ => EmptyString
  | S n', String c s' => String c (take n' s')
  | S _, EmptyString => EmptyString
  end.

(** [s[a:b]] *)
Definition slice (s : string) (a b : nat) : string := take (b - a) (drop a s).

(** [s.find(sub, start)]: the lowest index not below [start] at which
    [sub] occurs *)
Definition find_from (sub s : string) (start : nat) : option nat :=
  if (start <=? String.length s)%nat
  then option_map (Nat.add start) (find sub (drop start s))
  else None.

(** The [while] loop of [get_view_hierarchy], run for at most [fuel]
    rounds.  [None]: the rounds ran out; [Some None]: the loop was left
    without a hierarchy; [Some (Some text)]: the text returned. *)
Fixpoint hierarchy_loop (fuel : nat) (output target_activity : string)
    (search_start : nat) : option (option string) :=
  match fuel with
  | O => None
  | S fuel' =>
      match find_from "View Hierarchy:" output search_start with
      | None => Some None
      | Some hierarchy_start =>
          match find_from newline output hierarchy_start with
          | None => Some None
          | Some first_newline =>
              let second_line :=
                match find_from newline output (first_newline + 1) with
                | None => drop (first_newline + 1) output
                | Some second_newline =>
                    slice output (first_newline + 1) second_newline
                end in
              if Str.contains "DecorView@" second_line
                 && Str.contains ("[" ++ target_activity ++ "]") second_line
              then
                match find_from "Looper" output (hierarchy_start + 1) with
                | None => Some (Some (drop hierarchy_start output))
                | Some hierarchy_end =>
                    Some (Some (slice output hierarchy_start hierarchy_end))
                end
              else
                hierarchy_loop fuel' output target_activity
                  (hierarchy_start + 1)
          end
      end
  end.

(** [get_view_hierarchy], given what [dumpsys activity top] prints
    ([None] when the command fails); the loop is given one round more than
    the output has characters *)
Definition get_view_hierarchy (output : option string)
    (target_activity : string) : option (option string) :=
  match output with
  | Some output =>
      if Str.nonempty output
      then hierarchy_loop (S (String.length output)) output target_activity 0
      else Some None
  | None => Some None
  end.

(** a text of name characters *)
Definition name_text (s : string) : Prop :=
  Forall (fun c => is_name_char c = true) (list_ascii_of_string s).

End ADB.

(** ** Further sample inputs *)

Module Samples5.

Local Open Scope string_scope.

(** a dump line of a text view with the id [title], indented by two *)
Definition title_line : string :=
  "  android.widget.TextView{a1 V.ED..... ........ 0,0-100,50 #7f080001 app:id/title}".

(** what [_parse_line] reads from it *)
Definition title_info : VH.LineInfo :=
  VH.mkLine "android.widget.TextView" (mkBounds 0 0 100 50) (Some "title")
    (Some "a1") true false true true.

End Samples5.


(** * Properties *)

(** Induction over trees that reaches the children. *)
Lemma Tree_ind' (P : Tree -> Prop) :
  (forall d ch, Forall P ch -> P (Node d ch)) -> forall t, P t.
Proof.
  intros step. fix IH 1. intros [d ch]. apply step.
  induction ch as [|c ch IHch]; constructor; [apply IH | exact IHch].
Qed.

(** ** The score *)

Module ScoreFacts.

Import Score ScoreSpec.
Local Open Scope Q_scope.

Lemma child_similarity_range a b : 0 <= child_similarity a b <= 1.
Proof.
  unfold child_similarity.
  destruct (a =? b)%nat; [split; discriminate|].
  destruct ((0 <? a)%nat && (0 <? b)%nat) eqn:E; [|split; discriminate].
  apply andb_prop in E as [Ha Hb].
  apply Nat.ltb_lt in Ha, Hb.
  assert (Hmax : (0 < Z.of_nat (Nat.max a b))%Z) by lia.
  assert (Hmin : (0 <= Z.of_nat (Nat.min a b) <= Z.of_nat (Nat.max a b))%Z) by lia.
  set (m := Z.of_nat (Nat.min a b)) in *.
  set (M := Z.of_nat (Nat.max a b)) in *.
  assert (HM : 0 < inject_Z M) by (unfold Qlt; simpl; lia).
  split.
  - apply Qle_shift_div_l; [exact HM|]. rewrite Qmult_0_l.
    unfold Qle; simpl; lia.
  - apply Qle_shift_div_r; [exact HM|]. rewrite Qmult_1_l.
    unfold Qle; simpl; lia.
Qed.

Lemma agreeing_flags_le vh ui : (agreeing_flags vh ui <= 4)%nat.
Proof. unfold agreeing_flags. repeat case_bool_decide; lia. Qed.

Lemma attr_score_agreeing vh ui : attr_score vh ui = agreeing_flags vh ui.
Proof.
  unfold attr_score, agreeing_flags, score_attrs, attr_agree. simpl.
  repeat case_bool_decide; reflexivity.
Qed.

Lemma child_term_spec a b s :
  child_term a b s == s + (15 # 100) * child_similarity a b.
Proof.
  unfold child_term, child_similarity.
  destruct (a =? b)%nat; [ring|].
  destruct ((0 <? a)%nat && (0 <? b)%nat); ring.
Qed.

Lemma class_term_spec vh ui s :
  class_term (Str.split_last "." (class_ (data vh)))
             (Str.split_last "." (class_ (data ui))) s
  == s + class_points vh ui.
Proof.
  unfold class_term, class_points, similar_class_names, same_class_family.
  destruct (String.eqb _ _); [ring|].
  destruct (existsb _ _); ring.
Qed.

Lemma score_is_spec_score vh ui b :
  calculate_match_score vh ui b == spec_score vh ui b.
Proof.
  unfold calculate_match_score, spec_score, attr_term.
  change (0 <? attr_count)%nat with true. cbv iota.
  rewrite attr_score_agreeing, child_term_spec, class_term_spec.
  unfold id_term, id_points, attr_count, score_attrs. simpl List.length.
  change (inject_Z (Z.of_nat 4)) with 4.
  destruct b; ring.
Qed.

Lemma class_points_range vh ui : 0 <= class_points vh ui <= 3 # 10.
Proof.
  unfold class_points.
  destruct (String.eqb _ _); [split; discriminate|].
  destruct (same_class_family _ _); split; discriminate.
Qed.

Lemma flags_fraction_range vh ui :
  0 <= inject_Z (Z.of_nat (agreeing_flags vh ui)) / 4 <= 1.
Proof.
  pose proof (agreeing_flags_le vh ui) as H.
  set (k := agreeing_flags vh ui) in *.
  split.
  - apply Qle_shift_div_l; [reflexivity|]. rewrite Qmult_0_l.
    unfold Qle; simpl; lia.
  - apply Qle_shift_div_r; [reflexivity|]. rewrite Qmult_1_l.
    unfold Qle; simpl; lia.
Qed.

(** Were nothing rounded: with every constant and operation of the code
    kept but the arithmetic exact, the score is the four-term sum of the
    specification and lies between 0 and 1. *)
Lemma exact_score_formula_and_range (vh ui : Tree) (from_id_lookup : bool) :
  calculate_match_score vh ui from_id_lookup == spec_score vh ui from_id_lookup
  /\ 0 <= calculate_match_score vh ui from_id_lookup <= 1.
Proof.
  split; [apply score_is_spec_score|].
  rewrite score_is_spec_score. unfold spec_score.
  pose proof (class_points_range vh ui) as Hc.
  pose proof (child_similarity_range (List.length (children vh))
                (List.length (children ui))) as Hs.
  pose proof (flags_fraction_range (data vh) (data ui)) as Hf.
  assert (Hi : 0 <= id_points from_id_lookup <= 4 # 10)
    by (destruct from_id_lookup; split; discriminate).
  lra.
Qed.

End ScoreFacts.

(** ** The binary64 numbers: order, and the score is never NaN *)

Module FloatFacts.

Import FloatOrder.

#[local] Set Warnings "-inexact-float".

(** [<] on the binary64 numbers is the order of their ranks. *)
Lemma SFltb_rank x y :
  SFltb x y = true <-> is_number x /\ is_number y /\ below (rank x) (rank y).
Proof.
  unfold SFltb, is_number.
  destruct x as [sx|sx| |sx mx ex], y as [sy|sy| |sy my ey];
    try destruct sx; try destruct sy; simpl;
    try (split; [discriminate|intros (? & ? & ?); try congruence; lia]);
    try (split; [intros _; repeat split; try discriminate; lia|reflexivity]).
  - change (Pos.compare_cont Eq mx my) with (Pos.compare mx my).
    destruct (Z.compare_spec ex ey), (Pos.compare_spec mx my); simpl;
      (split; [try discriminate; intros _; repeat split; try discriminate; lia
              |try reflexivity; intros (_ & _ & ?); lia]).
  - change (Pos.compare_cont Eq mx my) with (Pos.compare mx my).
    destruct (Z.compare_spec ex ey), (Pos.compare_spec mx my); simpl;
      (split; [try discriminate; intros _; repeat split; try discriminate; lia
              |try reflexivity; intros (_ & _ & ?); lia]).
Qed.






Lemma is_nan_spec (x : float) :
  PrimFloat.is_nan x = false <-> is_number (Prim2SF x).
Proof.
  unfold PrimFloat.is_nan, is_number. rewrite FloatAxioms.eqb_spec. unfold SFeqb.
  destruct (Prim2SF x) as [s|s| |s m e]; try destruct s; simpl;
    rewrite ?Z.compare_refl, ?Pos.compare_cont_refl; simpl;
    split; congruence.
Qed.

Lemma ltb_rank (x y : float) :
  PrimFloat.ltb x y = true
  <-> PrimFloat.is_nan x = false /\ PrimFloat.is_nan y = false
      /\ below (rank (Prim2SF x)) (rank (Prim2SF y)).
Proof. rewrite ltb_spec, SFltb_rank, !is_nan_spec. reflexivity. Qed.

Lemma ltb_false_rank (x y : float) :
  PrimFloat.is_nan x = false -> PrimFloat.is_nan y = false ->
  PrimFloat.ltb x y = false -> ~ below (rank (Prim2SF x)) (rank (Prim2SF y)).
Proof.
  intros Hx Hy H B. rewrite (proj2 (ltb_rank x y)) in H; [discriminate|auto].
Qed.


(** Rounding a mantissa that is not negative gives neither NaN nor a
    negative number. *)
Lemma shr_1_nonneg mrs : 0 <= shr_m mrs -> 0 <= shr_m (shr_1 mrs).
Proof. destruct mrs as [[|[p|p|]|p] r s]; simpl; lia. Qed.

Lemma iter_shr_nonneg p :
  forall mrs, 0 <= shr_m mrs -> 0 <= shr_m (SpecFloat.iter_pos shr_1 p mrs).
Proof. induction p; simpl; intros; auto using shr_1_nonneg. Qed.

Lemma shr_fexp_nonneg m e l :
  0 <= m -> 0 <= shr_m (fst (shr_fexp prec emax m e l)).
Proof.
  intros Hm. unfold shr_fexp, shr.
  assert (H0 : 0 <= shr_m (shr_record_of_loc m l))
    by (destruct l as [|[| |]]; exact Hm).
  destruct (_ - e); simpl; auto using iter_shr_nonneg.
Qed.

Lemma round_nearest_even_nonneg m l : 0 <= m -> 0 <= round_nearest_even m l.
Proof.
  intros Hm. destruct l as [|[| |]]; simpl; try destruct (Z.even m); lia.
Qed.

Lemma binary_round_aux_nonneg m e l :
  0 <= m -> nonneg (binary_round_aux prec emax false m e l).
Proof.
  intros Hm. unfold binary_round_aux.
  pose proof (shr_fexp_nonneg m e l Hm) as H1.
  destruct (shr_fexp prec emax m e l) as [mrs' e']. simpl in H1.
  pose proof (shr_fexp_nonneg _ e' loc_Exact
                (round_nearest_even_nonneg _ (loc_of_shr_record mrs') H1)) as H2.
  destruct (shr_fexp prec emax _ e' loc_Exact) as [mrs'' e'']. simpl in H2.
  destruct (shr_m mrs''); [exact I| |lia].
  destruct (e'' <=? _); reflexivity.
Qed.

Lemma binary_normalize_nonneg m e :
  0 <= m -> nonneg (binary_normalize prec emax m e false).
Proof.
  intros Hm. destruct m as [|p|p]; [exact I| |lia].
  unfold binary_normalize, binary_round.
  destruct (shl_align _ _ _). apply binary_round_aux_nonneg. lia.
Qed.

(** The operations of the score keep their results apart from NaN and from
    the negative numbers. *)
Lemma SFadd_nonneg x y : nonneg x -> nonneg y -> nonneg (SFadd prec emax x y).
Proof.
  destruct x as [sx|sx| |sx mx ex], y as [sy|sy| |sy my ey]; simpl;
    intros Hx Hy; subst; try contradiction; try reflexivity; try exact I.
  - destruct sx, sy; exact I.
  - apply binary_normalize_nonneg. unfold cond_Zopp. lia.
Qed.

Lemma SFmul_nonneg m e y :
  nonneg y -> nonneg (SFmul prec emax (S754_finite false m e) y).
Proof.
  destruct y as [sy|sy| |sy my ey]; simpl; intros Hy; subst;
    try contradiction; try reflexivity; try exact I.
  apply binary_round_aux_nonneg. lia.
Qed.

Lemma SFdiv_nonneg x m e :
  nonneg x -> nonneg (SFdiv prec emax x (S754_finite false m e)).
Proof.
  destruct x as [sx|sx| |sx mx ex]; simpl; intros Hx; subst;
    try contradiction; try reflexivity; try exact I.
  unfold SFdiv_core_binary.
  set (s := _ - _ - _).
  set (m' := match s with Z0 => _ | Z.pos _ => _ | Z.neg _ => _ end).
  assert (Hm' : 0 <= m').
  { subst m'. destruct s; try lia. apply Z.shiftl_nonneg. lia. }
  pose proof (Z_div_mod m' (Z.pos m) ltac:(lia)) as Hd.
  destruct (Z.div_eucl m' (Z.pos m)) as [q r].
  apply binary_round_aux_nonneg. nia.
Qed.

Lemma digits2_pos_lower p : 2 ^ (Z.pos (digits2_pos p) - 1) <= Z.pos p.
Proof.
  induction p as [p IH|p IH|]; simpl digits2_pos; [| |simpl; lia].
  all: rewrite Pos2Z.inj_succ;
    replace (Z.succ (Z.pos (digits2_pos p)) - 1)
      with (Z.succ (Z.pos (digits2_pos p) - 1)) by lia;
    rewrite Z.pow_succ_r by lia; lia.
Qed.

Lemma digits2_pos_iter k p :
  digits2_pos (Pos.iter xO p k) = (digits2_pos p + k)%positive.
Proof.
  induction k as [|k IH] using Pos.peano_ind.
  - simpl. lia.
  - rewrite Pos.iter_succ. simpl. rewrite IH. lia.
Qed.

Lemma binary_round_aux_exact mz ez :
  Z.pos (digits2_pos mz) = 53 -> -1074 <= ez <= 971 ->
  binary_round_aux prec emax false (Z.pos mz) ez loc_Exact
  = S754_finite false mz ez.
Proof.
  intros Hd He.
  assert (Hf : fexp prec emax (Zdigits2 (Z.pos mz) + ez) - ez = 0).
  { simpl Zdigits2. rewrite Hd. unfold fexp, SpecFloat.emin, prec, emax. lia. }
  unfold binary_round_aux, shr_fexp. rewrite Hf.
  cbn [shr shr_record_of_loc shr_m loc_of_shr_record round_nearest_even].
  rewrite Hf. cbn [shr shr_record_of_loc shr_m].
  replace (ez <=? emax - prec) with true; [reflexivity|].
  symmetry. apply Z.leb_le. unfold prec, emax. lia.
Qed.

(** a positive integer below 2^53 is a finite binary64 number *)
Lemma binary_normalize_finite p :
  Z.pos p < 2 ^ 53 ->
  exists m e,
    binary_normalize prec emax (Z.pos p) 0 false = S754_finite false m e.
Proof.
  intros Hp. unfold binary_normalize, binary_round.
  pose proof (digits2_pos_lower p) as Hlow.
  assert (Hd : Z.pos (digits2_pos p) <= 53).
  { destruct (Z_le_gt_dec (Z.pos (digits2_pos p)) 53) as [|Hgt]; [assumption|].
    assert (2 ^ 53 <= 2 ^ (Z.pos (digits2_pos p) - 1))
      by (apply Z.pow_le_mono_r; lia).
    lia. }
  assert (Hf : fexp prec emax (Z.pos (digits2_pos p) + 0)
               = Z.pos (digits2_pos p) - 53).
  { unfold fexp, SpecFloat.emin, prec, emax. lia. }
  rewrite Hf. unfold shl_align.
  destruct (Z.pos (digits2_pos p) - 53 - 0) as [|k|k] eqn:E; [|lia|].
  - exists p, 0. apply binary_round_aux_exact; lia.
  - exists (Pos.iter xO p k), (Z.pos (digits2_pos p) - 53).
    apply binary_round_aux_exact; [rewrite digits2_pos_iter|]; lia.
Qed.

Lemma ok_is_number x : ok x -> PrimFloat.is_nan x = false.
Proof.
  intros H. apply is_nan_spec. unfold ok, is_number in *.
  destruct (Prim2SF x); [discriminate|discriminate|contradiction|discriminate].
Qed.

Lemma ok_add x y : ok x -> ok y -> ok (x + y)%float.
Proof. unfold ok. rewrite add_spec. apply SFadd_nonneg. Qed.

Lemma ok_of_count n : ok (Binary64.of_count n).
Proof.
  unfold ok, Binary64.of_count. rewrite of_uint63_spec.
  apply binary_normalize_nonneg.
  apply (Uint63.to_Z_bounded (Uint63.of_Z (Z.of_nat n))).
Qed.

Lemma of_count_finite n :
  0 < Z.of_nat n < 2 ^ 53 ->
  exists m e, Prim2SF (Binary64.of_count n) = S754_finite false m e.
Proof.
  intros Hn. unfold Binary64.of_count. rewrite of_uint63_spec, Uint63.of_Z_spec.
  assert (Hw : 2 ^ 53 < Uint63.wB) by reflexivity.
  rewrite Z.mod_small by lia.
  destruct (Z.of_nat n) as [|p|p]; [lia| |lia].
  apply binary_normalize_finite. lia.
Qed.

Lemma ok_ratio k n :
  0 < Z.of_nat n < 2 ^ 53 ->
  ok (0.15 * (Binary64.of_count k / Binary64.of_count n))%float.
Proof.
  intros Hn. unfold ok. rewrite mul_spec, div_spec.
  destruct (of_count_finite n Hn) as (m & e & ->).
  change (Prim2SF 0.15%float)
    with (S754_finite false 5404319552844595 (-55)).
  apply SFmul_nonneg, SFdiv_nonneg, ok_of_count.
Qed.

(** Between nodes of fewer than 2^53 children, the binary64 score is neither
    NaN nor negative. *)
Lemma binary64_score_nonneg vh ui has_same_id :
  small_count vh -> small_count ui ->
  ok (Binary64.calculate_match_score vh ui has_same_id).
Proof.
  unfold small_count. intros Hvh Hui.
  unfold Binary64.calculate_match_score.
  assert (H0 : ok 0%float) by exact I.
  assert (H4 : ok 0.4%float) by reflexivity.
  assert (H3 : ok 0.3%float) by reflexivity.
  assert (H2 : ok 0.2%float) by reflexivity.
  assert (H15 : ok 0.15%float) by reflexivity.
  cbv zeta.
  repeat match goal with
         | |- ok (if ?b then _ else _) => destruct b eqn:?
         | |- ok (_ + _)%float => apply ok_add
         | |- ok (0.15 * _)%float => apply ok_ratio
         end; try assumption.
  all: try (unfold Score.attr_count; simpl; lia).
  all: match goal with
       | H : (_ && _)%bool = true |- _ =>
           apply andb_prop in H; destruct H as [Ha Hb];
           apply Nat.ltb_lt in Ha; apply Nat.ltb_lt in Hb
       end; lia.
Qed.

Lemma binary64_score_is_number vh ui has_same_id :
  small_count vh -> small_count ui ->
  PrimFloat.is_nan (Binary64.calculate_match_score vh ui has_same_id) = false.
Proof. intros Hvh Hui. apply ok_is_number, binary64_score_nonneg; assumption. Qed.



End FloatFacts.

(** ** The binary64 score: the sum of the specification, within 0 and 1 *)

Module FloatRange.

Import FloatOrder FloatFacts.
Local Open Scope Z_scope.

#[local] Set Warnings "-inexact-float".



(** ** Shifting to the right *)



(** ** Rounding never passes a binary64 number *)










(** ** The operations of the score *)












(** ** The score is at most 1 *)








End FloatRange.


(** ** Selection of the best match *)

Module MatchFacts.

Import Hybrid.


(** Whatever the comparison, the head of the sorted list is a candidate. *)
Lemma sort_desc_In sc (l : list (Candidate sc)) c rest :
  sort_desc sc l = c :: rest -> c ∈ l.
Proof.
  revert c rest. induction l as [|x l IH]; intros c rest; simpl; [discriminate|].
  destruct (sort_desc sc l) as [|h t] eqn:E; simpl.
  - intros [= <- _]. apply list_elem_of_here.
  - destruct (less sc (snd x) (snd h)); intros [= <- _].
    + apply list_elem_of_further. eapply IH. reflexivity.
    + apply list_elem_of_here.
Qed.



(** The exact rationals are lawful. *)
Lemma exact_laws : ScoringLaws exact_scoring exact_is_number.
Proof.
  constructor; simpl.
  - intros a. destruct (Qlt_le_dec a a) as [H|H]; [|reflexivity].
    apply Qlt_irrefl in H. contradiction.
  - intros a b c.
    destruct (Qlt_le_dec a b) as [H1|]; [|discriminate].
    destruct (Qlt_le_dec b c) as [H2|]; [|discriminate].
    destruct (Qlt_le_dec a c) as [|H3]; [reflexivity|].
    intros _ _. exfalso. apply (Qlt_irrefl a).
    eapply Qlt_le_trans; [eapply Qlt_trans; eassumption|exact H3].
  - intros a b c _.
    destruct (Qlt_le_dec a c) as [H1|]; [|discriminate]. intros _.
    destruct (Qlt_le_dec a b) as [|H2]; [auto|].
    destruct (Qlt_le_dec b c) as [|H3]; [auto|].
    exfalso. apply (Qlt_irrefl a).
    eapply Qlt_le_trans; [exact H1|]. eapply Qle_trans; eassumption.
  - intros a b _ Ha.
    destruct (Qlt_le_dec b a) as [|H]; [discriminate|]. intros _.
    apply Qle_bool_iff. apply Qle_bool_iff in Ha. eapply Qle_trans; eassumption.
Qed.

(** The proximity search appends, in pre-order, the unreserved nodes of
    positive score it visits. *)
Lemma search_in_subtree_walk sc self vh md t :
  forall path (cands : list (Candidate sc)) cd,
    search_in_subtree sc self vh path t cands md cd
    = (cands ++ walk_candidates sc self vh (preorder_upto md cd path t))%list.
Proof.
  induction t as [d ch IH] using Tree_ind'. intros path cands cd.
  simpl. destruct (md <? cd)%nat.
  { unfold walk_candidates. simpl. symmetry. apply app_nil_r. }
  assert (Hloop : forall i acc,
    (fix each (i : nat) (l : list Tree) (candidates : list (Candidate sc)) :=
       match l with
       | [] => candidates
       | ui_child :: rest =>
           each (S i) rest
             (search_in_subtree sc self vh (path ++ [i]) ui_child candidates
                md (S cd))
       end) i ch acc
    = (acc ++ walk_candidates sc self vh
         ((fix each (i : nat) (l : list Tree) : list UIRef :=
             match l with
             | [] => []
             | c :: rest =>
                 preorder_upto md (S cd) (path ++ [i]) c ++ each (S i) rest
             end) i ch))%list).
  { induction IH as [|c rest Hc _ IHrest]; intros i acc.
    - unfold walk_candidates. simpl. symmetry. apply app_nil_r.
    - rewrite IHrest, Hc. unfold walk_candidates.
      rewrite flat_map_app, app_assoc. reflexivity. }
  rewrite Hloop. unfold walk_candidates. simpl.
  destruct (is_node_available self _); [destruct (positive sc _)|];
    simpl; rewrite <- ?app_assoc; reflexivity.
Qed.

Lemma collect_candidates_split sc self vh ctx :
  collect_candidates sc self vh ctx
  = (candidates_by_id sc self vh
     ++ match ctx with
        | Some c => walk_candidates sc self vh
                      (preorder_upto 2 0 (ref_path c) (ref_node c))
        | None => []
        end)%list.
Proof.
  unfold collect_candidates. destruct ctx as [c|].
  - apply search_in_subtree_walk.
  - rewrite app_nil_r. reflexivity.
Qed.



(** Against a geometry node and attribute nodes of fewer than 2^53 children,
    every candidate score in binary64 is a number. *)
Lemma binary64_candidates_are_numbers self vh ctx :
  FloatOrder.small_count vh ->
  Forall (fun c => FloatOrder.small_count (ref_node (fst c)))
    (collect_candidates binary64_scoring self vh ctx) ->
  forallb (fun c => binary64_is_number (snd c))
    (collect_candidates binary64_scoring self vh ctx) = true.
Proof.
  intros Hvh. rewrite collect_candidates_split.
  intros F. apply Forall_app in F. destruct F as [F1 F2].
  rewrite forallb_app. apply andb_true_intro. split.
  - unfold candidates_by_id in *.
    induction (List.filter (is_node_available self) (id_refs self vh))
      as [|r l IH]; [reflexivity|].
    simpl in *. apply Forall_cons in F1. destruct F1 as [Hr F1].
    unfold binary64_is_number at 1.
    rewrite (FloatFacts.binary64_score_is_number _ _ _ Hvh Hr). simpl.
    apply IH, F1.
  - destruct ctx as [c|]; [|reflexivity].
    unfold walk_candidates in *.
    induction (preorder_upto 2 0 (ref_path c) (ref_node c)) as [|r l IH];
      [reflexivity|].
    cbn [List.flat_map] in *. apply Forall_app in F2. destruct F2 as [Hr F2].
    rewrite forallb_app. apply andb_true_intro. split; [|exact (IH F2)].
    destruct (is_node_available self r); [|reflexivity].
    destruct (positive binary64_scoring _); [|reflexivity].
    apply Forall_cons in Hr. destruct Hr as [Hr _].
    cbn [forallb snd fst] in *. unfold binary64_is_number.
    cbn [match_score binary64_scoring].
    rewrite (FloatFacts.binary64_score_is_number _ _ _ Hvh Hr). reflexivity.
Qed.



#[local] Set Warnings "-inexact-float".


(** The two ends of the score in binary64: a candidate that agrees in id,
    class, child count and all four flags scores exactly 1, and a walk
    candidate that agrees in nothing scores exactly 0, in binary64 as in the
    rationals. *)
Lemma extreme_scores_in_binary64 :
  PrimFloat.eqb
    (Binary64.calculate_match_score Samples.title_vh Samples2.twin_ui true) 1
  = true
  /\ (Score.calculate_match_score Samples.title_vh Samples2.twin_ui true == 1)%Q
  /\ PrimFloat.eqb
       (Binary64.calculate_match_score Samples.title_vh Samples2.stranger_ui
          false) 0
     = true
  /\ (Score.calculate_match_score Samples.title_vh Samples2.stranger_ui false
      == 0)%Q.
Proof. repeat split; vm_compute; reflexivity. Qed.

(** For every combination of id bonus, class relation, agreeing flags and
    child counts up to 12, the binary64 score lies in [0, 1] and passes the
    two tests of the matcher exactly when the exact score does. *)
Lemma binary64_agrees_on_grid : forallb Grid.agrees (Grid.cases 12) = true.
Proof. vm_compute. reflexivity. Qed.

(** The scores of the tie in binary64: the id candidate scores exactly 0.6,
    and of the nodes within two levels of the root only the text view at
    position 0 scores as much in a walk; all others score less. *)
Lemma tie_sample_in_binary64 :
  let vh := Samples.title_vh in
  let by_id := Binary64.calculate_match_score vh (ref_node Samples3.tie_winner) true in
  let walk r := Binary64.calculate_match_score vh (ref_node r) false in
  PrimFloat.eqb by_id 0.6%float = true
  /\ List.map (fun r => (ref_path r, PrimFloat.eqb (walk r) by_id,
                         PrimFloat.ltb (walk r) by_id))
       (preorder_upto 2 0 [] Samples.tie_ui)
     = [([], false, true); ([0%nat], true, false); ([0%nat; 0%nat], false, true);
        ([1%nat], false, true); ([1%nat; 0%nat], false, true);
        ([1%nat; 1%nat], false, true); ([1%nat; 2%nat], false, true)].
Proof. cbv zeta. repeat split; vm_compute; reflexivity. Qed.

End MatchFacts.

(** ** The merge pass *)

Module MergeFacts.

Import Hybrid Merge.

Lemma match_and_merge_unfold sc self d ch ctx :
  match_and_merge sc self (Node d ch) ctx
  = match find_best_match sc self (Node d ch) ctx with
    | (Some matched_ui, self1) =>
        let self2 :=
          count_matched self1 (Matched (class_ d) (resource_id d) matched_ui) in
        let '(ch', self3) := merge_each sc self2 ch (Some matched_ui) in
        (Node (supplement_text_info d (data (ref_node matched_ui))) ch', self3)
    | (None, self1) =>
        let self2 := count_unmatched self1 (Unmatched (class_ d) (resource_id d)) in
        let '(ch', self3) := merge_each sc self2 ch ctx in
        (Node (set_unmatched d) ch', self3)
    end.
Proof.
  assert (Heach : forall l s c,
    (fix each (self : Parser) (l : list Tree) (ctx : option UIRef)
         : list Tree * Parser :=
       match l with
       | [] => ([], self)
       | vh_child :: rest =>
           let '(vh_child', self) := match_and_merge sc self vh_child ctx in
           let '(rest', self) := each self rest ctx in
           (vh_child' :: rest', self)
       end) s l c = merge_each sc s l c).
  { induction l as [|x l IH]; intros s c; [reflexivity|].
    cbn [merge_each]. destruct (match_and_merge sc s x c) as [x' s1].
    rewrite IH. reflexivity. }
  cbn [match_and_merge].
  destruct (find_best_match sc self (Node d ch) ctx) as [[m|] self1];
    cbv zeta; rewrite Heach; reflexivity.
Qed.

(** Every candidate is unreserved. *)
Lemma candidates_available sc self vh ctx (c : Candidate sc) :
  c ∈ collect_candidates sc self vh ctx -> ref_path (fst c) ∉ used self.
Proof.
  rewrite MatchFacts.collect_candidates_split, elem_of_app.
  assert (Havail : forall r, is_node_available self r = true -> ref_path r ∉ used self).
  { intros r. unfold is_node_available. case_bool_decide; [discriminate|auto]. }
  intros [H|H].
  - unfold candidates_by_id in H.
    apply list_elem_of_In, in_map_iff in H as (r & <- & Hr).
    apply filter_In in Hr as [_ Hr]. simpl. apply Havail, Hr.
  - destruct ctx as [cx|]; [|apply elem_of_nil in H; contradiction].
    unfold walk_candidates in H.
    apply list_elem_of_In, in_flat_map in H as (r & _ & Hr).
    destruct (is_node_available self r) eqn:Ea; [|destruct Hr].
    destruct (positive sc _); [|destruct Hr].
    destruct Hr as [<-|[]]. simpl. apply Havail, Ea.
Qed.

Lemma find_best_match_some sc self vh ctx r self' :
  find_best_match sc self vh ctx = (Some r, self') ->
  self' = mark_node_used self r
  /\ (ref_path r ∉ used self)
  /\ exists s, (r, s) ∈ collect_candidates sc self vh ctx.
Proof.
  unfold find_best_match.
  destruct (sort_desc sc _) as [|[best score] rest] eqn:E; [discriminate|].
  destruct (accepted sc score); [|discriminate].
  intros [= <- <-]. apply MatchFacts.sort_desc_In in E.
  split; [reflexivity|]. split; [|eauto].
  apply (candidates_available _ _ _ _ _ E).
Qed.

Lemma find_best_match_none sc self vh ctx self' :
  find_best_match sc self vh ctx = (None, self') -> self' = self.
Proof.
  unfold find_best_match.
  destruct (sort_desc sc _) as [|[best score] rest]; [congruence|].
  destruct (accepted sc score); congruence.
Qed.

Lemma matched_paths_app e1 e2 :
  matched_paths (e1 ++ e2) = matched_paths e1 ++ matched_paths e2.
Proof. unfold matched_paths. apply flat_map_app. Qed.

Lemma Pass_refl self : Pass self self [] 0.
Proof.
  constructor; simpl; try reflexivity; try lia.
  - rewrite app_nil_r. reflexivity.
  - constructor.
  - intros p Hp. apply elem_of_nil in Hp. contradiction.
  - intros p. split; [auto|]. intros [H|H]; [exact H|].
    apply elem_of_nil in H. contradiction.
Qed.

Lemma Pass_trans a b c e1 e2 n1 n2 :
  Pass a b e1 n1 -> Pass b c e2 n2 -> Pass a c (e1 ++ e2) (n1 + n2).
Proof.
  intros [P1 L1 M1 T1 N1 F1 U1 I1] [P2 L2 M2 T2 N2 F2 U2 I2].
  constructor.
  - rewrite P2, P1, app_assoc. reflexivity.
  - rewrite length_app. lia.
  - rewrite matched_paths_app, length_app. lia.
  - lia.
  - rewrite matched_paths_app. apply NoDup_app. split; [exact N1|]. split; [|exact N2].
    intros p Hp1 Hp2. apply (F2 p Hp2). apply U1. right. exact Hp1.
  - intros p. rewrite matched_paths_app, elem_of_app. intros [Hp|Hp].
    + apply F1, Hp.
    + intros Hu. apply (F2 p Hp). apply U1. left. exact Hu.
  - intros p. rewrite matched_paths_app, elem_of_app, U2, U1. tauto.
  - congruence.
Qed.

Lemma Pass_matched self r c i :
  ref_path r ∉ used self ->
  Pass self (count_matched (mark_node_used self r) (Matched c i r))
       [Matched c i r] 1.
Proof.
  intros Hfree. constructor; simpl; try reflexivity; try lia.
  - apply NoDup_singleton.
  - intros p Hp. apply list_elem_of_singleton in Hp. subst p. exact Hfree.
  - intros p. rewrite elem_of_union, elem_of_singleton, list_elem_of_singleton. tauto.
Qed.

Lemma Pass_unmatched self c i :
  Pass self (count_unmatched self (Unmatched c i)) [Unmatched c i] 1.
Proof.
  constructor; simpl; try reflexivity; try lia.
  - constructor.
  - intros p Hp. apply elem_of_nil in Hp. contradiction.
  - intros p. split; [auto|]. intros [H|H]; [exact H|].
    apply elem_of_nil in H. contradiction.
Qed.

Lemma merge_each_pass sc l ctx :
  Forall (fun vh => forall self ctx,
            exists evs, Pass self (snd (match_and_merge sc self vh ctx)) evs (tree_size vh)
                        /\ tree_size (fst (match_and_merge sc self vh ctx)) = tree_size vh) l ->
  forall self,
    exists evs,
      Pass self (snd (merge_each sc self l ctx)) evs (list_sum (List.map tree_size l))
      /\ List.map tree_size (fst (merge_each sc self l ctx)) = List.map tree_size l.
Proof.
  induction 1 as [|vh rest Hvh _ IH]; intros self.
  - exists []. split; [apply Pass_refl|reflexivity].
  - cbn [merge_each].
    destruct (Hvh self ctx) as (e1 & P1 & S1).
    destruct (match_and_merge sc self vh ctx) as [vh' self1]. simpl in P1, S1.
    destruct (IH self1) as (e2 & P2 & S2).
    destruct (merge_each sc self1 rest ctx) as [rest' self2]. simpl in P2, S2.
    exists (e1 ++ e2). split.
    + simpl. eapply Pass_trans; eassumption.
    + simpl. rewrite S1, S2. reflexivity.
Qed.

(** One call of [_match_and_merge] prints one line per node of the geometry
    subtree, counts each node once, and keeps the shape of the subtree. *)
Lemma match_and_merge_pass sc vh :
  forall self ctx,
    exists evs,
      Pass self (snd (match_and_merge sc self vh ctx)) evs (tree_size vh)
      /\ tree_size (fst (match_and_merge sc self vh ctx)) = tree_size vh.
Proof.
  induction vh as [d ch IH] using Tree_ind'. intros self ctx.
  rewrite match_and_merge_unfold.
  destruct (find_best_match sc self (Node d ch) ctx) as [[m|] self1] eqn:E.
  - apply find_best_match_some in E as (-> & Hfree & _).
    cbv zeta.
    destruct (merge_each_pass sc ch (Some m) IH
                (count_matched (mark_node_used self m)
                   (Matched (class_ d) (resource_id d) m))) as (e2 & P2 & S2).
    destruct (merge_each sc _ ch (Some m)) as [ch' self3]. simpl in P2, S2.
    exists ([Matched (class_ d) (resource_id d) m] ++ e2). split.
    + simpl snd. change (tree_size (Node d ch))
        with (1 + list_sum (List.map tree_size ch))%nat.
      eapply Pass_trans; [apply Pass_matched, Hfree|exact P2].
    + simpl. rewrite S2. reflexivity.
  - apply find_best_match_none in E as ->.
    cbv zeta.
    destruct (merge_each_pass sc ch ctx IH
                (count_unmatched self (Unmatched (class_ d) (resource_id d))))
      as (e2 & P2 & S2).
    destruct (merge_each sc _ ch ctx) as [ch' self3]. simpl in P2, S2.
    exists ([Unmatched (class_ d) (resource_id d)] ++ e2). split.
    + simpl snd. change (tree_size (Node d ch))
        with (1 + list_sum (List.map tree_size ch))%nat.
      eapply Pass_trans; [apply Pass_unmatched|exact P2].
    + simpl. rewrite S2. reflexivity.
Qed.

End MergeFacts.

Module MergeProps.

Import Hybrid Merge MergeFacts.

Lemma merge_trees_with_trees sc self vh ui :
  merge_trees sc (with_trees self vh ui)
  = let ui_content :=
      match find_content_node [] ui with
      | Some r => r
      | None => mkRef [] ui
      end in
    let self1 :=
      set_index (with_trees self vh ui)
        (build_ui_index (ref_path ui_content) (ref_node ui_content)
           (ui_node_map self)) in
    let r := match_and_merge sc self1 (anchored vh) (Some ui_content) in
    (Some (fst r), snd r).
Proof.
  unfold merge_trees, anchored. simpl.
  destruct (match_and_merge sc _ _ _). reflexivity.
Qed.

(** C1 (amended). A merge pass over two present trees returns the anchored
    geometry tree with its shape kept and raises matched + unmatched by the
    number of its nodes, whatever the counters were before; from the zero
    counters of a new parser matched + unmatched is that number, and the
    total of the statistics with it; the statistics report the two
    counters, their sum as total, and matched / total * 100 as the rate, or
    the zero rate when the total is 0. *)
Theorem merge_counts_every_node :
  (forall (sc : Scoring) (self : Parser) (vh ui : Tree),
     exists merged self',
       merge_trees sc (with_trees self vh ui) = (Some merged, self')
       /\ tree_size merged = tree_size (anchored vh)
       /\ (matched_count self' + unmatched_count self'
           = matched_count self + unmatched_count self
             + tree_size (anchored vh))%nat)
  /\ (forall (sc : Scoring) (vh ui : Tree),
        let self' := snd (merge_trees sc (with_trees Hybrid.init vh ui)) in
        (matched_count self' + unmatched_count self'
         = tree_size (anchored vh))%nat
        /\ stat_total (get_statistics self') = tree_size (anchored vh)
        /\ stat_match_rate (get_statistics self')
           = RatePercent (matched_count self') (tree_size (anchored vh))
        /\ (rate_value (stat_match_rate (get_statistics self'))
            == inject_Z (Z.of_nat (matched_count self'))
               / inject_Z (Z.of_nat (tree_size (anchored vh))) * 100)%Q)
  /\ (forall self : Parser,
        let st := get_statistics self in
        stat_matched st = matched_count self
        /\ stat_unmatched st = unmatched_count self
        /\ stat_total st = (stat_matched st + stat_unmatched st)%nat
        /\ stat_match_rate st
           = if (stat_total st =? 0)%nat then RateZero
             else RatePercent (stat_matched st) (stat_total st)).
Proof.
  assert (Hgen : forall (sc : Scoring) (self : Parser) (vh ui : Tree),
     exists merged self',
       merge_trees sc (with_trees self vh ui) = (Some merged, self')
       /\ tree_size merged = tree_size (anchored vh)
       /\ (matched_count self' + unmatched_count self'
           = matched_count self + unmatched_count self
             + tree_size (anchored vh))%nat).
  { intros sc self vh ui. rewrite merge_trees_with_trees. cbv zeta.
    set (ctx := match find_content_node [] ui with Some r => r | None => _ end).
    set (self1 := set_index _ _).
    destruct (match_and_merge_pass sc (anchored vh) self1 (Some ctx)) as (evs & P & S).
    eexists _, _. split; [reflexivity|]. split; [exact S|].
    apply pass_total in P. exact P. }
  assert (Hstat : forall self : Parser,
        let st := get_statistics self in
        stat_matched st = matched_count self
        /\ stat_unmatched st = unmatched_count self
        /\ stat_total st = (stat_matched st + stat_unmatched st)%nat
        /\ stat_match_rate st
           = if (stat_total st =? 0)%nat then RateZero
             else RatePercent (stat_matched st) (stat_total st)).
  { intros self. unfold get_statistics. simpl.
    repeat split.
    destruct (matched_count self + unmatched_count self)%nat; reflexivity. }
  split; [exact Hgen|]. split; [|exact Hstat].
  intros sc vh ui self'.
  destruct (Hgen sc Hybrid.init vh ui) as (merged & s' & E & _ & Hsum).
  subst self'. rewrite E. simpl snd. simpl in Hsum.
  split; [exact Hsum|].
  destruct (Hstat s') as (Hm & Hu & Ht & Hr). cbv zeta in *.
  assert (Htot : stat_total (get_statistics s') = tree_size (anchored vh)).
  { rewrite Ht, Hm, Hu. exact Hsum. }
  split; [exact Htot|].
  assert (Hrate : stat_match_rate (get_statistics s')
                  = RatePercent (matched_count s') (tree_size (anchored vh))).
  { rewrite Hr, Htot, Hm. destruct (anchored vh) as [d ch]. reflexivity. }
  split; [exact Hrate|]. rewrite Hrate. reflexivity.
Qed.

(** C1, as stated for every pass, fails: the counters are set to zero only
    when the parser is made.  The title tree has two nodes; after a first
    pass against the greeting document the counters add up to 2, and after
    a second pass by the same parser to 4, while the tree still has two
    nodes. *)
Lemma second_pass_counts_twice : ~ conservation_every_pass.
Proof.
  intros H.
  assert (E : exists merged self',
    merge_trees binary64_scoring
      (with_trees Hybrid.init Samples.title_vh Samples2.hello_ui)
    = (Some merged, self')
    /\ find_content_node [] Samples.title_vh = None
    /\ (matched_count self' + unmatched_count self')%nat = 2%nat
    /\ tree_size (anchored merged) = 2%nat
    /\ (let self'' :=
          snd (merge_trees binary64_scoring
                 (with_trees self' merged Samples2.hello_ui)) in
        (matched_count self'' + unmatched_count self'')%nat = 4%nat)).
  { eexists _, _. split; [vm_compute; reflexivity|].
    repeat split; vm_compute; reflexivity. }
  destruct E as (merged & self' & E1 & E0 & _ & E2 & E3).
  specialize (H binary64_scoring _ _ _ _ E0 E1). cbv zeta in H, E3.
  rewrite E3, E2 in H. discriminate H.
Qed.

(** C4. The matcher reserves the winner at the moment it selects it and
    changes nothing otherwise; no reserved node is in a candidate list; and
    the attribute nodes matched during a merge pass are pairwise distinct,
    were all unreserved when the pass began and are all reserved after it. *)
Theorem reservation_is_exclusive :
  (forall (sc : Scoring) (self : Parser) (vh : Tree) (ctx : option UIRef),
     match find_best_match sc self vh ctx with
     | (Some winner, self') =>
         (ref_path winner ∉ used self)
         /\ used self' = {[ref_path winner]} ∪ used self
     | (None, self') => self' = self
     end)
  /\ (forall (sc : Scoring) (self : Parser) (vh : Tree) (ctx : option UIRef),
        Forall (fun c => ref_path (fst c) ∉ used self)
               (collect_candidates sc self vh ctx))
  /\ (forall (sc : Scoring) (self : Parser) (vh : Tree) (ctx : option UIRef),
        let self' := snd (match_and_merge sc self vh ctx) in
        exists events,
          printed self' = printed self ++ events
          /\ NoDup (matched_paths events)
          /\ Forall (fun p => (p ∉ used self) /\ p ∈ used self')
                    (matched_paths events))
  /\ (forall (sc : Scoring) (self : Parser) (vh ui : Tree),
        let self' := snd (merge_trees sc (with_trees self vh ui)) in
        exists events,
          printed self' = printed self ++ events
          /\ NoDup (matched_paths events)
          /\ Forall (fun p => (p ∉ used self) /\ p ∈ used self')
                    (matched_paths events)).
Proof.
  assert (Hpass : forall a b evs n, Pass a b evs n ->
            printed b = printed a ++ evs
            /\ NoDup (matched_paths evs)
            /\ Forall (fun p => (p ∉ used a) /\ p ∈ used b) (matched_paths evs)).
  { intros a b evs n P. split; [apply P|]. split; [apply P|].
    apply Forall_forall. intros p Hp. split; [apply (pass_fresh _ _ _ _ P), Hp|].
    apply (pass_used _ _ _ _ P). right. exact Hp. }
  repeat split.
  - intros sc self vh ctx.
    destruct (find_best_match sc self vh ctx) as [[w|] self'] eqn:E.
    + apply find_best_match_some in E as (-> & Hfree & _). split; [exact Hfree|].
      reflexivity.
    + apply find_best_match_none in E. exact E.
  - intros sc self vh ctx. apply Forall_forall. intros c Hc.
    eapply candidates_available, Hc.
  - intros sc self vh ctx self'. subst self'.
    destruct (match_and_merge_pass sc vh self ctx) as (evs & P & _).
    exists evs. eapply Hpass, P.
  - intros sc self vh ui self'. subst self'.
    rewrite merge_trees_with_trees. cbv zeta. simpl snd.
    set (ctx := match find_content_node [] ui with Some r => r | None => _ end).
    set (self1 := set_index _ _).
    destruct (match_and_merge_pass sc (anchored vh) self1 (Some ctx)) as (evs & P & _).
    exists evs. apply (Hpass _ _ _ _ P).
Qed.

End MergeProps.

(** ** The point query *)

Module HitTestFacts.

Import UIParser.

Lemma preorder_nodes_shift t : forall p q,
  List.map ref_node (preorder p t) = List.map ref_node (preorder q t).
Proof.
  induction t as [d ch IH] using Tree_ind'. intros p q. cbn [preorder List.map].
  f_equal.
  assert (H : forall i j,
    List.map ref_node
      ((fix each (i : nat) (l : list Tree) : list UIRef :=
          match l with
          | [] => []
          | c :: rest => preorder (p ++ [i]) c ++ each (S i) rest
          end) i ch)
    = List.map ref_node
      ((fix each (i : nat) (l : list Tree) : list UIRef :=
          match l with
          | [] => []
          | c :: rest => preorder (q ++ [i]) c ++ each (S i) rest
          end) j ch)).
  { induction IH as [|c rest Hc _ IHrest]; intros i j; [reflexivity|].
    rewrite !List.map_app. rewrite (Hc (p ++ [i]) (q ++ [j])), (IHrest (S i) (S j)).
    reflexivity. }
  apply H.
Qed.

Lemma tree_nodes_Node d ch :
  tree_nodes (Node d ch) = Node d ch :: List.flat_map tree_nodes ch.
Proof.
  unfold tree_nodes. cbn [preorder List.map]. f_equal.
  generalize 0%nat as i. induction ch as [|c rest IH]; intros i; [reflexivity|].
  rewrite List.map_app, IH. simpl. f_equal. apply preorder_nodes_shift.
Qed.

(** The collected elements are the nodes that contain the point, in
    pre-order. *)
Lemma find_elements_filter x y t : forall acc,
  find_elements_at_point t x y acc
  = acc ++ List.filter (node_contains x y) (tree_nodes t).
Proof.
  induction t as [d ch IH] using Tree_ind'. intros acc.
  rewrite tree_nodes_Node. cbn [find_elements_at_point List.filter].
  assert (Hloop : forall acc,
    (fix each (l : list Tree) (elements : list Tree) : list Tree :=
       match l with
       | [] => elements
       | child :: rest => each rest (find_elements_at_point child x y elements)
       end) ch acc
    = acc ++ List.filter (node_contains x y) (List.flat_map tree_nodes ch)).
  { clear acc. induction IH as [|c rest Hc _ IHrest]; intros acc.
    - simpl. rewrite app_nil_r. reflexivity.
    - rewrite IHrest, Hc. simpl. rewrite List.filter_app, app_assoc. reflexivity. }
  rewrite Hloop. unfold node_contains at 2. simpl.
  destruct (geom d) as [g|]; [destruct (contains_point g x y)|];
    rewrite <- ?app_assoc; reflexivity.
Qed.

Lemma min_by_area_least rest : forall best,
  Forall (fun e => is_Some (geom (data e))) (best :: rest) ->
  min_by_area best rest ∈ best :: rest
  /\ Forall (area_le (min_by_area best rest)) (best :: rest).
Proof.
  induction rest as [|e rest IH]; intros best Hg.
  - simpl. split; [apply list_elem_of_here|].
    constructor; [|constructor]. unfold area_le.
    apply Forall_inv in Hg as [g ->]. lia.
  - pose proof (Forall_inv Hg) as [gb Hb].
    pose proof (Forall_inv (Forall_inv_tail Hg)) as [ge He].
    cbn [min_by_area].
    assert (Hk : key_lt (area e) (area best)
                 = (width ge * height ge <? width gb * height gb)).
    { unfold area. rewrite Hb, He. reflexivity. }
    rewrite Hk. clear Hk.
    destruct (Z.ltb_spec (width ge * height ge) (width gb * height gb)) as [Hlt|Hge].
    + destruct (IH e (Forall_inv_tail Hg)) as [Hin Hall]. split.
      * apply list_elem_of_further, Hin.
      * constructor; [|exact Hall].
        apply Forall_inv in Hall. unfold area_le in *.
        destruct (geom (data (min_by_area e rest))) as [gm|]; [|contradiction].
        rewrite He in Hall. rewrite Hb. lia.
    + assert (Hg' : Forall (fun e => is_Some (geom (data e))) (best :: rest)).
      { constructor; [eauto|]. exact (Forall_inv_tail (Forall_inv_tail Hg)). }
      destruct (IH best Hg') as [Hin Hall]. split.
      * apply elem_of_cons in Hin as [->|Hin];
          [apply list_elem_of_here|do 2 apply list_elem_of_further; exact Hin].
      * pose proof (Forall_inv Hall) as Hbest.
        constructor; [exact Hbest|]. constructor; [|exact (Forall_inv_tail Hall)].
        unfold area_le in *.
        destruct (geom (data (min_by_area best rest))) as [gm|]; [|contradiction].
        rewrite Hb in Hbest. rewrite He. lia.
Qed.

Lemma contains_point_spec g x y :
  contains_point g x y = true
  <-> (x1 g <= x <= x2 g /\ y1 g <= y <= y2 g).
Proof.
  unfold contains_point. rewrite !andb_true_iff, !Z.leb_le. tauto.
Qed.

(** C8. The point query returns nothing exactly when no node with known
    bounds contains the point, that is, has x1 <= x <= x2 and
    y1 <= y <= y2; otherwise it returns a node of the tree that has bounds
    with x1 <= x <= x2 and y1 <= y <= y2 and whose area width * height is
    least among the nodes whose bounds contain the point.  A node without
    geometry is never returned. *)
Theorem point_query_smallest_containing (ui_data : option Tree) (x y : Z) :
  match find_element_at_point ui_data x y with
  | None =>
      forall n g,
        n ∈ all_nodes ui_data -> geom (data n) = Some g ->
        ~ (x1 g <= x <= x2 g /\ y1 g <= y <= y2 g)
  | Some e =>
      e ∈ all_nodes ui_data
      /\ exists g,
           geom (data e) = Some g
           /\ (x1 g <= x <= x2 g /\ y1 g <= y <= y2 g)
           /\ forall n g',
                n ∈ all_nodes ui_data -> geom (data n) = Some g' ->
                x1 g' <= x <= x2 g' -> y1 g' <= y <= y2 g' ->
                width g * height g <= width g' * height g'
  end.
Proof.
  destruct ui_data as [root|].
  2:{ intros n g Hn. apply elem_of_nil in Hn. contradiction. }
  unfold find_element_at_point, all_nodes.
  rewrite find_elements_filter. simpl app.
  destruct (List.filter (node_contains x y) (tree_nodes root)) as [|e rest] eqn:E.
  - intros n g Hn Hg Hc. apply contains_point_spec in Hc.
    assert (Hin : In n (List.filter (node_contains x y) (tree_nodes root))).
    { apply filter_In. split; [apply list_elem_of_In, Hn|].
      unfold node_contains. rewrite Hg. exact Hc. }
    rewrite E in Hin. destruct Hin.
  - assert (Hall : forall n, n ∈ e :: rest ->
                     n ∈ tree_nodes root /\ node_contains x y n = true).
    { intros n Hn. rewrite <- E in Hn.
      apply list_elem_of_In, filter_In in Hn as [H1 H2].
      split; [apply list_elem_of_In, H1|exact H2]. }
    assert (Hgeom : Forall (fun e => is_Some (geom (data e))) (e :: rest)).
    { apply Forall_forall. intros n Hn. apply Hall in Hn as [_ Hn].
      unfold node_contains in Hn. destruct (geom (data n)); [eauto|discriminate]. }
    destruct (min_by_area_least rest e Hgeom) as [Hin Hleast].
    set (m := min_by_area e rest) in *.
    destruct (Hall m Hin) as [Hm Hcm]. split; [exact Hm|].
    unfold node_contains in Hcm.
    destruct (geom (data m)) as [g|] eqn:Eg; [|discriminate].
    exists g. split; [reflexivity|]. split; [apply contains_point_spec, Hcm|].
    intros n g' Hn Eg' Hx Hy.
    assert (Hn' : n ∈ e :: rest).
    { rewrite <- E. apply list_elem_of_In, filter_In.
      split; [apply list_elem_of_In, Hn|]. unfold node_contains. rewrite Eg'.
      apply contains_point_spec. split; assumption. }
    rewrite Forall_forall in Hleast. specialize (Hleast n Hn').
    unfold area_le in Hleast. rewrite Eg, Eg' in Hleast. exact Hleast.
Qed.

End HitTestFacts.

(** ** Supplementing a matched node *)

Module SupplementFacts.

Import Hybrid Merge MergeFacts.
Local Open Scope string_scope.

Lemma supplement_resource_id vh ui :
  resource_id (supplement_text_info vh ui)
  = if Str.nonempty (resource_id vh) then resource_id vh else resource_id ui.
Proof.
  unfold supplement_text_info.
  destruct (Str.nonempty (content_desc ui)), (Str.nonempty (text ui)); simpl;
    destruct (resource_id ui), (resource_id vh); reflexivity.
Qed.

Lemma supplement_content_desc vh ui :
  (content_desc (supplement_text_info vh ui),
   text_source (supplement_text_info vh ui))
  = if Str.nonempty (content_desc ui) then (content_desc ui, Some "content-desc")
    else if Str.nonempty (text ui) then (text ui, Some "text")
    else (content_desc vh, text_source vh).
Proof.
  unfold supplement_text_info.
  destruct (Str.nonempty (content_desc ui)), (Str.nonempty (text ui)); reflexivity.
Qed.

Lemma supplement_marks vh ui :
  text (supplement_text_info vh ui) = text ui
  /\ text_matched (supplement_text_info vh ui) = Some true
  /\ info_supplemented (supplement_text_info vh ui) = Some true.
Proof.
  unfold supplement_text_info.
  destruct (Str.nonempty (content_desc ui)), (Str.nonempty (text ui));
    repeat split.
Qed.

(** C5 (amended). A geometry node the matcher pairs with an attribute node
    gets: the attribute node's content description, with source
    [content-desc], when that is non-empty; else its text as content
    description, with source [text], when the text is non-empty; else its
    own content description and source unchanged; the attribute node's text
    always; the attribute node's resource id only when its own id is empty.
    An unmatched node is only marked unmatched.  A title matched with an
    attribute node of text [Hello] and no content description ends with text
    [Hello] and source [text]. *)
Theorem matched_node_is_supplemented :
  (forall (sc : Scoring) (self : Parser) (d : NodeData) (ch : list Tree)
          (ctx : option UIRef),
     let result := data (fst (match_and_merge sc self (Node d ch) ctx)) in
     match fst (find_best_match sc self (Node d ch) ctx) with
     | Some matched_ui =>
         let ui := data (ref_node matched_ui) in
         result = supplement_text_info d ui
         /\ (content_desc result, text_source result)
            = (if Str.nonempty (content_desc ui)
               then (content_desc ui, Some "content-desc")
               else if Str.nonempty (text ui) then (text ui, Some "text")
               else (content_desc d, text_source d))
         /\ text result = text ui
         /\ resource_id result
            = (if Str.nonempty (resource_id d) then resource_id d
               else resource_id ui)
         /\ text_matched result = Some true
         /\ info_supplemented result = Some true
     | None => result = set_unmatched d
     end)
  /\ option_map
       (fun t => (text (data t), content_desc (data t), text_source (data t),
                  text_matched (data t)))
       (fst (merge_trees binary64_scoring
               (with_trees Hybrid.init Samples.title_vh Samples2.hello_ui)))
     = Some ("Hello", "Hello", Some "text", Some true).
Proof.
  split; [|vm_compute; reflexivity].
  intros sc self d ch ctx result. subst result.
  rewrite match_and_merge_unfold.
  destruct (find_best_match sc self (Node d ch) ctx) as [[m|] self1]; cbv zeta.
  - destruct (merge_each sc _ ch (Some m)) as [ch' self3]. simpl.
    split; [reflexivity|].
    split; [apply supplement_content_desc|].
    split; [apply supplement_marks|].
    split; [apply supplement_resource_id|].
    split; apply supplement_marks.
  - destruct (merge_each sc _ ch ctx) as [ch' self3]. reflexivity.
Qed.

(** C5, as stated, fails on the source record.  The title is merged with
    an attribute tree whose only node has the same id and class and neither
    text nor content description: the merged node is marked as matched, yet
    no source is recorded for it. *)
Lemma no_text_source_without_text :
  exists merged,
    fst (merge_trees binary64_scoring
           (with_trees Hybrid.init Samples.title_vh Samples2.silent_ui))
    = Some merged
    /\ text_matched (data merged) = Some true
    /\ text_source (data merged) = None
    /\ ~ supplement_two_way (data Samples.title_vh)
           (data Samples2.silent_ui) (data merged).
Proof.
  assert (E : exists merged,
    fst (merge_trees binary64_scoring
           (with_trees Hybrid.init Samples.title_vh Samples2.silent_ui))
    = Some merged
    /\ text_matched (data merged) = Some true
    /\ text_source (data merged) = None).
  { vm_compute. eexists. repeat split. }
  destruct E as (merged & E & Hm & Hsrc).
  exists merged. repeat split; try assumption.
  intros [H _]. rewrite Hsrc in H.
  change (Str.nonempty (content_desc (data Samples2.silent_ui))) with false in H.
  destruct H as [_ H]. discriminate H.
Qed.

End SupplementFacts.

(** ** The geometry parser *)

Module VHFacts.

Import VH VHSpec.
Local Open Scope Z_scope.

Lemma span1_nonempty p s a b : Lex.span1 p s = Some (a, b) -> Str.nonempty a = true.
Proof.
  unfold Lex.span1. destruct (Lex.span p s) as [a' b'].
  destruct (Str.nonempty a') eqn:E; [|discriminate]. intros [= <- _]. exact E.
Qed.

Lemma search_some {A} (m : string -> option A) s r :
  Lex.search m s = Some r -> exists s', m s' = Some r.
Proof.
  induction s as [|c s IH]; simpl.
  - destruct (m EmptyString) eqn:E; [|discriminate]. intros [= <-]. eauto.
  - destruct (m (String c s)) eqn:E; [intros [= <-]; eauto|]. exact IH.
Qed.

Lemma match_id_nonempty s name : match_id s = Some name -> Str.nonempty name = true.
Proof.
  unfold match_id. intros H.
  repeat match type of H with
         | (?m ≫= _) = Some _ =>
             let E := fresh "E" in
             destruct m as [[? ?]|] eqn:E; simpl in H; [|discriminate]
         | (?m ≫= _) = Some _ =>
             let E := fresh "E" in
             destruct m as [?|] eqn:E; simpl in H; [|discriminate]
         end.
  injection H as <-. eapply span1_nonempty; eassumption.
Qed.


Lemma parse_line_id line li rid :
  parse_line line = Some li -> li_resource_id li = Some rid ->
  Str.nonempty rid = true.
Proof.
  unfold parse_line. destruct (Lex.span1 Lex.is_class_char line) as [[cls rest]|];
    [|discriminate].
  destruct (Lex.search match_bounds line); [|discriminate].
  intros [= <-]. simpl. intros H.
  apply search_some in H as [s' H]. eapply match_id_nonempty, H.
Qed.




Lemma set_skip_set_skip st a b : set_skip (set_skip st a) b = set_skip st b.
Proof. reflexivity. Qed.

Lemma set_skip_same st : set_skip st (skip_children_until_indent st) = st.
Proof. destruct st; reflexivity. Qed.




End VHFacts.

Module VHTreeFacts.

Import VH VHSpec VHInv VHFacts.
Local Open Scope Z_scope.

Lemma int_of_digits_nonneg s : 0 <= Lex.int_of_digits s.
Proof.
  unfold Lex.int_of_digits.
  assert (H : forall acc, 0 <= acc ->
    0 <= (fix go (s : string) (acc : Z) : Z :=
            match s with
            | EmptyString => acc
            | String c s' => go s' (10 * acc + Lex.digit_value c)
            end) s acc).
  { induction s as [|c s IH]; intros acc Hacc; [exact Hacc|].
    apply IH. unfold Lex.digit_value. lia. }
  apply H. lia.
Qed.

Lemma match_bounds_natural s b : match_bounds s = Some b -> natural_bounds b.
Proof.
  unfold match_bounds. intros H.
  repeat match type of H with
         | (?m ≫= _) = Some _ =>
             let E := fresh "E" in
             destruct m as [[? ?]|] eqn:E; simpl in H; [|discriminate]
         | (?m ≫= _) = Some _ =>
             let E := fresh "E" in
             destruct m as [?|] eqn:E; simpl in H; [|discriminate]
         end.
  injection H as <-. unfold natural_bounds. simpl.
  auto using int_of_digits_nonneg.
Qed.

Lemma parse_line_natural line li :
  parse_line line = Some li -> natural_bounds (li_bounds li).
Proof.
  unfold parse_line. destruct (Lex.span1 Lex.is_class_char line) as [[cls rest]|];
    [|discriminate].
  destruct (Lex.search match_bounds line) as [b|] eqn:E; [|discriminate].
  intros [= <-]. simpl. apply search_some in E as [s' E].
  eapply match_bounds_natural, E.
Qed.

Lemma WF_init : WF init.
Proof.
  constructor; simpl.
  - constructor.
  - exists []. reflexivity.
  - intros p d ch c H Hc. destruct p; simpl in H; [|discriminate].
    injection H as <- <-. apply elem_of_nil in Hc. contradiction.
Qed.

Lemma WF_set_skip st k : WF st -> WF (set_skip st k).
Proof. intros [A B C]. constructor; assumption. Qed.

Lemma pop_stacks_Forall2 {R : ViewInfo -> nat -> Prop} indent ps ns :
  Forall2 R ps ns ->
  Forall2 R (fst (pop_stacks indent ps ns)) (snd (pop_stacks indent ps ns)).
Proof.
  induction 1 as [|p n ps ns Hpn Hrest IH]; simpl; [constructor|].
  destruct (indent <=? vi_indent p); [exact IH|].
  simpl. constructor; assumption.
Qed.

Lemma WF_set_stacks st indent :
  WF st ->
  WF (set_stacks st (fst (pop_stacks indent (parent_stack st) (nodes_stack st)))
                    (snd (pop_stacks indent (parent_stack st) (nodes_stack st)))).
Proof.
  intros [A B C]. constructor; simpl; [|assumption|assumption].
  apply pop_stacks_Forall2, A.
Qed.

Lemma push_lookup_old st pid dn j d ch :
  store st !! j = Some (d, ch) ->
  exists ch', push_store st pid dn !! j = Some (d, ch')
              /\ (ch' = ch
                  \/ (j = pid /\ ch' = (ch ++ [List.length (store st)])%list)).
Proof.
  intros H. pose proof (lookup_lt_Some _ _ _ H) as Hlt.
  unfold push_store, add_child.
  rewrite lookup_app_l by (rewrite length_alter; exact Hlt).
  destruct (decide (pid = j)) as [->|Hne].
  - rewrite list_lookup_alter_eq, H. simpl. eauto.
  - rewrite list_lookup_alter_ne by exact Hne. eauto.
Qed.

Lemma push_lookup_new st pid dn :
  push_store st pid dn !! List.length (store st) = Some (dn, []).
Proof.
  unfold push_store, add_child.
  rewrite lookup_app_r by (rewrite length_alter; lia).
  rewrite length_alter, Nat.sub_diag. reflexivity.
Qed.

Lemma push_lookup_inv st pid dn j d ch' :
  push_store st pid dn !! j = Some (d, ch') ->
  (j = List.length (store st) /\ d = dn /\ ch' = [])
  \/ exists ch, store st !! j = Some (d, ch)
                /\ (ch' = ch
                    \/ (j = pid /\ ch' = (ch ++ [List.length (store st)])%list)).
Proof.
  intros H. destruct (Nat.lt_ge_cases j (List.length (store st))) as [Hlt|Hge].
  - right. destruct (lookup_lt_is_Some_2 (store st) j Hlt) as [[d0 ch0] H0].
    destruct (push_lookup_old st pid dn _ _ _ H0) as (ch1 & H1 & Hch).
    rewrite H in H1. injection H1 as -> ->. eauto.
  - left.
    assert (Hlen : List.length (push_store st pid dn) = S (List.length (store st))).
    { unfold push_store, add_child. rewrite length_app, length_alter. simpl. lia. }
    pose proof (lookup_lt_Some _ _ _ H) as Hlt. rewrite Hlen in Hlt.
    assert (j = List.length (store st)) as -> by lia.
    rewrite push_lookup_new in H. injection H as <- <-. auto.
Qed.

Lemma WF_push st pid dn vi dp chp k v :
  WF st ->
  store st !! pid = Some (dp, chp) ->
  origin_within dp dn = true ->
  geom dn = Some (geom_of_bounds (vi_absolute_bounds vi)) ->
  WF {| parent_stack := vi :: parent_stack st;
        nodes_stack := List.length (store st) :: nodes_stack st;
        skip_children_until_indent := k;
        views := v;
        store := push_store st pid dn |}.
Proof.
  intros [A B C] Hp Ho Hg. constructor; simpl.
  - constructor.
    + exists dn, []. split; [apply push_lookup_new|exact Hg].
    + eapply Forall2_impl; [exact A|]. intros vi' id' (d & ch & H1 & H2).
      destruct (push_lookup_old st pid dn _ _ _ H1) as (ch' & H' & _). eauto.
  - destruct B as [ch B].
    destruct (push_lookup_old st pid dn _ _ _ B) as (ch' & H' & _). eauto.
  - intros p d ch c H Hc.
    apply push_lookup_inv in H as [(-> & -> & ->)|(ch0 & H0 & Hch)].
    { apply elem_of_nil in Hc. contradiction. }
    assert (Hold : c ∈ ch0 ->
              (p < c)%nat
              /\ exists dc chc, push_store st pid dn !! c = Some (dc, chc)
                                /\ origin_within d dc = true).
    { intros Hc0. destruct (C p d ch0 c H0 Hc0) as (Hlt & dc & chc & Hdc & Hor).
      split; [exact Hlt|].
      destruct (push_lookup_old st pid dn _ _ _ Hdc) as (chc' & Hdc' & _). eauto. }
    destruct Hch as [->|[-> ->]]; [auto|].
    apply elem_of_app in Hc as [Hc|Hc]; [auto|].
    apply list_elem_of_singleton in Hc. subst c.
    rewrite Hp in H0. injection H0 as <- <-.
    split; [apply (lookup_lt_Some _ _ _ Hp)|].
    exists dn, []. split; [apply push_lookup_new|exact Ho].
Qed.

Lemma origin_within_from d dn p c :
  geom d = Some (geom_of_bounds p) ->
  geom dn = Some (geom_of_bounds c) ->
  left p <= left c -> left p <= right c ->
  top p <= top c -> top p <= bottom c ->
  origin_within d dn = true.
Proof.
  intros Hd Hn H1 H2 H3 H4. unfold origin_within. rewrite Hd, Hn. simpl.
  repeat (apply andb_true_intro; split); apply Z.leb_le; assumption.
Qed.

Lemma WF_place st line indent li :
  WF st -> natural_bounds (li_bounds li) -> WF (place st line indent li).
Proof.
  intros Hwf (N1 & N2 & N3 & N4). unfold place.
  pose proof (WF_set_stacks st indent Hwf) as Hwf1.
  destruct (pop_stacks indent (parent_stack st) (nodes_stack st)) as [ps ns].
  simpl in Hwf1.
  set (st1 := set_stacks st ps ns) in *.
  set (placed := match ps with
                 | parent :: _ => _
                 | [] => (li_bounds li, None)
                 end).
  destruct placed as [ab pb] eqn:Epl.
  set (vi := {| vi_line := li; vi_absolute_bounds := ab |}).
  destruct (match geom (create_ui_node vi) with
            | Some g => _
            | None => false
            end); [apply WF_set_skip, Hwf1|].
  assert (Hgeom : geom (create_ui_node vi) = Some (geom_of_bounds ab))
    by reflexivity.
  pose proof (wf_stacks _ Hwf1) as Hst. simpl in Hst.
  destruct Hst as [|parent pnode ps' ns' (d & ch & Hd & Hg) Hrest].
  - subst placed. injection Epl as <- <-.
    destruct (wf_root _ Hwf1) as [chr Hroot].
    apply (WF_push st1 root_id (create_ui_node vi) vi create_virtual_root chr);
      [exact Hwf1|exact Hroot| |exact Hgeom].
    apply (origin_within_from _ _ (mkBounds 0 0 0 0) (li_bounds li));
      [reflexivity|exact Hgeom|simpl; assumption..].
  - subst placed. injection Epl as <- <-.
    apply (WF_push st1 pnode (create_ui_node vi) vi d ch);
      [exact Hwf1|exact Hd| |exact Hgeom].
    apply (origin_within_from _ _ (vi_absolute_bounds parent)
             (calculate_absolute_bounds (vi_absolute_bounds parent) (li_bounds li)));
      [exact Hg|exact Hgeom|simpl; lia..].
Qed.

Lemma WF_step st line : WF st -> WF (step st line).
Proof.
  intros Hwf. unfold step.
  destruct (ignored line); [exact Hwf|].
  destruct (_ && _); [exact Hwf|].
  assert (Hwf' : WF (if 0 <=? skip_children_until_indent st
                     then set_skip st (-1) else st))
    by (destruct (0 <=? _); [apply WF_set_skip|]; exact Hwf).
  destruct (parse_line (Lex.strip line)) as [li|] eqn:E; [|exact Hwf'].
  destruct (should_filter li); [apply WF_set_skip, Hwf'|].
  apply WF_place; [exact Hwf'|]. eapply parse_line_natural, E.
Qed.

Lemma WF_parse_lines lines : forall st, WF st -> WF (parse_lines st lines).
Proof.
  induction lines as [|l lines IH]; intros st Hwf; [exact Hwf|].
  apply IH, WF_step, Hwf.
Qed.

Lemma WF_parse text : WF (parse text).
Proof. apply WF_parse_lines, WF_init. Qed.

Lemma mapM_build {A B} (f : A -> option B) (P : A -> B -> Prop) l :
  (forall c, c ∈ l -> exists t, f c = Some t /\ P c t) ->
  exists l', mapM f l = Some l' /\ Forall2 P l l'.
Proof.
  induction l as [|c l IH]; intros H.
  - exists []. split; [reflexivity|constructor].
  - destruct (H c (list_elem_of_here _ _)) as (t & Ht & Pt).
    destruct IH as (l' & Hl' & Fl').
    { intros c' Hc'. apply H, list_elem_of_further, Hc'. }
    exists (t :: l'). split; [|constructor; assumption].
    apply mapM_Some. constructor; [exact Ht|]. apply mapM_Some, Hl'.
Qed.

(** With the invariant, enough fuel rebuilds the tree below any node, and
    every child in it lies within the corner of its parent. *)
Lemma tree_of_ok st : WF st ->
  forall fuel id d ch,
    store st !! id = Some (d, ch) ->
    (List.length (store st) - id <= fuel)%nat ->
    exists t, tree_of fuel (store st) id = Some t
              /\ data t = d
              /\ all_children origin_within t = true.
Proof.
  intros Hwf. induction fuel as [|fuel IH]; intros id d ch Hid Hfuel.
  - apply lookup_lt_Some in Hid. lia.
  - cbn [tree_of]. rewrite Hid.
    destruct (mapM_build (tree_of fuel (store st))
                (fun c t => origin_within d (data t) = true
                            /\ all_children origin_within t = true) ch)
      as (ch' & Hch' & F).
    { intros c Hc.
      destruct (wf_children _ Hwf id d ch c Hid Hc) as (Hlt & dc & chc & Hdc & Hor).
      destruct (IH c dc chc Hdc) as (t & Ht & Hdt & Hall); [lia|].
      exists t. rewrite Hdt. auto. }
    rewrite Hch'. exists (Node d ch'). repeat split.
    cbn [all_children]. clear Hch' Hid Hfuel.
    induction F as [|c t ch0 ch1 [H1 H2] _ IHF]; [reflexivity|].
    simpl. rewrite H1, H2. exact IHF.
Qed.

Lemma to_ui_format_lookup st :
  WF st -> exists d ch, store st !! to_ui_format st = Some (d, ch).
Proof.
  intros Hwf. destruct (wf_root _ Hwf) as [chr Hroot].
  unfold to_ui_format. rewrite Hroot.
  destruct chr as [|only [|? ?]]; eauto.
  destruct (wf_children _ Hwf _ _ _ only Hroot) as (_ & dc & chc & Hdc & _);
    [apply list_elem_of_here|eauto].
Qed.

Lemma shifted_place st line indent li :
  Forall shifted (views st) -> Forall shifted (views (place st line indent li)).
Proof.
  intros H. unfold place.
  destruct (pop_stacks indent (parent_stack st) (nodes_stack st)) as [ps ns].
  destruct ps as [|parent ps'];
    match goal with
    | |- context [if ?b then _ else _] => destruct b
    end; simpl; try exact H;
    apply Forall_app; (split; [exact H|]); repeat constructor.
Qed.

Lemma shifted_step st line :
  Forall shifted (views st) -> Forall shifted (views (step st line)).
Proof.
  intros H. unfold step.
  destruct (ignored line); [exact H|].
  destruct (_ && _); [exact H|].
  assert (H' : Forall shifted
                 (views (if 0 <=? skip_children_until_indent st
                         then set_skip st (-1) else st)))
    by (destruct (0 <=? _); exact H).
  destruct (parse_line (Lex.strip line)) as [li|]; [|exact H'].
  destruct (should_filter li); [exact H'|].
  apply shifted_place, H'.
Qed.

Lemma shifted_parse text : Forall shifted (views (parse text)).
Proof.
  unfold parse, parse_lines.
  generalize (Str.split (String "010" EmptyString) text) as lines.
  assert (H : Forall shifted (views init)) by constructor.
  revert H. generalize init as st. intros st H lines. revert st H.
  induction lines as [|l lines IH]; intros st H; [exact H|].
  apply IH, shifted_step, H.
Qed.

Lemma edge_more vs vs' d dc :
  (forall v, v ∈ vs -> v ∈ vs') -> edge vs d dc -> edge vs' d dc.
Proof.
  intros Hsub (vi & pb & Hin & H). exists vi, pb. split; [auto|exact H].
Qed.

Lemma Edges_init : Edges init.
Proof.
  intros p d ch c H Hc. destruct p; simpl in H; [|discriminate].
  injection H as <- <-. apply elem_of_nil in Hc. contradiction.
Qed.

Lemma Edges_set_skip st k : Edges st -> Edges (set_skip st k).
Proof. intros H. exact H. Qed.

Lemma Edges_push st pid dn dp chp ps ns k v :
  Edges st ->
  store st !! pid = Some (dp, chp) ->
  (forall x, x ∈ views st -> x ∈ v) ->
  edge v dp dn ->
  Edges {| parent_stack := ps; nodes_stack := ns;
           skip_children_until_indent := k;
           views := v;
           store := push_store st pid dn |}.
Proof.
  intros C Hp Hsub He p d ch c H Hc. simpl in *.
  apply push_lookup_inv in H as [(-> & -> & ->)|(ch0 & H0 & Hch)].
  { apply elem_of_nil in Hc. contradiction. }
  assert (Hold : c ∈ ch0 ->
            exists dc chc, push_store st pid dn !! c = Some (dc, chc)
                           /\ edge v d dc).
  { intros Hc0. destruct (C p d ch0 c H0 Hc0) as (dc & chc & Hdc & Hor).
    destruct (push_lookup_old st pid dn _ _ _ Hdc) as (chc' & Hdc' & _).
    exists dc, chc'. split; [exact Hdc'|]. eapply edge_more; eassumption. }
  destruct Hch as [->|[-> ->]]; [auto|].
  apply elem_of_app in Hc as [Hc|Hc]; [auto|].
  apply list_elem_of_singleton in Hc. subst c.
  rewrite Hp in H0. injection H0 as <- <-.
  exists dn, []. split; [apply push_lookup_new|exact He].
Qed.

Lemma Edges_place st line indent li :
  WF st -> Edges st -> natural_bounds (li_bounds li) ->
  Edges (place st line indent li).
Proof.
  intros Hwf He (N1 & N2 & N3 & N4). unfold place.
  pose proof (WF_set_stacks st indent Hwf) as Hwf1.
  destruct (pop_stacks indent (parent_stack st) (nodes_stack st)) as [ps ns].
  simpl in Hwf1.
  set (st1 := set_stacks st ps ns) in *.
  assert (He1 : Edges st1) by exact He.
  set (placed := match ps with
                 | parent :: _ => _
                 | [] => (li_bounds li, None)
                 end).
  destruct placed as [ab pb] eqn:Epl.
  set (vi := {| vi_line := li; vi_absolute_bounds := ab |}).
  destruct (match geom (create_ui_node vi) with
            | Some g => _
            | None => false
            end); [exact He1|].
  assert (Hsub : forall x, x ∈ views st1 -> x ∈ (views st1 ++ [vi])%list).
  { intros x Hx. apply elem_of_app. left. exact Hx. }
  assert (Hin : vi ∈ (views st1 ++ [vi])%list).
  { apply elem_of_app. right. apply list_elem_of_here. }
  pose proof (wf_stacks _ Hwf1) as Hst. simpl in Hst.
  destruct Hst as [|parent pnode ps' ns' (d & ch & Hd & Hg) Hrest].
  - subst placed. injection Epl as <- <-.
    destruct (wf_root _ Hwf1) as [chr Hroot].
    apply (Edges_push st1 root_id (create_ui_node vi) create_virtual_root chr);
      [exact He1|exact Hroot|exact Hsub|].
    exists vi, (mkBounds 0 0 0 0). split; [exact Hin|].
    split; [reflexivity|]. split; [reflexivity|]. split; [|split; assumption].
    simpl. destruct (li_bounds li). reflexivity.
  - subst placed. injection Epl as <- <-.
    apply (Edges_push st1 pnode (create_ui_node vi) d ch);
      [exact He1|exact Hd|exact Hsub|].
    exists vi, (vi_absolute_bounds parent). split; [exact Hin|].
    split; [reflexivity|]. split; [exact Hg|]. split; [reflexivity|].
    split; assumption.
Qed.

Lemma Edges_step st line : WF st -> Edges st -> Edges (step st line).
Proof.
  intros Hwf He. unfold step.
  destruct (ignored line); [exact He|].
  destruct (_ && _); [exact He|].
  assert (Hwf' : WF (if 0 <=? skip_children_until_indent st
                     then set_skip st (-1) else st))
    by (destruct (0 <=? _); [apply WF_set_skip|]; exact Hwf).
  assert (He' : Edges (if 0 <=? skip_children_until_indent st
                       then set_skip st (-1) else st))
    by (destruct (0 <=? _); exact He).
  destruct (parse_line (Lex.strip line)) as [li|] eqn:E; [|exact He'].
  destruct (should_filter li); [exact He'|].
  apply Edges_place; [exact Hwf'|exact He'|]. eapply parse_line_natural, E.
Qed.

Lemma Edges_parse_lines lines :
  forall st, WF st -> Edges st -> Edges (parse_lines st lines).
Proof.
  induction lines as [|l lines IH]; intros st Hwf He; [exact He|].
  apply IH; [apply WF_step, Hwf|apply Edges_step; assumption].
Qed.

Lemma Edges_parse text : Edges (parse text).
Proof. apply Edges_parse_lines; [apply WF_init|apply Edges_init]. Qed.

Lemma tree_of_data store fuel id t :
  tree_of fuel store id = Some t ->
  exists ch, store !! id = Some (data t, ch).
Proof.
  destruct fuel as [|fuel]; [discriminate|]. cbn [tree_of].
  destruct (store !! id) as [[d ch]|]; [|discriminate].
  destruct (mapM _ ch); [|discriminate]. intros [= <-]. eauto.
Qed.

(** What holds of every parent and child in the store holds of every
    parent and child of a tree read from it. *)
Lemma tree_of_edges (R : NodeData -> NodeData -> Prop) store :
  (forall p d ch c,
     store !! p = Some (d, ch) -> c ∈ ch ->
     exists dc chc, store !! c = Some (dc, chc) /\ R d dc) ->
  forall fuel id t, tree_of fuel store id = Some t -> every_edge R t.
Proof.
  intros HR. induction fuel as [|fuel IH]; intros id t; [discriminate|].
  cbn [tree_of].
  destruct (store !! id) as [[d ch]|] eqn:Hid; [|discriminate].
  destruct (mapM (tree_of fuel store) ch) as [ch'|] eqn:Hm; [|discriminate].
  intros [= <-]. apply mapM_Some in Hm. cbn [every_edge].
  assert (Hgen : forall l l',
            Forall2 (fun c t => tree_of fuel store c = Some t) l l' ->
            (forall c, c ∈ l -> c ∈ ch) ->
            (fix each (l : list Tree) : Prop :=
               match l with
               | [] => True
               | c :: rest => R d (data c) /\ every_edge R c /\ each rest
               end) l').
  { induction 1 as [|c t l l' Ht _ IHl]; intros Hsub; [exact I|].
    split; [|split].
    - destruct (HR id d ch c Hid (Hsub c (list_elem_of_here _ _)))
        as (dc & chc & Hdc & Hr).
      apply tree_of_data in Ht as [ch0 Ht]. rewrite Hdc in Ht.
      injection Ht as -> _. exact Hr.
    - eapply IH, Ht.
    - apply IHl. intros c' Hc'. apply Hsub, list_elem_of_further, Hc'. }
  apply (Hgen ch ch' Hm). auto.
Qed.

Lemma edge_shifted vs d dc : edge vs d dc -> shifted_from_parent vs d dc.
Proof.
  intros (vi & pb & Hin & -> & Hg & Hab & N1 & N2).
  exists vi, (geom_of_bounds pb). split; [exact Hin|]. split; [reflexivity|].
  split; [exact Hg|]. cbv zeta. split; [exact Hab|].
  unfold bounds_contain. rewrite Hg. cbn [create_ui_node geom]. rewrite Hab.
  simpl. rewrite !andb_true_iff, !Z.leb_le. lia.
Qed.

Lemma every_edge_impl (R R' : NodeData -> NodeData -> Prop) :
  (forall d dc, R d dc -> R' d dc) ->
  forall t, every_edge R t -> every_edge R' t.
Proof.
  intros HRR. induction t as [d ch IH] using Tree_ind'. cbn [every_edge].
  induction IH as [|c rest Hc _ IHrest]; [auto|].
  intros (H1 & H2 & H3). split; [auto|]. split; [auto|]. apply IHrest, H3.
Qed.

(** C7 (amended). The parser always returns a tree.  In it every child
    node was built for a placed line whose absolute bounds are its relative
    bounds shifted by the top-left corner (x1, y1) of the parent node, and
    the child's bounds lie within the parent node's bounds exactly when the
    relative right and bottom do not exceed the parent's width and height;
    so every child lies right of and below the top-left corner of its
    parent node.  Each placed line records the bounds it was shifted by. *)
Theorem children_start_within_parent (text : string) :
  (exists t, result_tree (parse text) = Some t
             /\ every_edge (shifted_from_parent (views (parse text))) t
             /\ all_children origin_within t = true)
  /\ Forall shifted (views (parse text))
  /\ (forall parent rel : Bounds,
        within parent (calculate_absolute_bounds parent rel)
        <-> (0 <= left rel /\ right rel <= right parent - left parent
             /\ 0 <= top rel /\ bottom rel <= bottom parent - top parent)).
Proof.
  split; [|split; [apply shifted_parse|]];
    [|intros parent rel; unfold within; simpl; lia].
  pose proof (WF_parse text) as Hwf.
  destruct (to_ui_format_lookup _ Hwf) as (d & ch & Hid).
  destruct (tree_of_ok _ Hwf (List.length (store (parse text))) _ d ch Hid)
    as (t & Ht & _ & Hall); [lia|].
  exists t. split; [exact Ht|]. split; [|exact Hall].
  apply (every_edge_impl _ _ (edge_shifted (views (parse text)))).
  eapply tree_of_edges; [apply Edges_parse|exact Ht].
Qed.

(** C7, as stated, fails: a frame at 10,10-20,20 with a child line of
    relative bounds 0,0-100,100 yields a child at 10,10-110,110, outside the
    frame. *)
Lemma child_overflows_parent : ~ containment_holds.
Proof.
  intros H.
  assert (E : exists t, result_tree (parse Samples4.overflow_dump) = Some t
                        /\ all_children bounds_contain t = false).
  { vm_compute. eexists. split; reflexivity. }
  destruct E as (t & Ht & Hf). rewrite (H _ _ Ht) in Hf. discriminate Hf.
Qed.

End VHTreeFacts.

(** ** Substrings and stripping *)

Module StrFacts.

Local Open Scope string_scope.

Lemma prefix_spec sub s :
  String.prefix sub s = true <-> exists b, s = sub ++ b.
Proof.
  revert s. induction sub as [|c sub IH]; intros s.
  - split; [eauto|]. intros _. destruct s; reflexivity.
  - destruct s as [|a s]; simpl.
    + split; [discriminate|]. intros [b H]. discriminate H.
    + destruct (ascii_dec c a) as [->|Hne].
      * rewrite IH. split; intros [b H]; exists b; [rewrite H; reflexivity|].
        injection H as ->. reflexivity.
      * split; [discriminate|]. intros [b H]. injection H as -> _. contradiction.
Qed.

Lemma contains_spec sub s :
  Str.contains sub s = true <-> exists a b, s = a ++ sub ++ b.
Proof.
  induction s as [|c s IH].
  - cbn [Str.contains]. destruct (String.prefix sub "") eqn:E.
    + split; [|reflexivity]. intros _. apply prefix_spec in E as [b E].
      exists "", b. exact E.
    + split; [discriminate|]. intros (a & b & H).
      destruct a; [|discriminate H]. simpl in H.
      assert (String.prefix sub "" = true) by (apply prefix_spec; eauto).
      congruence.
  - cbn [Str.contains]. destruct (String.prefix sub (String c s)) eqn:E.
    + split; [|reflexivity]. intros _. apply prefix_spec in E as [b E].
      exists "", b. exact E.
    + rewrite IH. split.
      * intros (a & b & ->). exists (String c a), b. reflexivity.
      * intros (a & b & H). destruct a as [|c' a].
        -- simpl in H.
           assert (String.prefix sub (String c s) = true)
             by (apply prefix_spec; eauto).
           congruence.
        -- injection H as -> ->. eauto.
Qed.

Lemma append_assoc (a b c : string) : (a ++ b) ++ c = a ++ (b ++ c).
Proof.
  induction a as [|x a IH]; [reflexivity|].
  change (String x ((a ++ b) ++ c) = String x (a ++ (b ++ c))). f_equal. exact IH.
Qed.

Lemma append_nil_r (a : string) : a ++ "" = a.
Proof.
  induction a as [|x a IH]; [reflexivity|].
  change (String x (a ++ "") = String x a). f_equal. exact IH.
Qed.

Lemma rev_acc_spec s : forall acc, Str.rev_acc s acc = Str.rev s ++ acc.
Proof.
  unfold Str.rev. induction s as [|c s IH]; intros acc; simpl; [reflexivity|].
  rewrite (IH (String c acc)), (IH (String c "")), append_assoc. reflexivity.
Qed.

Lemma rev_cons c s : Str.rev (String c s) = Str.rev s ++ String c "".
Proof. unfold Str.rev at 1. simpl. apply rev_acc_spec. Qed.

Lemma rev_app a b : Str.rev (a ++ b) = Str.rev b ++ Str.rev a.
Proof.
  induction a as [|c a IH].
  - simpl. rewrite append_nil_r. reflexivity.
  - change (String c a ++ b) with (String c (a ++ b)).
    rewrite !rev_cons, IH, append_assoc. reflexivity.
Qed.

Lemma rev_involutive s : Str.rev (Str.rev s) = s.
Proof.
  induction s as [|c s IH]; [reflexivity|].
  change (String c s) with (String c "" ++ s) at 1.
  rewrite rev_app, rev_app, IH. reflexivity.
Qed.

Lemma contains_rev sub s : Str.contains sub (Str.rev s) = Str.contains (Str.rev sub) s.
Proof.
  apply eq_true_iff_eq. rewrite !contains_spec. split.
  - intros (a & b & H). exists (Str.rev b), (Str.rev a).
    rewrite <- (rev_involutive s), H, !rev_app, append_assoc. reflexivity.
  - intros (a & b & ->). exists (Str.rev b), (Str.rev a).
    rewrite !rev_app, rev_involutive, append_assoc. reflexivity.
Qed.

Lemma contains_lstrip c sub s :
  Lex.is_space c = false ->
  Str.contains (String c sub) (Lex.lstrip s) = Str.contains (String c sub) s.
Proof.
  intros Hc. unfold Lex.lstrip. induction s as [|a s IH]; [reflexivity|].
  cbn [Lex.span]. destruct (Lex.is_space a) eqn:Ha; [|reflexivity].
  destruct (Lex.span Lex.is_space s) as [x y]. simpl in IH. simpl snd.
  rewrite IH. cbn [Str.contains String.prefix].
  destruct (ascii_dec c a) as [->|_]; [congruence|reflexivity].
Qed.

(** A text that neither starts nor ends with a space character occurs in a
    line exactly when it occurs in the stripped line. *)
Lemma contains_strip c sub c' sub' s :
  Lex.is_space c = false -> Lex.is_space c' = false ->
  Str.rev (String c sub) = String c' sub' ->
  Str.contains (String c sub) (Lex.strip s) = Str.contains (String c sub) s.
Proof.
  intros Hc Hc' Hrev. unfold Lex.strip.
  rewrite contains_rev, Hrev, (contains_lstrip _ _ _ Hc'), <- Hrev.
  rewrite <- contains_rev, rev_involutive. apply contains_lstrip, Hc.
Qed.

End StrFacts.

Module ClickableFacts.

Import VH VHSpec.
Local Open Scope string_scope.

Lemma step_store st line :
  store (step st line) = store st
  \/ exists li vi s',
       parse_line (Lex.strip line) = Some li
       /\ vi_line vi = li
       /\ vi_original_line vi = line
       /\ List.length s' = List.length (store st)
       /\ store (step st line) = (s' ++ [(create_ui_node vi, [])])%list.
Proof.
  unfold step.
  destruct (ignored line); [auto|].
  destruct (_ && _); [auto|].
  set (st0 := if (0 <=? skip_children_until_indent st)%Z then _ else st).
  assert (H0 : store st0 = store st) by (subst st0; destruct (0 <=? _)%Z; reflexivity).
  destruct (parse_line (Lex.strip line)) as [li|] eqn:E; [|auto].
  destruct (should_filter li); [auto|].
  unfold place.
  destruct (pop_stacks _ (parent_stack st0) (nodes_stack st0)) as [ps ns].
  destruct (match ps with [] => _ | _ => _ end) as [ab pb].
  match goal with
  | |- context [if ?b then _ else _] => destruct b
  end; [auto|].
  right. simpl. rewrite <- H0.
  exists li, (mkView li ab pb (indent_of line) (List.length ps) line),
    (match ns with
     | parent_node :: _ =>
         add_child parent_node (List.length (store st0)) (store st0)
     | [] => add_child root_id (List.length (store st0)) (store st0)
     end).
  split; [reflexivity|]. split; [reflexivity|].
  split; [reflexivity|]. split; [|reflexivity].
  destruct ns; unfold add_child; apply length_alter.
Qed.

(** C10. A node built from a line has the clickable flag [true] when the
    line contains [.C] or the parsed class contains [Button] or [TextView],
    and the flag [false] when it does none of these; every node the parser
    adds is built this way from the line at hand.  The title line carries
    no [.C] and its node is clickable; the line of a plain view without
    [.C] gives a node that is not. *)
Theorem clickable_flag_rule :
  (forall line : string,
     match parse_line (Lex.strip line) with
     | Some li =>
         forall ab pb ind lvl orig,
           clickable (create_ui_node (mkView li ab pb ind lvl orig))
           = Some (if Str.contains ".C" line
                      || Str.contains "Button" (li_class li)
                      || Str.contains "TextView" (li_class li)
                   then "true" else "false")
     | None => True
     end)
  /\ (forall st line,
        store (step st line) = store st
        \/ exists li vi s',
             parse_line (Lex.strip line) = Some li
             /\ vi_line vi = li
             /\ vi_original_line vi = line
             /\ List.length s' = List.length (store st)
             /\ store (step st line) = (s' ++ [(create_ui_node vi, [])])%list)
  /\ (Str.contains ".C" Samples.title_dump = false
      /\ option_map (fun t => (class_ (data t), clickable (data t)))
           (result_tree (parse Samples.title_dump))
         = Some ("android.widget.TextView", Some "true"))
  /\ (Str.contains ".C" Samples4.thin_line = false
      /\ option_map (fun t => (class_ (data t), clickable (data t)))
           (result_tree (parse Samples4.thin_line))
         = Some ("android.view.View", Some "false")).
Proof.
  split; [|split; [exact step_store|split; split; vm_compute; reflexivity]].
  intros line.
  destruct (parse_line (Lex.strip line)) as [li|] eqn:E; [|exact I].
  intros ab pb ind lvl orig. simpl. f_equal.
  unfold parse_line in E.
  destruct (Lex.span1 Lex.is_class_char (Lex.strip line)) as [[cls rest]|];
    [|discriminate].
  destruct (Lex.search match_bounds (Lex.strip line)); [|discriminate].
  injection E as <-. simpl.
  rewrite (StrFacts.contains_strip "."%char "C" "C"%char "." line)
    by reflexivity.
  reflexivity.
Qed.

End ClickableFacts.

(** ** Missing sources *)

Module SourceFacts.

Import Hybrid Merge App.

(** C9 (amended). With a tree missing [merge_trees] matches nothing,
    returns nothing and leaves the parser as it was, so that the statistics
    of a new parser report 0 matched, 0 in total and the zero rate.  The
    pass-through is the caller's: with no usable geometry text the hybrid
    analysis is the UIAutomator analysis, which leaves the attribute tree as
    parsed; with a geometry text and no attribute file it is the view
    hierarchy analysis, which leaves the geometry tree when at least one
    line was parsed; neither shows statistics; with both dumps missing the
    result is empty. *)
Theorem missing_source_handling :
  (forall (sc : Scoring) (vh ui : option Tree),
     match vh, ui with
     | Some _, Some _ => True
     | _, _ =>
         merge_trees sc (with_sources Hybrid.init vh ui)
         = (None, with_sources Hybrid.init vh ui)
         /\ get_statistics (snd (merge_trees sc (with_sources Hybrid.init vh ui)))
            = mkStats 0 0 0 RateZero
     end)
  /\ (forall (sc : Scoring) (dev : Device),
        match dump_ui_automator dev, fetch_view_hierarchy dev with
        | None, None => parseHybridMode sc dev = mkAnalysis None None
        | None, Some text =>
            if Str.nonempty text
            then parseHybridMode sc dev = view_hierarchy_result text
            else parseHybridMode sc dev = mkAnalysis None None
        | Some file, None =>
            parseHybridMode sc dev
            = mkAnalysis (if file_exists file
                          then UIParser.parse_ui_xml (document file)
                          else None) None
        | Some file, Some text =>
            if Str.nonempty text
            then if file_exists file then True
                 else parseHybridMode sc dev = view_hierarchy_result text
            else parseHybridMode sc dev
                 = mkAnalysis (if file_exists file
                               then UIParser.parse_ui_xml (document file)
                               else None) None
        end).
Proof.
  split.
  - intros sc [vh|] [ui|]; try exact I; split; reflexivity.
  - intros sc [[[[|] doc]|] [text|] ask];
      unfold parseHybridMode, parseUIAutomatorMode, parseViewHierarchyMode,
        view_hierarchy_result, has_text; simpl;
      try reflexivity;
      destruct (Str.nonempty text) eqn:E; simpl; rewrite ?E; try reflexivity;
      try exact I;
      destruct (VH.views (VH.parse text)); reflexivity.
Qed.

(** C9, as stated, fails.  For the merge itself: with the geometry tree
    present and the attribute tree missing, [merge_trees] returns nothing
    rather than the geometry tree.  For the analysis around it: with a good
    geometry text and an attribute file that exists but cannot be read as a
    document, the result is empty although the geometry source is there. *)
Lemma merge_without_attribute_tree_is_empty :
  ~ merge_passes_through binary64_scoring
  /\ ~ empty_only_if_both_missing binary64_scoring.
Proof.
  split.
  - intros H. specialize (H (Some Samples.title_vh) None). discriminate H.
  - intros H.
    destruct (H {| dump_ui_automator := Some (mkUiFile true None);
                   fetch_view_hierarchy := Some Samples.title_dump;
                   ask_view_hierarchy := None |}) as [H1 _];
      [vm_compute; reflexivity|discriminate H1].
Qed.

End SourceFacts.
(** * Further properties of the code *)

(** ** Numbers and bounds as text *)

Module TextFacts.

Import VH VHInv BoundsText.
Local Open Scope string_scope.
Local Open Scope Z_scope.

Lemma uint_digits d : all_digits (NilEmpty.string_of_uint d).
Proof.
  unfold all_digits. induction d; simpl; constructor; try reflexivity; assumption.
Qed.

Lemma uint_value d :
  forall acc : BinNums.positive,
    (fix go (s : string) (acc : Z) : Z :=
       match s with
       | EmptyString => acc
       | String c s' => go s' (10 * acc + Lex.digit_value c)
       end) (NilEmpty.string_of_uint d) (Z.pos acc)
    = Z.pos (Pos.of_uint_acc d acc).
Proof.
  induction d; intros acc; simpl; try reflexivity;
    match goal with
    | IH : forall acc : BinNums.positive, _ |- _ =>
        rewrite <- IH; f_equal; unfold Lex.digit_value; simpl; lia
    end.
Qed.

Lemma int_of_uint d :
  Lex.int_of_digits (NilEmpty.string_of_uint d) = Z.of_uint d.
Proof.
  unfold Lex.int_of_digits, Z.of_uint.
  induction d; simpl; try reflexivity; try exact IHd.
  all: change (10 * 0 + Lex.digit_value _) with (Z.pos 1) ||
       idtac.
  all: match goal with
       | |- _ = Z.pos (Pos.of_uint_acc ?d ?k) => rewrite <- (uint_value d k)
       end; reflexivity.
Qed.

(** what [str] writes for a natural number: a non-empty run of digits that
    reads back as the number *)
Lemma str_of_int_spec n :
  0 <= n ->
  all_digits (Lex.str_of_int n)
  /\ Str.nonempty (Lex.str_of_int n) = true
  /\ Lex.int_of_digits (Lex.str_of_int n) = n.
Proof.
  intros Hn. unfold Lex.str_of_int. destruct n as [|p|p]; [| |lia].
  - repeat split. simpl. repeat constructor.
  - simpl. unfold NilZero.string_of_uint.
    pose proof (DecimalPos.Unsigned.to_uint_nonnil p) as Hnil.
    destruct (Pos.to_uint p) eqn:E; [contradiction| ..].
    all: rewrite <- E; split; [apply uint_digits|];
      split; [rewrite E; reflexivity|];
      rewrite int_of_uint; unfold Z.of_uint;
      rewrite DecimalPos.Unsigned.of_to; reflexivity.
Qed.

Lemma span_digits ds rest :
  all_digits ds -> no_digit_ahead rest ->
  Lex.span Lex.is_digit (ds ++ rest) = (ds, rest).
Proof.
  unfold all_digits. induction ds as [|c ds IH]; simpl; intros Hd Hr.
  - destruct rest as [|c r]; [reflexivity|]. simpl in *. rewrite Hr. reflexivity.
  - apply Forall_cons in Hd. destruct Hd as [Hc Hd]. rewrite Hc, (IH Hd Hr).
    reflexivity.
Qed.

Lemma span1_number n rest :
  0 <= n -> no_digit_ahead rest ->
  Lex.span1 Lex.is_digit (Lex.str_of_int n ++ rest)
  = Some (Lex.str_of_int n, rest).
Proof.
  intros Hn Hr. destruct (str_of_int_spec n Hn) as (Hd & Hne & _).
  unfold Lex.span1. rewrite (span_digits _ _ Hd Hr), Hne. reflexivity.
Qed.

Lemma findall_digits_run ds rest cur :
  all_digits ds ->
  Lex.findall_digits_from (ds ++ rest) cur
  = Lex.findall_digits_from rest (Str.rev ds ++ cur).
Proof.
  unfold all_digits. revert cur. induction ds as [|c ds IH]; intros cur Hd.
  - reflexivity.
  - apply Forall_cons in Hd. destruct Hd as [Hc Hd].
    change (String c ds ++ rest) with (String c (ds ++ rest)).
    cbn [Lex.findall_digits_from]. rewrite Hc, (IH _ Hd).
    rewrite StrFacts.rev_cons, StrFacts.append_assoc. reflexivity.
Qed.

(** [re.findall(r'\d+', ...)] reads a number written between two
    characters that are not digits *)
Lemma findall_number n c rest :
  0 <= n -> Lex.is_digit c = false ->
  Lex.findall_digits_from (Lex.str_of_int n ++ String c rest) ""
  = Lex.str_of_int n :: Lex.findall_digits_from rest "".
Proof.
  intros Hn Hc. destruct (str_of_int_spec n Hn) as (Hd & Hne & _).
  rewrite (findall_digits_run _ _ _ Hd). cbn [Lex.findall_digits_from].
  rewrite Hc, StrFacts.append_nil_r, StrFacts.rev_involutive.
  assert (Hr : Str.nonempty (Str.rev (Lex.str_of_int n)) = true).
  { destruct (Lex.str_of_int n) as [|a s]; [discriminate|].
    rewrite StrFacts.rev_cons. destruct (Str.rev s); reflexivity. }
  rewrite Hr. reflexivity.
Qed.

Lemma expect_char c s : Lex.expect (String c "") (String c s) = Some s.
Proof. simpl. rewrite Ascii.eqb_refl. reflexivity. Qed.

Lemma text_reads_back b rest :
  natural_bounds b -> no_digit_ahead rest ->
  match_bounds (text_of b ++ rest) = Some b.
Proof.
  intros (Hl & Ht & Hr & Hb) Hrest. destruct b as [l t r b]. simpl in *.
  assert (Hnorm : text_of (mkBounds l t r b) ++ rest
                  = Lex.str_of_int l ++ String "," (Lex.str_of_int t
                    ++ String "-" (Lex.str_of_int r
                    ++ String "," (Lex.str_of_int b ++ rest)))).
  { unfold text_of, format. cbn [left top right bottom].
    rewrite !StrFacts.append_assoc. reflexivity. }
  rewrite Hnorm. unfold match_bounds.
  rewrite (span1_number l _ Hl) by reflexivity.
  cbn -[Lex.span1 Lex.expect Lex.int_of_digits Lex.str_of_int append].
  rewrite expect_char.
  cbn -[Lex.span1 Lex.expect Lex.int_of_digits Lex.str_of_int append].
  rewrite (span1_number t _ Ht) by reflexivity.
  cbn -[Lex.span1 Lex.expect Lex.int_of_digits Lex.str_of_int append].
  rewrite expect_char.
  cbn -[Lex.span1 Lex.expect Lex.int_of_digits Lex.str_of_int append].
  rewrite (span1_number r _ Hr) by reflexivity.
  cbn -[Lex.span1 Lex.expect Lex.int_of_digits Lex.str_of_int append].
  rewrite expect_char.
  cbn -[Lex.span1 Lex.expect Lex.int_of_digits Lex.str_of_int append].
  rewrite (span1_number b _ Hb) by exact Hrest.
  cbn -[Lex.span1 Lex.expect Lex.int_of_digits Lex.str_of_int append].
  destruct (str_of_int_spec l Hl) as (_ & _ & ->).
  destruct (str_of_int_spec t Ht) as (_ & _ & ->).
  destruct (str_of_int_spec r Hr) as (_ & _ & ->).
  destruct (str_of_int_spec b Hb) as (_ & _ & ->).
  reflexivity.
Qed.

Lemma shift_natural p c :
  natural_bounds p -> natural_bounds c ->
  natural_bounds (VH.calculate_absolute_bounds p c).
Proof. unfold natural_bounds. simpl. lia. Qed.

(** X1. The text [l,t-r,b] written for four natural numbers is read back
    by the bounds pattern as the same four numbers, alone or followed by
    anything that does not begin with a digit. *)
Theorem bounds_text_round_trip (b : Bounds) (rest : string) :
  natural_bounds b -> no_digit_ahead rest ->
  match_bounds (text_of b) = Some b
  /\ match_bounds (text_of b ++ rest) = Some b.
Proof.
  intros Hb Hrest. split; [|apply text_reads_back; assumption].
  rewrite <- (StrFacts.append_nil_r (text_of b)).
  apply text_reads_back; [assumption|exact I].
Qed.

Lemma bounds_text_round_trip_witness :
  match_bounds (text_of (mkBounds 12 0 1080 64)) = Some (mkBounds 12 0 1080 64)
  /\ match_bounds (text_of (mkBounds 12 0 1080 64) ++ "}")
     = Some (mkBounds 12 0 1080 64).
Proof.
  apply (bounds_text_round_trip (mkBounds 12 0 1080 64) "}").
  - unfold natural_bounds. simpl. lia.
  - reflexivity.
Defined.

(** X2. [_calculate_absolute_bounds] on texts: when either text does not
    match the bounds pattern the child text comes back unchanged; when both
    match, the result is the text of the child's four numbers shifted by the
    parent's left and top, it matches the pattern again and reads back as
    those numbers, and [_create_ui_node] takes its geometry from them, never
    the all-zero default. *)
Theorem absolute_bounds_on_texts (parent_bounds child_bounds : string) :
  match match_bounds parent_bounds, match_bounds child_bounds with
  | Some p, Some c =>
      let shifted := VH.calculate_absolute_bounds p c in
      BoundsText.calculate_absolute_bounds parent_bounds child_bounds
      = text_of shifted
      /\ match_bounds
           (BoundsText.calculate_absolute_bounds parent_bounds child_bounds)
         = Some shifted
      /\ node_geometry
           (BoundsText.calculate_absolute_bounds parent_bounds child_bounds)
         = (bounds_text (left shifted) (top shifted) (right shifted)
              (bottom shifted),
            geom_of_bounds shifted)
  | _, _ =>
      BoundsText.calculate_absolute_bounds parent_bounds child_bounds
      = child_bounds
  end.
Proof.
  unfold BoundsText.calculate_absolute_bounds.
  destruct (match_bounds parent_bounds) as [p|] eqn:Ep; [|reflexivity].
  destruct (match_bounds child_bounds) as [c|] eqn:Ec; [|reflexivity].
  cbv zeta.
  assert (Hs : natural_bounds (VH.calculate_absolute_bounds p c)).
  { apply shift_natural; eapply VHTreeFacts.match_bounds_natural; eassumption. }
  assert (Hread : match_bounds (text_of (VH.calculate_absolute_bounds p c))
                  = Some (VH.calculate_absolute_bounds p c)).
  { rewrite <- (StrFacts.append_nil_r (text_of _)).
    apply text_reads_back; [assumption|exact I]. }
  split; [reflexivity|]. split; [exact Hread|].
  unfold node_geometry.
  change (format _ _ _ _) with (text_of (VH.calculate_absolute_bounds p c)).
  rewrite Hread. reflexivity.
Qed.

Lemma findall_skip c rest :
  Lex.is_digit c = false ->
  Lex.findall_digits_from (String c rest) "" = Lex.findall_digits_from rest "".
Proof. intros H. cbn [Lex.findall_digits_from]. rewrite H. reflexivity. Qed.

Lemma bounds_attribute_reads_back l t r b :
  0 <= l -> 0 <= t -> 0 <= r -> 0 <= b ->
  UIParser.parse_bounds (bounds_text l t r b)
  = Some (UIParser.geom_of l t r b).
Proof.
  intros Hl Ht Hr Hb.
  assert (Hnorm : bounds_text l t r b
                  = String "[" (Lex.str_of_int l ++ String "," (Lex.str_of_int t
                    ++ String "]" (String "[" (Lex.str_of_int r
                    ++ String "," (Lex.str_of_int b ++ String "]" "")))))).
  { unfold bounds_text. rewrite ?StrFacts.append_assoc. reflexivity. }
  rewrite Hnorm. unfold UIParser.parse_bounds, Lex.findall_digits.
  cbn [Str.nonempty].
  rewrite findall_skip by reflexivity.
  rewrite (findall_number l) by (assumption || reflexivity).
  rewrite (findall_number t) by (assumption || reflexivity).
  rewrite findall_skip by reflexivity.
  rewrite (findall_number r) by (assumption || reflexivity).
  rewrite (findall_number b) by (assumption || reflexivity).
  cbn [Lex.findall_digits_from Str.nonempty].
  destruct (str_of_int_spec l Hl) as (_ & _ & ->).
  destruct (str_of_int_spec t Ht) as (_ & _ & ->).
  destruct (str_of_int_spec r Hr) as (_ & _ & ->).
  destruct (str_of_int_spec b Hb) as (_ & _ & ->).
  reflexivity.
Qed.

(** X3. The [bounds] text [[l,t][r,b]] of a node built by
    [_create_ui_node], read the way [UIParser._parse_node] reads a bounds
    attribute, gives the geometry keys the node carries. *)
Theorem node_bounds_text_agrees (view_info : ViewInfo) :
  natural_bounds (vi_absolute_bounds view_info) ->
  UIParser.parse_bounds (bounds (create_ui_node view_info))
  = geom (create_ui_node view_info).
Proof.
  intros (Hl & Ht & Hr & Hb). unfold create_ui_node. cbn [bounds geom].
  apply bounds_attribute_reads_back; assumption.
Qed.

Lemma node_bounds_text_agrees_witness :
  UIParser.parse_bounds
    (bounds (create_ui_node
               (mkView (mkLine "android.widget.TextView" (mkBounds 0 0 200 50)
                          (Some "title") None true false true true)
                       (mkBounds 10 20 210 70) (Some (mkBounds 10 20 500 500))
                       2 1 "")))
  = Some (UIParser.geom_of 10 20 210 70).
Proof.
  apply (node_bounds_text_agrees
           (mkView (mkLine "android.widget.TextView" (mkBounds 0 0 200 50)
                      (Some "title") None true false true true)
                   (mkBounds 10 20 210 70) (Some (mkBounds 10 20 500 500))
                   2 1 "")).
  unfold natural_bounds. simpl. lia.
Defined.

End TextFacts.

(** ** The geometry parser: sizes and the second size check *)

Module SizeFacts.

Import VH VHSpec VHInv ParseShape.
Local Open Scope Z_scope.

(** X4. Shifting bounds by a parent's top-left corner keeps their width and
    height, and shifting twice is shifting by the parent that was itself
    shifted: absolute bounds are the relative bounds moved by the sum of the
    offsets above. *)
Theorem shift_keeps_size_and_composes (a b c : Bounds) :
  size (calculate_absolute_bounds a c) = size c
  /\ calculate_absolute_bounds (calculate_absolute_bounds a b) c
     = calculate_absolute_bounds a (calculate_absolute_bounds b c)
  /\ (left (calculate_absolute_bounds a c) = left a + left c
      /\ top (calculate_absolute_bounds a c) = top a + top c).
Proof.
  unfold size, calculate_absolute_bounds. simpl.
  split; [f_equal; lia|]. split; [f_equal; lia|]. split; reflexivity.
Qed.

Lemma place_adds st line indent li :
  should_filter li = false ->
  exists vi,
    views (place st line indent li) = (views st ++ [vi])%list
    /\ vi_line vi = li
    /\ vi_indent vi = indent
    /\ size (vi_absolute_bounds vi) = size (li_bounds li)
    /\ List.length (store (place st line indent li))
       = S (List.length (store st))
    /\ skip_children_until_indent (place st line indent li)
       = skip_children_until_indent st
    /\ nodes_stack (place st line indent li)
       = List.length (store st)
         :: snd (pop_stacks indent (parent_stack st) (nodes_stack st)).
Proof.
  intros Hf. unfold place.
  destruct (pop_stacks indent (parent_stack st) (nodes_stack st)) as [ps ns].
  set (ab := match ps with
             | parent :: _ =>
                 (calculate_absolute_bounds (vi_absolute_bounds parent)
                    (li_bounds li), Some (vi_absolute_bounds parent))
             | [] => (li_bounds li, None)
             end).
  assert (Hsize : size (fst ab) = size (li_bounds li)).
  { subst ab. destruct ps as [|parent ps']; [reflexivity|].
    unfold size, calculate_absolute_bounds. simpl. f_equal; lia. }
  destruct ab as [absolute_bounds parent_bounds]. simpl in Hsize.
  cbn [create_ui_node geom vi_absolute_bounds UIParser.geom_of width height].
  assert (Hz : (right absolute_bounds - left absolute_bounds =? 0)
               && (bottom absolute_bounds - top absolute_bounds =? 0) = false).
  { unfold should_filter in Hf.
    apply orb_false_elim in Hf. destruct Hf as [_ Hf].
    unfold size in Hsize. injection Hsize as -> ->. exact Hf. }
  rewrite Hz. eexists. cbn [views store skip_children_until_indent nodes_stack
                             set_stacks].
  split; [reflexivity|]. split; [reflexivity|]. split; [reflexivity|].
  split; [exact Hsize|]. split; [|split; reflexivity].
  rewrite length_app. simpl.
  destruct ns; unfold add_child; rewrite length_alter; lia.
Qed.

(** X5. The second size check of [parse], made on the absolute bounds,
    never drops a line: a line that passes [_should_filter] always adds one
    view and one node, with absolute bounds of the width and height of its
    relative bounds, and starts no skipping. *)
Theorem absolute_size_check_never_fires (st : State) (line : string)
    (li : LineInfo) :
  examined st line = true ->
  parse_line (Lex.strip line) = Some li ->
  should_filter li = false ->
  exists vi,
    views (step st line) = (views st ++ [vi])%list
    /\ vi_line vi = li
    /\ size (vi_absolute_bounds vi) = size (li_bounds li)
    /\ List.length (store (step st line)) = S (List.length (store st))
    /\ skip_children_until_indent (step st line) < 0.
Proof.
  intros Hex Hp Hf. unfold examined in Hex.
  apply andb_prop in Hex. destruct Hex as [Hig Hsk].
  apply negb_true_iff in Hig. apply negb_true_iff in Hsk.
  unfold step. rewrite Hig, Hsk, Hp, Hf.
  set (st' := if 0 <=? skip_children_until_indent st then set_skip st (-1)
              else st).
  destruct (place_adds st' line (indent_of line) li Hf)
    as (vi & Hv & Hl & _ & Hs & Hn & Hk & _).
  exists vi.
  assert (Hst : views st' = views st /\ store st' = store st
                /\ skip_children_until_indent st' < 0).
  { subst st'. destruct (0 <=? skip_children_until_indent st) eqn:E.
    - simpl. repeat split.
    - repeat split. apply Z.leb_gt in E. exact E. }
  destruct Hst as (Hv' & Hs' & Hk').
  rewrite Hv, Hn, Hk, Hv', Hs'. repeat split; assumption.
Qed.

Lemma absolute_size_check_never_fires_witness :
  exists vi,
    views (step init Samples5.title_line) = ([] ++ [vi])%list
    /\ vi_line vi = Samples5.title_info
    /\ size (vi_absolute_bounds vi) = size (li_bounds Samples5.title_info)
    /\ List.length (store (step init Samples5.title_line)) = 2%nat
    /\ skip_children_until_indent (step init Samples5.title_line) < 0.
Proof.
  apply (absolute_size_check_never_fires init Samples5.title_line
           Samples5.title_info); vm_compute; reflexivity.
Defined.

End SizeFacts.

(** ** The match score is symmetric *)

Module SymmetryFacts.

Import Score.

Lemma similar_class_names_sym c1 c2 :
  similar_class_names c1 c2 = similar_class_names c2 c1.
Proof.
  unfold similar_class_names. rewrite (String.eqb_sym c2 c1).
  destruct (String.eqb c1 c2); [reflexivity|].
  induction type_groups as [|g l IH]; [reflexivity|].
  simpl. rewrite IH, (andb_comm (in_group c1 (g.2))). reflexivity.
Qed.

Lemma attr_score_sym a b : attr_score a b = attr_score b a.
Proof.
  unfold attr_score, score_attrs, attr_agree. simpl.
  repeat match goal with
         | |- context [bool_decide (?f a = ?f b)] =>
             replace (bool_decide (f a = f b)) with (bool_decide (f b = f a))
               by (apply bool_decide_ext; split; congruence)
         end.
  reflexivity.
Qed.

(** X6. The match score does not depend on which of the two nodes is the
    geometry node: swapping them gives the same score, in binary64 as
    computed and in exact arithmetic; class similarity is symmetric. *)
Theorem match_score_symmetric (a b : Tree) (has_same_id : bool) :
  Binary64.calculate_match_score a b has_same_id
  = Binary64.calculate_match_score b a has_same_id
  /\ Score.calculate_match_score a b has_same_id
     = Score.calculate_match_score b a has_same_id
  /\ (forall c1 c2, similar_class_names c1 c2 = similar_class_names c2 c1).
Proof.
  split; [|split; [|exact similar_class_names_sym]].
  - unfold Binary64.calculate_match_score. cbv zeta.
    rewrite (String.eqb_sym (Str.split_last "." (class_ (data b)))),
      (similar_class_names_sym (Str.split_last "." (class_ (data b)))),
      (Nat.eqb_sym (List.length (children b))),
      (Nat.min_comm (List.length (children b))),
      (Nat.max_comm (List.length (children b))),
      (andb_comm (0 <? List.length (children b))%nat),
      (attr_score_sym (data b)).
    reflexivity.
  - unfold Score.calculate_match_score, class_term, child_term, attr_term.
    cbv zeta.
    rewrite (String.eqb_sym (Str.split_last "." (class_ (data b)))),
      (similar_class_names_sym (Str.split_last "." (class_ (data b)))),
      (Nat.eqb_sym (List.length (children b))),
      (Nat.min_comm (List.length (children b))),
      (Nat.max_comm (List.length (children b))),
      (andb_comm (0 <? List.length (children b))%nat),
      (attr_score_sym (data b)).
    reflexivity.
Qed.

End SymmetryFacts.

(** ** What a merge leaves of the geometry tree *)

Module MergeShapeFacts.

Import Hybrid Merge MergeShape MergeFacts.

Lemma erase_supplement d ui : erase (supplement_text_info d ui) = erase d.
Proof.
  unfold supplement_text_info.
  destruct (if Str.nonempty (content_desc ui) then _ else _). reflexivity.
Qed.

Lemma erase_unmatched d : erase (set_unmatched d) = erase d.
Proof. reflexivity. Qed.

Lemma merge_each_skeleton sc l ctx :
  Forall (fun vh => forall self ctx,
            skeleton (fst (match_and_merge sc self vh ctx)) = skeleton vh) l ->
  forall self,
    List.map skeleton (fst (merge_each sc self l ctx)) = List.map skeleton l.
Proof.
  induction 1 as [|vh rest Hvh _ IH]; intros self; [reflexivity|].
  cbn [merge_each]. specialize (Hvh self ctx).
  destruct (match_and_merge sc self vh ctx) as [vh' self1]. simpl in Hvh.
  specialize (IH self1).
  destruct (merge_each sc self1 rest ctx) as [rest' self2]. simpl in *.
  rewrite Hvh, IH. reflexivity.
Qed.

Lemma match_and_merge_skeleton sc vh :
  forall self ctx, skeleton (fst (match_and_merge sc self vh ctx)) = skeleton vh.
Proof.
  induction vh as [d ch IH] using Tree_ind'. intros self ctx.
  rewrite match_and_merge_unfold.
  destruct (find_best_match sc self (Node d ch) ctx) as [[m|] self1]; cbv zeta.
  - pose proof (merge_each_skeleton sc ch (Some m) IH
                  (count_matched self1 (Matched (class_ d) (resource_id d) m)))
      as H.
    destruct (merge_each sc _ ch (Some m)) as [ch' self3]. simpl in *.
    rewrite H, erase_supplement. reflexivity.
  - pose proof (merge_each_skeleton sc ch ctx IH
                  (count_unmatched self1 (Unmatched (class_ d) (resource_id d))))
      as H.
    destruct (merge_each sc _ ch ctx) as [ch' self3]. simpl in *.
    rewrite H. reflexivity.
Qed.

(** X7. A merge never changes the geometry: the tree it returns has the
    shape of the anchored geometry tree, and every node keeps its class,
    bounds text, package, index and geometry keys. *)
Theorem merge_keeps_geometry (sc : Scoring) :
  (forall self vh ctx,
     skeleton (fst (match_and_merge sc self vh ctx)) = skeleton vh)
  /\ (forall self vh ui,
        option_map skeleton (fst (merge_trees sc (with_trees self vh ui)))
        = Some (skeleton (anchored vh))).
Proof.
  split; [intros; apply match_and_merge_skeleton|].
  intros self vh ui. rewrite MergeProps.merge_trees_with_trees. cbv zeta.
  simpl. rewrite match_and_merge_skeleton. reflexivity.
Qed.

Lemma merge_each_flags sc l ctx :
  Forall (fun vh => forall self ctx,
            let r := match_and_merge sc self vh ctx in
            (matched_count (snd r)
             = matched_count self + count_nodes (flagged true) (fst r)
             /\ unmatched_count (snd r)
                = unmatched_count self + count_nodes (flagged false) (fst r))%nat)
         l ->
  forall self,
    let r := merge_each sc self l ctx in
    (matched_count (snd r)
     = matched_count self
       + list_sum (List.map (count_nodes (flagged true)) (fst r))
     /\ unmatched_count (snd r)
        = unmatched_count self
          + list_sum (List.map (count_nodes (flagged false)) (fst r)))%nat.
Proof.
  induction 1 as [|vh rest Hvh _ IH]; intros self; [simpl; lia|].
  cbn [merge_each]. specialize (Hvh self ctx). cbv zeta in Hvh.
  destruct (match_and_merge sc self vh ctx) as [vh' self1]. simpl in Hvh.
  specialize (IH self1). cbv zeta in IH.
  destruct (merge_each sc self1 rest ctx) as [rest' self2]. simpl in *. lia.
Qed.

Lemma match_and_merge_flags sc vh :
  forall self ctx,
    let r := match_and_merge sc self vh ctx in
    (matched_count (snd r)
     = matched_count self + count_nodes (flagged true) (fst r)
     /\ unmatched_count (snd r)
        = unmatched_count self + count_nodes (flagged false) (fst r))%nat.
Proof.
  induction vh as [d ch IH] using Tree_ind'. intros self ctx. cbv zeta.
  rewrite match_and_merge_unfold.
  destruct (find_best_match sc self (Node d ch) ctx) as [[m|] self1] eqn:E;
    cbv zeta.
  - apply find_best_match_some in E as (-> & _ & _).
    pose proof (merge_each_flags sc ch (Some m) IH
                  (count_matched (mark_node_used self m)
                     (Matched (class_ d) (resource_id d) m))) as H.
    cbv zeta in H. destruct (merge_each sc _ ch (Some m)) as [ch' self3].
    cbn [fst snd count_nodes] in *.
    destruct (SupplementFacts.supplement_marks d (data (ref_node m)))
      as (_ & Hm & _).
    assert (Ht : flagged true (supplement_text_info d (data (ref_node m))) = true).
    { unfold flagged. rewrite Hm. reflexivity. }
    assert (Hf : flagged false (supplement_text_info d (data (ref_node m))) = false).
    { unfold flagged. rewrite Hm. reflexivity. }
    rewrite Ht, Hf. unfold count_matched, mark_node_used, set_used in H.
    simpl in H. destruct H as [H1 H2]. rewrite H1, H2. split; lia.
  - apply find_best_match_none in E as ->.
    pose proof (merge_each_flags sc ch ctx IH
                  (count_unmatched self (Unmatched (class_ d) (resource_id d))))
      as H.
    cbv zeta in H. destruct (merge_each sc _ ch ctx) as [ch' self3].
    cbn [fst snd count_nodes] in *.
    change (flagged true (set_unmatched d)) with false.
    change (flagged false (set_unmatched d)) with true.
    unfold count_unmatched in H. simpl in H.
    destruct H as [H1 H2]. rewrite H1, H2. split; lia.
Qed.

(** X8. The counters can be read off the returned tree: a merge raises
    [matched_count] by the number of nodes it leaves with [text_matched]
    true and [unmatched_count] by the number it leaves with [text_matched]
    false, so that after a merge by a new parser the statistics count
    exactly the nodes so marked. *)
Theorem counters_are_the_marks (sc : Scoring) :
  (forall self vh ctx,
     let r := match_and_merge sc self vh ctx in
     (matched_count (snd r)
      = matched_count self + count_nodes (flagged true) (fst r)
      /\ unmatched_count (snd r)
         = unmatched_count self + count_nodes (flagged false) (fst r))%nat)
  /\ (forall vh ui,
        match merge_trees sc (with_trees Hybrid.init vh ui) with
        | (Some merged, self') =>
            stat_matched (get_statistics self')
            = count_nodes (flagged true) merged
            /\ stat_unmatched (get_statistics self')
               = count_nodes (flagged false) merged
        | (None, _) => False
        end).
Proof.
  split; [intros; apply match_and_merge_flags|].
  intros vh ui. rewrite MergeProps.merge_trees_with_trees. cbv zeta.
  set (r := match_and_merge sc _ _ _).
  pose proof (match_and_merge_flags sc (anchored vh)
                (set_index (with_trees Hybrid.init vh ui)
                   (build_ui_index
                      (ref_path match find_content_node [] ui with
                                | Some r => r
                                | None => mkRef [] ui
                                end)
                      (ref_node match find_content_node [] ui with
                                | Some r => r
                                | None => mkRef [] ui
                                end)
                      (ui_node_map Hybrid.init)))
                (Some match find_content_node [] ui with
                      | Some r => r
                      | None => mkRef [] ui
                      end)) as H.
  cbv zeta in H. fold r in H. simpl in H. simpl. exact H.
Qed.

End MergeShapeFacts.

(** ** Resource ids: suffixes and the content anchor *)

Module IdFacts.

Import Hybrid.
Local Open Scope string_scope.

Lemma split_aux_nonempty sep s : forall skip cur, Str.split_aux sep s skip cur <> [].
Proof.
  induction s as [|c s IH]; intros skip cur; cbn [Str.split_aux];
    [intros E; discriminate E|].
  destruct skip; [|apply IH].
  destruct (String.prefix sep (String c s)); [intros E; discriminate E|apply IH].
Qed.

Lemma last_cons_nonempty {A} (x : A) l d : l <> [] -> List.last (x :: l) d = List.last l d.
Proof. destruct l; [contradiction|reflexivity]. Qed.

(** the last piece of a split is an end of the text *)
Lemma split_aux_last_suffix sep s :
  forall skip cur,
    skip = 0%nat \/ cur = "" ->
    exists pre, Str.rev cur ++ s = pre ++ List.last (Str.split_aux sep s skip cur) "".
Proof.
  induction s as [|c s IH]; intros skip cur H.
  - exists "". simpl. apply StrFacts.append_nil_r.
  - cbn [Str.split_aux]. destruct skip as [|k].
    + destruct (String.prefix sep (String c s)).
      * rewrite last_cons_nonempty by apply split_aux_nonempty.
        destruct (IH (String.length sep - 1)%nat "" (or_intror eq_refl))
          as [pre Hpre].
        exists (Str.rev cur ++ String c pre). rewrite StrFacts.append_assoc.
        change (Str.rev "" ++ s) with s in Hpre.
        f_equal. rewrite Hpre at 1. reflexivity.
      * destruct (IH 0%nat (String c cur) (or_introl eq_refl)) as [pre Hpre].
        exists pre. rewrite <- Hpre, StrFacts.rev_cons, StrFacts.append_assoc.
        reflexivity.
    + destruct H as [H|H]; [discriminate|]. subst cur.
      destruct (IH k "" (or_intror eq_refl)) as [pre Hpre].
      exists (String c pre). change (Str.rev "" ++ s) with s in Hpre.
      change (Str.rev "" ++ String c s) with (String c s).
      rewrite Hpre at 1. reflexivity.
Qed.

(** a text without the separator is its own only piece *)
Lemma split_aux_no_sep sep s :
  forall cur, Str.contains sep s = false ->
              Str.split_aux sep s 0 cur = [Str.rev cur ++ s].
Proof.
  induction s as [|c s IH]; intros cur H.
  - simpl. rewrite StrFacts.append_nil_r. reflexivity.
  - cbn [Str.split_aux]. cbn [Str.contains] in H.
    destruct (String.prefix sep (String c s)); [discriminate|].
    rewrite (IH _ H), StrFacts.rev_cons, StrFacts.append_assoc. reflexivity.
Qed.

Lemma contains_app_r sub a s :
  Str.contains sub s = true -> Str.contains sub (a ++ s) = true.
Proof.
  intros H. apply StrFacts.contains_spec in H as (x & y & ->).
  apply StrFacts.contains_spec. exists (a ++ x), y.
  rewrite StrFacts.append_assoc. reflexivity.
Qed.

Lemma substring_prefix s :
  forall m, (m <= String.length s)%nat ->
            exists post, s = String.substring 0 m s ++ post.
Proof.
  induction s as [|c s IH]; intros m H.
  - simpl in H. assert (m = 0%nat) by lia. subst. exists "". reflexivity.
  - destruct m as [|m].
    + exists (String c s). reflexivity.
    + simpl in H. destruct (IH m ltac:(lia)) as [post E].
      exists post. rewrite E at 1. reflexivity.
Qed.

Lemma substring_inside s :
  forall n m, (n + m <= String.length s)%nat ->
              exists pre post, s = pre ++ String.substring n m s ++ post.
Proof.
  induction s as [|c s IH]; intros n m H.
  - simpl in H. assert (n = 0%nat) by lia. assert (m = 0%nat) by lia. subst.
    exists "", "". reflexivity.
  - destruct n as [|n].
    + destruct (substring_prefix (String c s) m ltac:(simpl in *; lia))
        as [post E].
      exists "", post. exact E.
    + simpl in H. destruct (IH n m ltac:(lia)) as (pre & post & E).
      exists (String c pre), post. rewrite E at 1. reflexivity.
Qed.

Lemma endswith_contains suf s :
  Str.endswith suf s = true -> Str.contains suf s = true.
Proof.
  unfold Str.endswith. intros H. apply andb_prop in H. destruct H as [Hk He].
  apply Nat.leb_le in Hk. apply String.eqb_eq in He.
  destruct (substring_inside s (String.length s - String.length suf)
              (String.length suf) ltac:(lia)) as (pre & post & E).
  rewrite He in E. apply StrFacts.contains_spec. eauto.
Qed.

(** The test of [_find_content_node] is the test ['content' in
    resource_id]: the emptiness test and the [:id/content] ending add
    nothing to it. *)
Lemma is_content_id_contains rid :
  is_content_id rid = Str.contains "content" rid.
Proof.
  unfold is_content_id. destruct rid as [|c r]; [reflexivity|].
  cbn [Str.nonempty andb].
  destruct (Str.contains "content" (String c r)) eqn:E; [reflexivity|].
  destruct (Str.endswith ":id/content" (String c r)) eqn:E'; [|reflexivity].
  apply endswith_contains in E'.
  assert (Str.contains "content" (String c r) = true).
  { apply StrFacts.contains_spec in E' as (a & b & ->).
    apply StrFacts.contains_spec. exists (a ++ ":id/"), b.
    rewrite !StrFacts.append_assoc. reflexivity. }
  congruence.
Qed.

(** X9. [_extract_id_suffix] gives nothing for the empty id and nothing
    else; what it gives for a non-empty id is an ending of that id, and an
    id without [/] is its own suffix. *)
Theorem id_suffix_is_an_ending (full_id : string) :
  match extract_id_suffix full_id with
  | None => full_id = ""
  | Some suffix =>
      full_id <> ""
      /\ (exists pre, full_id = pre ++ suffix)
      /\ (Str.contains "/" full_id = false -> suffix = full_id)
  end.
Proof.
  unfold extract_id_suffix. destruct full_id as [|c s]; [reflexivity|].
  cbn [Str.nonempty negb].
  assert (Hlast : forall sep,
            exists pre, String c s = pre ++ Str.split_last sep (String c s)).
  { intros sep. unfold Str.split_last, Str.split.
    destruct (split_aux_last_suffix sep (String c s) 0 "" (or_introl eq_refl))
      as [pre H].
    exists pre. exact H. }
  destruct (Str.contains ":id/" (String c s)) eqn:E1.
  - split; [discriminate|]. split; [apply Hlast|].
    intros Hno. apply StrFacts.contains_spec in E1 as (a & b & E).
    assert (Str.contains "/" (String c s) = true).
    { apply StrFacts.contains_spec. exists (a ++ ":id"), b. rewrite E.
      rewrite !StrFacts.append_assoc. reflexivity. }
    congruence.
  - destruct (Str.contains "/" (String c s)) eqn:E2.
    + split; [discriminate|]. split; [apply Hlast|]. discriminate.
    + split; [discriminate|]. split; [exists ""; reflexivity|]. reflexivity.
Qed.

Lemma span_all p s : Forall (fun c => p c = true) (list_ascii_of_string (fst (Lex.span p s))).
Proof.
  induction s as [|c s IH]; simpl; [constructor|].
  destruct (p c) eqn:E; [|constructor].
  destruct (Lex.span p s) as [a b]. simpl in *. constructor; assumption.
Qed.

Lemma match_id_chars s name :
  VH.match_id s = Some name ->
  Forall (fun c => Lex.is_id_char c = true) (list_ascii_of_string name).
Proof.
  unfold VH.match_id. intros H.
  repeat match type of H with
         | (?m ≫= _) = Some _ =>
             let E := fresh "E" in
             destruct m as [[? ?]|] eqn:E; simpl in H; [|discriminate]
         | (?m ≫= _) = Some _ =>
             let E := fresh "E" in
             destruct m as [?|] eqn:E; simpl in H; [|discriminate]
         end.
  injection H as <-.
  match goal with
  | E : Lex.span1 Lex.is_id_char ?x = Some (?a, ?b) |- _ =>
      unfold Lex.span1 in E; pose proof (span_all Lex.is_id_char x) as Hall;
      destruct (Lex.span Lex.is_id_char x) as [a' b'];
      destruct (Str.nonempty a'); [|discriminate];
      injection E as <- <-; exact Hall
  end.
Qed.

(** a name of id characters holds no [:] and no [/] *)
Lemma id_chars_no_sep c sep name :
  Lex.is_id_char c = false ->
  Forall (fun c => Lex.is_id_char c = true) (list_ascii_of_string name) ->
  Str.contains (String c sep) name = false.
Proof.
  intros Hc. induction name as [|a name IH]; intros H; [reflexivity|].
  simpl in H. apply Forall_cons in H. destruct H as [Ha H].
  cbn [Str.contains String.prefix].
  destruct (ascii_dec c a) as [->|_]; [congruence|]. apply IH, H.
Qed.

Lemma app_id_split name :
  Str.split ":id/" ("app:id/" ++ name) = "app" :: Str.split_aux ":id/" name 0 "".
Proof. destruct name; reflexivity. Qed.

Lemma app_id_suffix name :
  Forall (fun c => Lex.is_id_char c = true) (list_ascii_of_string name) ->
  extract_id_suffix ("app:id/" ++ name) = Some name.
Proof.
  intros H. unfold extract_id_suffix.
  assert (Hc : Str.contains ":id/" ("app:id/" ++ name) = true).
  { apply StrFacts.contains_spec. exists "app", name. reflexivity. }
  rewrite Hc. change (Str.nonempty ("app:id/" ++ name)) with true.
  cbn [negb]. f_equal. unfold Str.split_last. rewrite app_id_split.
  rewrite split_aux_no_sep by (apply id_chars_no_sep; [reflexivity|exact H]).
  reflexivity.
Qed.

Lemma app_id_content name :
  Str.contains "content" ("app:id/" ++ name) = Str.contains "content" name.
Proof. destruct name; reflexivity. Qed.

(** X10. The id a dump line names comes back from the node built for the
    line: [_create_ui_node] writes [app:id/] before the name, one way for
    every name, [_extract_id_suffix] of that id is the name again, and the
    id counts as a content id exactly when the name contains [content]; a
    line without an id gives a node with the empty id, which has no
    suffix. *)
Theorem dump_id_round_trip (line : string) (li : VH.LineInfo)
    (view_info : VH.ViewInfo) :
  VH.parse_line line = Some li ->
  VH.vi_line view_info = li ->
  let node_id := resource_id (VH.create_ui_node view_info) in
  match VH.li_resource_id li with
  | Some name =>
      node_id = "app:id/" ++ name
      /\ extract_id_suffix node_id = Some name
      /\ is_content_id node_id = Str.contains "content" name
  | None => node_id = "" /\ extract_id_suffix node_id = None
  end.
Proof.
  intros Hp Hv. cbv zeta. unfold VH.create_ui_node. cbn [resource_id].
  rewrite Hv. destruct (VH.li_resource_id li) as [name|] eqn:E;
    [|split; reflexivity].
  rewrite (VHFacts.parse_line_id _ _ _ Hp E).
  assert (Hid : (if String.eqb name "content" then "app:id/content"
                 else "app:id/" ++ name) = "app:id/" ++ name).
  { destruct (String.eqb name "content") eqn:Ec; [|reflexivity].
    apply String.eqb_eq in Ec. subst name. reflexivity. }
  rewrite Hid. split; [reflexivity|].
  assert (Hchars : Forall (fun c => Lex.is_id_char c = true)
                     (list_ascii_of_string name)).
  { unfold VH.parse_line in Hp.
    destruct (Lex.span1 Lex.is_class_char line) as [[cls rest]|]; [|discriminate].
    destruct (Lex.search VH.match_bounds line); [|discriminate].
    injection Hp as <-. simpl in E.
    apply VHFacts.search_some in E as [s' E]. eapply match_id_chars, E. }
  split; [apply app_id_suffix, Hchars|].
  rewrite is_content_id_contains. apply app_id_content.
Qed.

Lemma dump_id_round_trip_witness :
  let node_id :=
    resource_id
      (VH.create_ui_node
         (VH.mkView Samples5.title_info (mkBounds 0 0 100 50) None 2 0
            Samples5.title_line)) in
  node_id = "app:id/" ++ "title"
  /\ extract_id_suffix node_id = Some "title"
  /\ is_content_id node_id = Str.contains "content" "title".
Proof.
  apply (dump_id_round_trip (Lex.strip Samples5.title_line) Samples5.title_info
           (VH.mkView Samples5.title_info (mkBounds 0 0 100 50) None 2 0
              Samples5.title_line)).
  - vm_compute. reflexivity.
  - reflexivity.
Defined.

(** X11. [_find_content_node] returns the first node, in pre-order, whose
    resource id contains [content], and nothing exactly when no node's id
    does. *)
Theorem content_node_is_first_in_preorder (t : Tree) (path : list nat) :
  find_content_node path t
  = List.head
      (List.filter
         (fun r => Str.contains "content" (resource_id (data (ref_node r))))
         (preorder path t)).
Proof.
  revert path. induction t as [d ch IH] using Tree_ind'. intros path.
  cbn [find_content_node preorder List.filter ref_node data].
  rewrite is_content_id_contains.
  destruct (Str.contains "content" (resource_id d)); [reflexivity|].
  generalize 0%nat as i.
  induction IH as [|c rest Hc _ IHrest]; intros i; [reflexivity|].
  rewrite Hc, List.filter_app.
  destruct (List.filter _ (preorder (path ++ [i]) c)) as [|r l]; simpl.
  - apply IHrest.
  - reflexivity.
Qed.

End IdFacts.

(** ** Counting and searching *)

Module ToolFacts.

Import Tool.
Local Open Scope string_scope.

Lemma countElements_size t : countElements t = List.length (tree_nodes t).
Proof.
  induction t as [d ch IH] using Tree_ind'.
  rewrite HitTestFacts.tree_nodes_Node. cbn [countElements List.length].
  assert (Hloop : forall count,
    (fix each (l : list Tree) (count : nat) : nat :=
       match l with
       | [] => count
       | child :: rest => each rest (count + countElements child)%nat
       end) ch count
    = (count + List.length (List.flat_map tree_nodes ch))%nat).
  { induction IH as [|c rest Hc _ IHrest]; intros count; simpl; [lia|].
    rewrite IHrest, Hc, length_app. lia. }
  rewrite Hloop. reflexivity.
Qed.

Lemma Element_ind' (P : UIParser.Element -> Prop) :
  (forall attrs elems, Forall P elems -> P (UIParser.Elem attrs elems)) ->
  forall e, P e.
Proof.
  intros step. fix IH 1. intros [attrs elems]. apply step.
  induction elems as [|c elems IHe]; constructor; [apply IH | exact IHe].
Qed.

Lemma parse_node_nodes e :
  List.length (tree_nodes (UIParser.parse_node e)) = element_count e.
Proof.
  induction e as [attrs elems IH] using Element_ind'.
  cbn [UIParser.parse_node element_count].
  rewrite HitTestFacts.tree_nodes_Node. cbn [List.length]. f_equal.
  induction IH as [|c rest Hc _ IHrest]; [reflexivity|].
  cbn [List.map List.flat_map list_sum]. rewrite length_app, Hc, IHrest.
  reflexivity.
Qed.

(** X12. [countElements] counts every node of the tree once, and the tree
    [UIParser] builds has one node for every element of the document: the
    number of controls reported after a UIAutomator analysis is the number
    of elements of the dump. *)
Theorem count_is_number_of_elements :
  (forall t, countElements t = List.length (tree_nodes t))
  /\ (forall t, countElements t = tree_size t)
  /\ (forall e, countElements (UIParser.parse_node e) = element_count e).
Proof.
  split; [exact countElements_size|]. split.
  - intros t. rewrite countElements_size.
    induction t as [d ch IH] using Tree_ind'.
    rewrite HitTestFacts.tree_nodes_Node. cbn [List.length tree_size]. f_equal.
    induction IH as [|c rest Hc _ IHrest]; [reflexivity|].
    cbn [List.map List.flat_map list_sum]. rewrite length_app, Hc, IHrest.
    reflexivity.
  - intros e. rewrite countElements_size. apply parse_node_nodes.
Qed.







End ToolFacts.

(** ** The geometry tree lists the views in dump order *)

Module ParseOrderFacts.

Import VH VHSpec VHInv ParseShape.

Lemma rep_Node store lo hi id d ts :
  rep store lo hi id (Node d ts)
  <-> (lo <= id < hi)%nat
      /\ exists ch, store !! id = Some (d, ch)
                    /\ Forall2 (rep store lo hi) ch ts.
Proof.
  cbn [rep].
  assert (H : forall ch,
    (fix all (ch : list nat) (ts : list Tree) {struct ts} : Prop :=
       match ch, ts with
       | [], [] => True
       | c :: ch', t' :: ts' => rep store lo hi c t' /\ all ch' ts'
       | _, _ => False
       end) ch ts
    <-> Forall2 (rep store lo hi) ch ts).
  { induction ts as [|t ts IH]; intros [|c ch].
    - split; [constructor|exact (fun _ => I)].
    - split; [contradiction|intros H; inversion H].
    - split; [contradiction|intros H; inversion H].
    - split.
      + intros [H1 H2]. constructor; [exact H1|apply IH, H2].
      + intros H. inversion H; subst. split; [assumption|]. apply IH. assumption. }
  split; intros (Hr & ch & Hl & Ha); (split; [exact Hr|]); exists ch;
    (split; [exact Hl|]); apply H, Ha.
Qed.

Lemma rep_mono store lo hi lo' hi' t :
  (lo' <= lo)%nat -> (hi <= hi')%nat ->
  forall id, rep store lo hi id t -> rep store lo' hi' id t.
Proof.
  intros Hlo Hhi. induction t as [d ts IH] using Tree_ind'. intros id H.
  apply rep_Node in H as (Hr & ch & Hl & F). apply rep_Node.
  split; [lia|]. exists ch. split; [exact Hl|].
  clear Hl. revert ch F. induction IH as [|t ts Ht _ IHts]; intros ch F;
    inversion F; subst; constructor; auto.
Qed.

Lemma rep_agree store store' lo hi t :
  (forall i, (lo <= i < hi)%nat -> store' !! i = store !! i) ->
  forall id, rep store lo hi id t -> rep store' lo hi id t.
Proof.
  intros Hag. induction t as [d ts IH] using Tree_ind'. intros id H.
  apply rep_Node in H as (Hr & ch & Hl & F). apply rep_Node.
  split; [exact Hr|]. exists ch. split; [rewrite Hag; assumption|].
  clear Hl. revert ch F. induction IH as [|t ts Ht _ IHts]; intros ch F;
    inversion F; subst; constructor; auto.
Qed.

Lemma spine_agree store store' frames :
  forall open bound,
    (forall i, (i < bound)%nat -> store' !! i = store !! i) ->
    spine store open bound frames -> spine store' open bound frames.
Proof.
  induction frames as [|f below IH]; intros open bound Hag H; [exact I|].
  destruct H as (Hl & F & Hb & Hs). cbn [spine].
  split; [rewrite Hag; assumption|]. split.
  - eapply Forall2_impl; [exact F|]. intros c t. apply rep_agree.
    intros i Hi. apply Hag. lia.
  - split; [exact Hb|]. apply IH; [|exact Hs]. intros i Hi. apply Hag. lia.
Qed.

Lemma nodes_data_Node d ts :
  nodes_data (Node d ts) = d :: List.flat_map nodes_data ts.
Proof.
  unfold nodes_data. rewrite HitTestFacts.tree_nodes_Node. cbn [List.map data].
  f_equal. induction ts as [|t ts IH]; [reflexivity|].
  simpl. rewrite List.map_app, IH. reflexivity.
Qed.

(** the frame below with the top frame made its last complete child *)
Lemma spine_close store hi f g below :
  spine store [] hi (f :: g :: below) ->
  let g' := mkFrame (fr_id g) (fr_data g) (fr_closed g ++ [fr_id f])
              (fr_trees g ++ [Node (fr_data f) (fr_trees f)]) in
  spine store [] hi (g' :: below)
  /\ flat_frames (g' :: below) = flat_frames (f :: g :: below).
Proof.
  intros (Hlf & Ff & Hbf & Hlg & Fg & Hbg & Hs). cbv zeta. split.
  - cbn [spine fr_id fr_data fr_closed fr_trees].
    split; [rewrite app_nil_r; exact Hlg|]. split.
    + apply Forall2_app.
      * eapply Forall2_impl; [exact Fg|]. intros c t. apply rep_mono; lia.
      * constructor; [|constructor]. apply rep_Node. split; [lia|].
        exists (fr_closed f). rewrite app_nil_r in Hlf. split; [exact Hlf|].
        eapply Forall2_impl; [exact Ff|]. intros c t. apply rep_mono; lia.
    + split; [lia|exact Hs].
  - cbn [flat_frames fr_data fr_trees].
    rewrite flat_map_app. cbn [List.flat_map]. rewrite nodes_data_Node, app_nil_r.
    rewrite <- !app_assoc. reflexivity.
Qed.

Lemma spine_pop store hi L indent ps :
  forall ns frames,
    List.length ps = List.length ns ->
    List.map fr_id frames = (ns ++ [root_id])%list ->
    spine store [] hi frames ->
    flat_frames frames = L ->
    exists frames',
      List.map fr_id frames' = (snd (pop_stacks indent ps ns) ++ [root_id])%list
      /\ spine store [] hi frames'
      /\ flat_frames frames' = L
      /\ List.length (fst (pop_stacks indent ps ns))
         = List.length (snd (pop_stacks indent ps ns)).
Proof.
  induction ps as [|p ps IH]; intros ns frames Hlen Hids Hs Hf.
  - exists frames. destruct ns; [|discriminate]. simpl. auto.
  - destruct ns as [|n ns]; [discriminate|]. cbn [pop_stacks tl].
    destruct (indent <=? vi_indent p)%Z.
    + destruct frames as [|f [|g below]]; try discriminate.
      { destruct ns; discriminate. }
      destruct (spine_close store hi f g below Hs) as [Hs' Hf'].
      cbv zeta in Hs', Hf'.
      eapply (IH ns); [simpl in Hlen; lia| |exact Hs'|congruence].
      simpl in Hids. injection Hids as _ Hids. simpl. exact Hids.
    + exists frames. simpl. auto.
Qed.

Lemma spine_ids_below store open bound frames :
  spine store open bound frames ->
  Forall (fun f => (fr_id f < bound)%nat) frames.
Proof.
  revert open bound. induction frames as [|f below IH]; intros open bound H;
    [constructor|].
  destruct H as (_ & _ & Hb & Hs). constructor; [exact Hb|].
  eapply Forall_impl; [apply (IH _ _ Hs)|]. simpl. intros; lia.
Qed.

Lemma map_fst_alter {A B} (g : A * B -> B) p (s : list (A * B)) :
  List.map fst (alter (fun n => (fst n, g n)) p s) = List.map fst s.
Proof.
  revert p. induction s as [|x s IH]; intros p; [reflexivity|].
  destruct p; simpl; [reflexivity|]. f_equal. apply IH.
Qed.

(** a new node appended to the store as the last child of the top frame *)
Lemma spine_push store f below dn :
  let n := List.length store in
  let store' := (add_child (fr_id f) n store ++ [(dn, [])])%list in
  spine store [] n (f :: below) ->
  spine store' [] (S n) (mkFrame n dn [] [] :: f :: below)
  /\ flat_frames (mkFrame n dn [] [] :: f :: below)
     = (flat_frames (f :: below) ++ [dn])%list
  /\ List.map fst store' = (List.map fst store ++ [dn])%list.
Proof.
  intros n store' (Hlf & Ff & Hbf & Hs).
  assert (Hold : forall i, (i < n)%nat -> i <> fr_id f ->
                           store' !! i = store !! i).
  { intros i Hi Hne. subst store'. unfold add_child.
    rewrite lookup_app_l by (rewrite length_alter; exact Hi).
    apply list_lookup_alter_ne. congruence. }
  split; [|split].
  - cbn [spine fr_id fr_data fr_closed fr_trees].
    split.
    { subst store'. unfold add_child.
      rewrite lookup_app_r by (rewrite length_alter; lia).
      rewrite length_alter, Nat.sub_diag. reflexivity. }
    split; [constructor|]. split; [lia|].
    split.
    { subst store'. unfold add_child.
      rewrite lookup_app_l by (rewrite length_alter; exact Hbf).
      rewrite list_lookup_alter_eq, Hlf. simpl. rewrite app_nil_r. reflexivity. }
    split.
    { eapply Forall2_impl; [exact Ff|]. intros c t. apply rep_agree.
      intros i Hi. apply Hold; lia. }
    split; [exact Hbf|].
    eapply spine_agree; [|exact Hs]. intros i Hi. apply Hold; lia.
  - cbn [flat_frames fr_data fr_trees List.flat_map]. reflexivity.
  - subst store'. unfold add_child. rewrite List.map_app. f_equal.
    apply map_fst_alter.
Qed.

Lemma Built_init : Built init [mkFrame root_id create_virtual_root [] []].
Proof.
  constructor; try reflexivity. simpl. repeat split; try constructor.
Qed.

Lemma Built_place st frames line indent li :
  Built st frames -> exists frames', Built (place st line indent li) frames'.
Proof.
  intros [Hids Hs Hf Hv Hl]. unfold place.
  destruct (spine_pop (store st) (List.length (store st))
              (List.map fst (store st)) indent (parent_stack st)
              (nodes_stack st) frames Hl Hids Hs Hf)
    as (fr & Hids' & Hs' & Hf' & Hl').
  destruct (pop_stacks indent (parent_stack st) (nodes_stack st)) as [ps ns].
  simpl in Hids', Hl'.
  destruct (match ps with
            | parent :: _ =>
                (calculate_absolute_bounds (vi_absolute_bounds parent)
                   (li_bounds li), Some (vi_absolute_bounds parent))
            | [] => (li_bounds li, None)
            end) as [absolute_bounds parent_bounds].
  cbv zeta.
  match goal with
  | |- context [create_ui_node ?v] => set (vi := v)
  end.
  destruct (match geom (create_ui_node vi) with
            | Some g => ((width g =? 0) && (height g =? 0))%Z
            | None => false
            end).
  - exists fr. constructor; simpl; assumption.
  - destruct fr as [|f below]; [destruct ns; discriminate|].
    assert (Hp : match ns with
                 | parent_node :: _ =>
                     add_child parent_node (List.length (store st)) (store st)
                 | [] => add_child root_id (List.length (store st)) (store st)
                 end = add_child (fr_id f) (List.length (store st)) (store st)).
    { destruct ns as [|p ns']; simpl in Hids'; injection Hids' as -> _;
        reflexivity. }
    cbn [store set_stacks]. rewrite Hp.
    destruct (spine_push (store st) f below (create_ui_node vi) Hs')
      as (Hs2 & Hf2 & Hm2).
    exists (mkFrame (List.length (store st)) (create_ui_node vi) [] []
            :: f :: below).
    constructor; cbn [nodes_stack store views parent_stack].
    + simpl. simpl in Hids'. rewrite Hids'. reflexivity.
    + replace (List.length (add_child (fr_id f) (List.length (store st)) (store st)
                            ++ [(create_ui_node vi, [])]))
        with (S (List.length (store st)))
        by (unfold add_child; rewrite length_app, length_alter; simpl; lia).
      exact Hs2.
    + rewrite Hf2, Hf', Hm2. reflexivity.
    + rewrite Hm2, Hv, List.map_app. reflexivity.
    + simpl. lia.
Qed.

Lemma Built_set_skip st frames k : Built st frames -> Built (set_skip st k) frames.
Proof. intros [A B C D E]. constructor; assumption. Qed.

Lemma Built_step st frames line :
  Built st frames -> exists frames', Built (step st line) frames'.
Proof.
  intros H. unfold step.
  destruct (ignored line); [eauto|].
  destruct ((0 <=? skip_children_until_indent st)
            && (skip_children_until_indent st <? indent_of line))%Z; [eauto|].
  assert (H' : Built (if (0 <=? skip_children_until_indent st)%Z
                      then set_skip st (-1) else st) frames).
  { destruct (0 <=? skip_children_until_indent st)%Z;
      [apply Built_set_skip|]; exact H. }
  destruct (parse_line (Lex.strip line)) as [li|]; [|eauto].
  destruct (should_filter li).
  - exists frames. apply Built_set_skip, H'.
  - eapply Built_place, H'.
Qed.

Lemma Built_parse_lines lines :
  forall st frames,
    Built st frames -> exists frames', Built (parse_lines st lines) frames'.
Proof.
  induction lines as [|l lines IH]; intros st frames H; simpl; [eauto|].
  destruct (Built_step st frames l H) as [fr H']. eapply IH, H'.
Qed.

Lemma close_flat frames :
  forall inner,
    List.flat_map nodes_data (close inner frames)
    = (flat_frames frames ++ List.flat_map nodes_data inner)%list.
Proof.
  induction frames as [|f below IH]; intros inner; [reflexivity|].
  cbn [close flat_frames]. rewrite IH. cbn [List.flat_map].
  rewrite nodes_data_Node, flat_map_app, app_nil_r, <- !app_assoc.
  reflexivity.
Qed.

Lemma close_rep store HI frames :
  forall open bound inner,
    spine store open bound frames ->
    Forall2 (rep store bound HI) open inner ->
    (bound <= HI)%nat ->
    frames <> [] ->
    exists T,
      close inner frames = [T]
      /\ rep store (List.last (List.map fr_id frames) 0%nat) HI
           (List.last (List.map fr_id frames) 0%nat) T.
Proof.
  induction frames as [|f below IH]; intros open bound inner Hs Hin Hb Hne;
    [contradiction|].
  destruct Hs as (Hl & F & Hlt & Hs). cbn [close].
  assert (Hnode : rep store (fr_id f) HI (fr_id f)
                    (Node (fr_data f) (fr_trees f ++ inner))).
  { apply rep_Node. split; [lia|]. exists (fr_closed f ++ open)%list.
    split; [exact Hl|]. apply Forall2_app.
    - eapply Forall2_impl; [exact F|]. intros c t. apply rep_mono; lia.
    - eapply Forall2_impl; [exact Hin|]. intros c t. apply rep_mono; lia. }
  destruct below as [|g below'].
  - eexists. split; [reflexivity|exact Hnode].
  - destruct (IH [fr_id f] (fr_id f)
                [Node (fr_data f) (fr_trees f ++ inner)] Hs) as (T & HT & HR).
    + constructor; [exact Hnode|constructor].
    + lia.
    + discriminate.
    + exists T. split; [exact HT|exact HR].
Qed.

Lemma tree_of_rep store fuel :
  forall id t', tree_of fuel store id = Some t' ->
                forall lo hi t, rep store lo hi id t -> t' = t.
Proof.
  induction fuel as [|fuel IH]; intros id t' H lo hi t R; [discriminate|].
  cbn [tree_of] in H. destruct t as [d ts].
  apply rep_Node in R as (_ & ch & Hl & F). rewrite Hl in H.
  destruct (mapM (tree_of fuel store) ch) as [ch'|] eqn:E; [|discriminate].
  injection H as <-. f_equal. apply mapM_Some in E.
  clear Hl. revert ts F. induction E as [|c t1 ch ch' Hc _ IHE]; intros ts F;
    inversion F; subst; [reflexivity|].
  f_equal; [eapply IH; eassumption|apply IHE; assumption].
Qed.

Lemma Built_parse text : exists frames, Built (parse text) frames.
Proof. eapply Built_parse_lines, Built_init. Qed.

(** X14. The tree [parse] builds under the virtual root lists the views in
    the order of the dump: its nodes in pre-order are the virtual root and
    then the node of each view [parse] returns, one for one, so that the
    number of views reported is the number of nodes below the virtual
    root; [to_ui_format] returns the only top-level node when there is
    exactly one, and the virtual root otherwise. *)
Theorem tree_lists_views_in_dump_order (text : string) :
  let st := parse text in
  exists root_tree,
    tree_of (List.length (store st)) (store st) root_id = Some root_tree
    /\ nodes_data root_tree
       = create_virtual_root :: List.map create_ui_node (views st)
    /\ result_tree st
       = Some (match children root_tree with
               | [only] => only
               | _ => root_tree
               end)
    /\ Tool.countElements root_tree = S (List.length (views st)).
Proof.
  cbv zeta. destruct (Built_parse text) as [frames [Hids Hs Hf Hv Hl]].
  pose proof (VHTreeFacts.WF_parse text) as Hwf.
  set (st := parse text) in *.
  assert (Hne : frames <> []).
  { intros ->. destruct (nodes_stack st); discriminate. }
  destruct (close_rep (store st) (List.length (store st)) frames [] _ []
              Hs (Forall2_nil_2 _ _ _) (le_n _) Hne) as (T & HT & HR).
  assert (Hlast : List.last (List.map fr_id frames) 0%nat = root_id).
  { rewrite Hids. apply last_last. }
  rewrite Hlast in HR.
  destruct (wf_root _ Hwf) as [chr Hroot].
  destruct (VHTreeFacts.tree_of_ok st Hwf (List.length (store st)) root_id
              _ _ Hroot ltac:(lia)) as (T' & HT' & _ & _).
  assert (T' = T) as -> by (eapply ParseOrderFacts.tree_of_rep; eassumption).
  assert (Hdata : nodes_data T
                  = create_virtual_root :: List.map create_ui_node (views st)).
  { pose proof (close_flat frames []) as Hc. rewrite HT in Hc.
    simpl in Hc. rewrite !app_nil_r in Hc. rewrite Hc, Hf, Hv. reflexivity. }
  exists T. split; [exact HT'|]. split; [exact Hdata|]. split.
  - unfold result_tree, to_ui_format. rewrite Hroot.
    destruct T as [d ts]. apply rep_Node in HR as (_ & ch & Hl' & F).
    rewrite Hroot in Hl'. injection Hl' as <- <-. cbn [children].
    destruct F as [|only t1 ch ts Ht1 F]; [exact HT'|].
    destruct F as [|c2 t2 ch ts Ht2 F]; [|exact HT'].
    destruct t1 as [d1 ts1]. pose proof Ht1 as Ht1'.
    apply rep_Node in Ht1' as (_ & ch1 & Hl1 & _).
    destruct (VHTreeFacts.tree_of_ok st Hwf (List.length (store st)) only
                _ _ Hl1 ltac:(lia)) as (t1' & Ht1'' & _ & _).
    rewrite Ht1''. f_equal. eapply ParseOrderFacts.tree_of_rep; eassumption.
  - rewrite ToolFacts.countElements_size.
    assert (List.length (nodes_data T) = List.length (tree_nodes T))
      by (unfold nodes_data; apply length_map).
    rewrite <- H, Hdata. simpl. rewrite length_map. reflexivity.
Qed.

End ParseOrderFacts.

(** ** The point query: ties and centres *)

Module HitFacts.

Import UIParser HitSpec.
Local Open Scope Z_scope.

Lemma key_lt_area a b :
  is_Some (geom (data a)) -> is_Some (geom (data b)) ->
  key_lt (area a) (area b) = (area_of a <? area_of b).
Proof.
  intros [ga Ha] [gb Hb]. unfold area, area_of. rewrite Ha, Hb. reflexivity.
Qed.

Lemma min_by_area_first rest : forall best,
  Forall (fun e => is_Some (geom (data e))) (best :: rest) ->
  first_least (best :: rest) (min_by_area best rest).
Proof.
  induction rest as [|e rest IH]; intros best Hg.
  - exists [], []. repeat split; constructor.
  - pose proof (Forall_inv Hg) as Hb.
    pose proof (Forall_inv (Forall_inv_tail Hg)) as He.
    cbn [min_by_area]. rewrite (key_lt_area e best He Hb).
    destruct (Z.ltb_spec (area_of e) (area_of best)) as [Hlt|Hge].
    + destruct (IH e (Forall_inv_tail Hg)) as (pre & post & E & Hpre & Hpost).
      set (m := min_by_area e rest) in *.
      assert (Hme : area_of m <= area_of e).
      { destruct pre as [|p pre'].
        - simpl in E. injection E as <- _. lia.
        - simpl in E. injection E as <- _. apply Forall_inv in Hpre. lia. }
      exists (best :: pre), post. split; [simpl; rewrite E; reflexivity|].
      split; [constructor; [lia|exact Hpre]|exact Hpost].
    + assert (Hg' : Forall (fun e => is_Some (geom (data e))) (best :: rest)).
      { constructor; [exact Hb|]. exact (Forall_inv_tail (Forall_inv_tail Hg)). }
      destruct (IH best Hg') as (pre & post & E & Hpre & Hpost).
      set (m := min_by_area best rest) in *.
      destruct pre as [|p pre'].
      * simpl in E. injection E as Em Er.
        exists [], (e :: post). split; [simpl; rewrite <- Em, Er; reflexivity|].
        split; [constructor|]. constructor; [rewrite <- Em; lia|exact Hpost].
      * simpl in E. injection E as <- Er.
        exists (best :: e :: pre'), post.
        split; [simpl; rewrite Er; reflexivity|].
        pose proof (Forall_inv Hpre) as Hmb. cbv beta in Hmb.
        split; [|exact Hpost].
        constructor; [exact Hmb|]. constructor; [lia|].
        exact (Forall_inv_tail Hpre).
Qed.

Lemma containing_have_geometry x y l :
  Forall (fun e => is_Some (geom (data e)))
    (List.filter (node_contains x y) l).
Proof.
  apply Forall_forall. intros n Hn.
  apply list_elem_of_In, filter_In in Hn as [_ Hn].
  unfold node_contains in Hn. destruct (geom (data n)); [eauto|discriminate].
Qed.

(** X15. Among the nodes that contain the point, the query returns the
    first one, in pre-order, of least area: every containing node before it
    is strictly larger.  So of a node and a descendant with the same
    bounds it is the node higher in the tree that is returned. *)
Theorem point_query_tie_goes_to_first (root : Tree) (x y : Z) :
  match find_element_at_point (Some root) x y with
  | Some e =>
      first_least (List.filter (node_contains x y) (tree_nodes root)) e
  | None => List.filter (node_contains x y) (tree_nodes root) = []
  end.
Proof.
  unfold find_element_at_point. rewrite HitTestFacts.find_elements_filter.
  simpl app.
  pose proof (containing_have_geometry x y (tree_nodes root)) as Hg.
  destruct (List.filter (node_contains x y) (tree_nodes root)) as [|e rest];
    [reflexivity|].
  apply min_by_area_first, Hg.
Qed.

(** X16. The centre that [_parse_node] and [_create_ui_node] write for
    bounds with left <= right and top <= bottom lies inside the bounds, so
    the query at the centre of such a node of the tree always returns a
    node, and one no larger than it. *)
Theorem centre_is_inside_and_found (root n : Tree) (l t r b : Z) :
  n ∈ tree_nodes root ->
  geom (data n) = Some (geom_of l t r b) ->
  l <= r -> t <= b ->
  let g := geom_of l t r b in
  contains_point g (center_x g) (center_y g) = true
  /\ exists e,
       find_element_at_point (Some root) (center_x g) (center_y g) = Some e
       /\ area_of e <= area_of n.
Proof.
  intros Hn Hg Hlr Htb g.
  assert (Hc : contains_point g (center_x g) (center_y g) = true).
  { unfold contains_point, g, geom_of. cbn [x1 x2 y1 y2 center_x center_y].
    pose proof (Z.div_le_lower_bound (l + r) 2 l ltac:(lia) ltac:(lia)).
    pose proof (Z.div_le_upper_bound (l + r) 2 r ltac:(lia) ltac:(lia)).
    pose proof (Z.div_le_lower_bound (t + b) 2 t ltac:(lia) ltac:(lia)).
    pose proof (Z.div_le_upper_bound (t + b) 2 b ltac:(lia) ltac:(lia)).
    repeat (apply andb_true_intro; split); apply Z.leb_le; assumption. }
  split; [exact Hc|].
  unfold find_element_at_point. rewrite HitTestFacts.find_elements_filter.
  simpl app.
  assert (Hin : n ∈ List.filter (node_contains (center_x g) (center_y g))
                      (tree_nodes root)).
  { apply list_elem_of_In, filter_In. split; [apply list_elem_of_In, Hn|].
    unfold node_contains. rewrite Hg. exact Hc. }
  pose proof (containing_have_geometry (center_x g) (center_y g)
                (tree_nodes root)) as Hgeo.
  destruct (List.filter _ (tree_nodes root)) as [|e0 rest];
    [apply elem_of_nil in Hin; contradiction|].
  destruct (HitTestFacts.min_by_area_least rest e0 Hgeo) as [_ Hleast].
  eexists. split; [reflexivity|].
  rewrite Forall_forall in Hleast. specialize (Hleast n Hin).
  unfold area_le in Hleast. unfold area_of.
  destruct (geom (data (min_by_area e0 rest))); [|contradiction].
  rewrite Hg in *. exact Hleast.
Qed.

Lemma centre_is_inside_and_found_witness :
  let n := UIParser.parse_node
             (UIParser.Elem [("class", "android.view.View");
                             ("bounds", "[0,0][101,51]")] []) in
  let g := geom_of 0 0 101 51 in
  contains_point g (center_x g) (center_y g) = true
  /\ exists e,
       find_element_at_point (Some n) (center_x g) (center_y g) = Some e
       /\ area_of e <= area_of n.
Proof.
  apply (centre_is_inside_and_found
           (UIParser.parse_node
              (UIParser.Elem [("class", "android.view.View");
                              ("bounds", "[0,0][101,51]")] []))
           (UIParser.parse_node
              (UIParser.Elem [("class", "android.view.View");
                              ("bounds", "[0,0][101,51]")] []))
           0 0 101 51).
  - vm_compute. apply list_elem_of_here.
  - reflexivity.
  - lia.
  - lia.
Defined.

End HitFacts.

(** ** The text sent by [input_text] *)

Module EscapeFacts.

Import ADB.
Local Open Scope string_scope.

Lemma replace_char_app old new a b :
  replace_char old new (a ++ b)
  = replace_char old new a ++ replace_char old new b.
Proof.
  induction a as [|c a IH]; [reflexivity|].
  change (String c a ++ b) with (String c (a ++ b)). cbn [replace_char].
  rewrite IH. destruct (Ascii.eqb c old); [|reflexivity].
  rewrite StrFacts.append_assoc. reflexivity.
Qed.

Lemma escape_cons c s :
  escape_text (String c s)
  = (if Ascii.eqb c space then "%s"
     else if Ascii.eqb c quote then String backslash (String quote "")
     else String c "") ++ escape_text s.
Proof.
  unfold escape_text. cbn [replace_char].
  destruct (Ascii.eqb c space) eqn:Es.
  - rewrite replace_char_app. reflexivity.
  - cbn [replace_char]. destruct (Ascii.eqb c quote); reflexivity.
Qed.

(** X17. The text [input_text] puts between the double quotes of its
    command holds no space; the escaping works character by character, so
    the escaped text of a concatenation is the concatenation of the escaped
    texts, and a space is sent as the two characters [%s] are; backslashes
    are left as they are, and when the text holds none, no double quote
    stands free in what is sent. *)
Theorem input_text_escaping (text : string) :
  free_of space (escape_text text)
  /\ (forall a b, escape_text (a ++ b) = escape_text a ++ escape_text b)
  /\ (forall a b,
        escape_text (a ++ String space b) = escape_text (a ++ "%s" ++ b))
  /\ (forall s, escape_text (String backslash s)
                = String backslash (escape_text s))
  /\ (free_of backslash text -> quotes_escaped (escape_text text) = true).
Proof.
  assert (Happ : forall a b, escape_text (a ++ b) = escape_text a ++ escape_text b).
  { intros a b. unfold escape_text. rewrite !replace_char_app. reflexivity. }
  split; [|split; [exact Happ|split; [|split]]].
  - unfold free_of. induction text as [|c s IH]; [constructor|].
    rewrite escape_cons.
    destruct (Ascii.eqb c space) eqn:Es.
    + simpl. constructor; [discriminate|]. constructor; [discriminate|exact IH].
    + destruct (Ascii.eqb c quote) eqn:Eq.
      * simpl. constructor; [discriminate|]. constructor; [discriminate|exact IH].
      * simpl. constructor; [|exact IH]. intros ->.
        rewrite Ascii.eqb_refl in Es. discriminate.
  - intros a b. rewrite !Happ. f_equal.
  - intros s. rewrite escape_cons. reflexivity.
  - unfold free_of. induction text as [|c s IH]; intros H; [reflexivity|].
    simpl in H. apply Forall_cons in H. destruct H as [Hc H].
    rewrite escape_cons.
    destruct (Ascii.eqb c space) eqn:Es; [exact (IH H)|].
    destruct (Ascii.eqb c quote) eqn:Eq.
    + simpl. exact (IH H).
    + change (quotes_escaped (String c "" ++ escape_text s))
        with (if Ascii.eqb c quote then false
              else if Ascii.eqb c backslash then
                match escape_text s with
                | String _ s'' => quotes_escaped s''
                | EmptyString => true
                end
              else quotes_escaped (escape_text s)).
      rewrite Eq.
      destruct (Ascii.eqb c backslash) eqn:Eb; [|exact (IH H)].
      apply Ascii.eqb_eq in Eb. contradiction.
Qed.

End EscapeFacts.

(** ** The activity whose view hierarchy is looked up *)

Module ActivityFacts.

Import ADB.
Local Open Scope string_scope.

Lemma prefix_char c a s : String.prefix (String c "") (String a s) = Ascii.eqb c a.
Proof.
  cbn [String.prefix]. destruct (ascii_dec c a) as [->|Hne].
  - rewrite Ascii.eqb_refl. destruct s; reflexivity.
  - symmetry. apply Ascii.eqb_neq. exact Hne.
Qed.

Lemma free_of_app c a b : free_of c (a ++ b) <-> free_of c a /\ free_of c b.
Proof.
  unfold free_of. induction a as [|x a IH]; simpl.
  - split; [intros H; split; [constructor|exact H]|intros [_ H]; exact H].
  - rewrite !Forall_cons, IH. tauto.
Qed.

Lemma free_of_contains c sep s :
  free_of c s -> Str.contains (String c sep) s = false.
Proof.
  unfold free_of. induction s as [|a s IH]; intros H; [reflexivity|].
  simpl in H. apply Forall_cons in H. destruct H as [Ha H].
  cbn [Str.contains String.prefix].
  destruct (ascii_dec c a) as [->|_]; [contradiction|]. apply IH, H.
Qed.

Lemma contains_free_of c s :
  Str.contains (String c "") s = false -> free_of c s.
Proof.
  unfold free_of. induction s as [|a s IH]; intros H; [constructor|].
  cbn [Str.contains] in H. rewrite prefix_char in H.
  destruct (Ascii.eqb c a) eqn:E; [discriminate|].
  simpl. constructor; [|apply IH, H].
  intros ->. rewrite Ascii.eqb_refl in E. discriminate.
Qed.

Lemma name_text_free c s :
  is_name_char c = false -> name_text s -> free_of c s.
Proof.
  unfold name_text, free_of. intros Hc H.
  eapply Forall_impl; [exact H|]. simpl. intros a Ha ->. congruence.
Qed.

Lemma name_text_app a b : name_text (a ++ b) <-> name_text a /\ name_text b.
Proof.
  unfold name_text. induction a as [|x a IH]; simpl.
  - split; [intros H; split; [constructor|exact H]|intros [_ H]; exact H].
  - rewrite !Forall_cons, IH. tauto.
Qed.

(** splitting at a character: the text up to its first occurrence is the
    first piece *)
Lemma split_char_first c a b :
  forall cur,
    free_of c a ->
    Str.split_aux (String c "") (a ++ String c b) 0 cur
    = (Str.rev cur ++ a) :: Str.split_aux (String c "") b 0 "".
Proof.
  induction a as [|x a IH]; intros cur H.
  - change ("" ++ String c b) with (String c b).
    cbn [Str.split_aux]. rewrite prefix_char, Ascii.eqb_refl.
    rewrite StrFacts.append_nil_r. reflexivity.
  - unfold free_of in H. simpl in H. apply Forall_cons in H.
    destruct H as [Hx H].
    change (String x a ++ String c b) with (String x (a ++ String c b)).
    cbn [Str.split_aux]. rewrite prefix_char.
    destruct (Ascii.eqb c x) eqn:E.
    { apply Ascii.eqb_eq in E. congruence. }
    rewrite (IH _ H), StrFacts.rev_cons, StrFacts.append_assoc. reflexivity.
Qed.

(** the last piece holds no separator *)
Lemma split_char_last_free c s :
  forall cur,
    free_of c (Str.rev cur) ->
    free_of c (List.last (Str.split_aux (String c "") s 0 cur) "").
Proof.
  induction s as [|x s IH]; intros cur H; [exact H|].
  cbn [Str.split_aux]. rewrite prefix_char.
  destruct (Ascii.eqb c x) eqn:E.
  - rewrite IdFacts.last_cons_nonempty by apply IdFacts.split_aux_nonempty.
    apply IH. constructor.
  - apply IH. rewrite StrFacts.rev_cons. apply free_of_app. split; [exact H|].
    constructor; [|constructor]. intros ->.
    rewrite Ascii.eqb_refl in E. discriminate.
Qed.

Lemma last_app_nonempty {A} (l1 l2 : list A) d :
  l2 <> [] -> List.last (l1 ++ l2) d = List.last l2 d.
Proof.
  intros H. induction l1 as [|x l1 IH]; [reflexivity|].
  change ((x :: l1) ++ l2)%list with (x :: (l1 ++ l2))%list.
  rewrite IdFacts.last_cons_nonempty; [exact IH|].
  destruct l1; [exact H|discriminate].
Qed.

Lemma split_last_after c a b :
  Str.split_last (String c "") (a ++ String c b)
  = Str.split_last (String c "") (String c b).
Proof.
  unfold Str.split_last, Str.split.
  assert (H : forall cur, exists l,
            Str.split_aux (String c "") (a ++ String c b) 0 cur
            = (l ++ Str.split_aux (String c "") b 0 "")%list).
  { induction a as [|x a IH]; intros cur.
    - exists [Str.rev cur]. change ("" ++ String c b) with (String c b).
      cbn [Str.split_aux]. rewrite prefix_char, Ascii.eqb_refl. reflexivity.
    - change (String x a ++ String c b) with (String x (a ++ String c b)).
      cbn [Str.split_aux]. rewrite prefix_char.
      destruct (Ascii.eqb c x).
      + destruct (IH "") as [l Hl]. exists (Str.rev cur :: l).
        simpl. rewrite Hl. reflexivity.
      + apply IH. }
  destruct (H "") as [l ->].
  cbn [Str.split_aux]. rewrite prefix_char, Ascii.eqb_refl.
  simpl Nat.sub.
  rewrite IdFacts.last_cons_nonempty by apply IdFacts.split_aux_nonempty.
  apply last_app_nonempty. apply IdFacts.split_aux_nonempty.
Qed.

Lemma match_component_names s p a :
  match_component s = Some (p, a) ->
  name_text p /\ name_text a /\ Str.nonempty p = true /\ Str.nonempty a = true.
Proof.
  unfold match_component. intros H.
  destruct (Lex.span1 is_name_char s) as [[p' s1]|] eqn:E1;
    cbn [mbind option_bind] in H; [|discriminate].
  destruct (Lex.expect "/" s1) as [s2|] eqn:E2;
    cbn [mbind option_bind] in H; [|discriminate].
  destruct (Lex.span1 is_name_char s2) as [[a' s3]|] eqn:E3;
    cbn [mbind option_bind] in H; [|discriminate].
  injection H as <- <-.
  pose proof (VHFacts.span1_nonempty _ _ _ _ E1) as N1.
  pose proof (VHFacts.span1_nonempty _ _ _ _ E3) as N3.
  unfold Lex.span1 in E1, E3.
  pose proof (IdFacts.span_all is_name_char s) as A1.
  pose proof (IdFacts.span_all is_name_char s2) as A3.
  destruct (Lex.span is_name_char s) as [x1 y1].
  destruct (Lex.span is_name_char s2) as [x3 y3].
  destruct (Str.nonempty x1); [|discriminate].
  destruct (Str.nonempty x3); [|discriminate].
  injection E1 as <- <-. injection E3 as <- <-. auto.
Qed.

(** what [get_current_activity] returns is a package and an activity, both
    of name characters, with a [/] between them *)
Lemma current_activity_shape activities windows full :
  get_current_activity activities windows = Some full ->
  exists p a, full = p ++ "/" ++ a /\ name_text p /\ name_text a.
Proof.
  assert (H1 : forall lines, resumed_activity lines = Some full ->
            exists p a, full = p ++ "/" ++ a /\ name_text p /\ name_text a).
  { induction lines as [|l lines IH]; [discriminate|]. cbn [resumed_activity].
    destruct (_ || _); [|exact IH].
    destruct (Lex.search match_component l) as [[p a]|] eqn:E; [|exact IH].
    apply VHFacts.search_some in E as [s' E].
    apply match_component_names in E as (Hp & Ha & _ & _).
    cbv zeta. intros [= <-].
    exists p, (if String.prefix "." a then p ++ a else a).
    split; [reflexivity|]. split; [exact Hp|].
    destruct (String.prefix "." a); [apply name_text_app; auto|exact Ha]. }
  assert (H2 : forall lines, focused_window lines = Some full ->
            exists p a, full = p ++ "/" ++ a /\ name_text p /\ name_text a).
  { induction lines as [|l lines IH]; [discriminate|]. cbn [focused_window].
    destruct (_ || _); [|exact IH].
    destruct (Lex.search match_component l) as [[p a]|] eqn:E; [|exact IH].
    apply VHFacts.search_some in E as [s' E].
    apply match_component_names in E as (Hp & Ha & _ & _).
    intros [= <-]. exists p, a. auto. }
  unfold get_current_activity. cbv zeta.
  destruct (match activities with Some output => _ | None => None end)
    as [f|] eqn:E.
  - intros [= <-]. destruct activities as [o|]; [|discriminate].
    destruct (Str.nonempty o); [|discriminate]. eapply H1, E.
  - destruct windows as [o|]; [|discriminate].
    destruct (Str.nonempty o); [|discriminate]. apply H2.
Qed.

Lemma activity_name_of_parts p a :
  name_text p -> name_text a ->
  activity_name_of (Some (p ++ "/" ++ a))
  = Some (if Str.contains "." a then Str.split_last "." a else a).
Proof.
  intros Hp Ha. unfold activity_name_of.
  assert (Hne : Str.nonempty (p ++ "/" ++ a) = true) by (destruct p; reflexivity).
  assert (Hc : Str.contains "/" (p ++ "/" ++ a) = true).
  { apply StrFacts.contains_spec. exists p, a. reflexivity. }
  rewrite Hne, Hc. cbn [andb]. cbv zeta.
  unfold Str.split. change (p ++ "/" ++ a) with (p ++ String "/" a).
  rewrite split_char_first by (apply name_text_free; [reflexivity|exact Hp]).
  rewrite IdFacts.split_aux_no_sep
    by (apply free_of_contains, name_text_free; [reflexivity|exact Ha]).
  reflexivity.
Qed.

(** X18. The activity name the view hierarchy is looked up with is the
    last dot-separated part of the activity [get_current_activity]
    reports: it is an ending of the reported name and holds neither a dot
    nor a slash.  Whether the package was put before an activity that
    began with a dot makes no difference to it. *)
Theorem activity_name_is_last_part (activities windows : option string)
    (full : string) :
  get_current_activity activities windows = Some full ->
  (exists name,
     activity_name_of (Some full) = Some name
     /\ Str.contains "." name = false
     /\ Str.contains "/" name = false
     /\ exists pre, full = pre ++ name)
  /\ (forall p a,
        name_text p -> name_text a -> String.prefix "." a = true ->
        activity_name_of (Some (p ++ "/" ++ p ++ a))
        = activity_name_of (Some (p ++ "/" ++ a))).
Proof.
  intros H. split.
  - apply current_activity_shape in H as (p & a & -> & Hp & Ha).
    rewrite (activity_name_of_parts p a Hp Ha). eexists. split; [reflexivity|].
    destruct (Str.contains "." a) eqn:E.
    + assert (Hfree : free_of "." (Str.split_last "." a)).
      { unfold Str.split_last, Str.split. apply split_char_last_free.
        constructor. }
      destruct (IdFacts.split_aux_last_suffix "." a 0 "" (or_introl eq_refl))
        as [pre Hpre].
      change (Str.rev "" ++ a) with a in Hpre.
      fold (Str.split "." a) in Hpre. fold (Str.split_last "." a) in Hpre.
      split; [apply free_of_contains, Hfree|]. split.
      * apply free_of_contains, name_text_free; [reflexivity|].
        rewrite Hpre in Ha. apply name_text_app in Ha. apply Ha.
      * exists (p ++ "/" ++ pre). rewrite Hpre at 1.
        rewrite !StrFacts.append_assoc. reflexivity.
    + split; [exact E|]. split.
      * apply free_of_contains, name_text_free; [reflexivity|exact Ha].
      * exists (p ++ "/"). rewrite StrFacts.append_assoc. reflexivity.
  - intros p a Hp Ha Hdot.
    rewrite (activity_name_of_parts p (p ++ a) Hp)
      by (apply name_text_app; auto).
    rewrite (activity_name_of_parts p a Hp Ha).
    apply StrFacts.prefix_spec in Hdot as [b ->].
    assert (Hc1 : Str.contains "." (p ++ "." ++ b) = true).
    { apply StrFacts.contains_spec. exists p, b. reflexivity. }
    assert (Hc2 : Str.contains "." ("." ++ b) = true).
    { apply StrFacts.contains_spec. exists "", b. reflexivity. }
    rewrite Hc1, Hc2. f_equal.
    change (p ++ "." ++ b) with (p ++ String "." b).
    change ("." ++ b) with (String "." b).
    apply split_last_after.
Qed.

Lemma activity_name_is_last_part_witness :
  (exists name,
     activity_name_of (Some "com.car.app/com.car.app.MainActivity") = Some name
     /\ Str.contains "." name = false
     /\ Str.contains "/" name = false
     /\ exists pre, "com.car.app/com.car.app.MainActivity" = pre ++ name)
  /\ (forall p a,
        name_text p -> name_text a -> String.prefix "." a = true ->
        activity_name_of (Some (p ++ "/" ++ p ++ a))
        = activity_name_of (Some (p ++ "/" ++ a))).
Proof.
  apply (activity_name_is_last_part
           (Some "  mResumedActivity: ActivityRecord{1a2b u0 com.car.app/.MainActivity t12}")
           None "com.car.app/com.car.app.MainActivity").
  vm_compute. reflexivity.
Defined.

End ActivityFacts.

(** ** The text [get_view_hierarchy] cuts out *)

Module HierarchyTextFacts.

Import ADB.
Local Open Scope string_scope.

Lemma drop_drop a : forall b s, drop a (drop b s) = drop (b + a) s.
Proof.
  intros b. induction b as [|b IH]; intros s; [reflexivity|].
  destruct s as [|c s]; simpl; [destruct a; reflexivity|apply IH].
Qed.

Lemma drop_app a x : drop (String.length a) (a ++ x) = x.
Proof. induction a as [|c a IH]; [reflexivity|exact IH]. Qed.

Lemma take_drop n : forall s, take n s ++ drop n s = s.
Proof.
  induction n as [|n IH]; intros s; [reflexivity|].
  destruct s as [|c s]; [reflexivity|]. simpl.
  change (String c (take n s) ++ drop n s) with (String c (take n s ++ drop n s)).
  rewrite IH. reflexivity.
Qed.

Lemma length_drop n : forall s, String.length (drop n s) = (String.length s - n)%nat.
Proof.
  induction n as [|n IH]; intros s; simpl; [lia|].
  destruct s as [|c s]; simpl; [reflexivity|apply IH].
Qed.

Lemma length_take n : forall s, String.length (take n s) = Nat.min n (String.length s).
Proof.
  induction n as [|n IH]; intros s; [reflexivity|].
  destruct s as [|c s]; [reflexivity|]. simpl. rewrite IH. reflexivity.
Qed.

Lemma length_app (a b : string) :
  String.length (a ++ b) = (String.length a + String.length b)%nat.
Proof. induction a as [|c a IH]; [reflexivity|]. simpl. rewrite <- IH. reflexivity. Qed.

Lemma prefix_length sub s :
  String.prefix sub s = true -> (String.length sub <= String.length s)%nat.
Proof.
  intros H. apply StrFacts.prefix_spec in H as [b ->]. rewrite length_app. lia.
Qed.

(** where [find] finds: the text occurs there and nowhere before *)
Lemma find_spec sub s :
  forall k, find sub s = Some k ->
            String.prefix sub (drop k s) = true
            /\ forall i, (i < k)%nat -> String.prefix sub (drop i s) = false.
Proof.
  induction s as [|c s IH]; intros k; cbn [find].
  - destruct (String.prefix sub "") eqn:E; [|discriminate].
    intros [= <-]. split; [exact E|]. intros i Hi. lia.
  - destruct (String.prefix sub (String c s)) eqn:E.
    + intros [= <-]. split; [exact E|]. intros i Hi. lia.
    + destruct (find sub s) as [k'|] eqn:F; [|discriminate].
      intros [= <-]. destruct (IH k' eq_refl) as [H1 H2].
      split; [exact H1|]. intros [|i] Hi; [exact E|]. apply H2. lia.
Qed.

Lemma find_none sub s :
  find sub s = None -> forall i, String.prefix sub (drop i s) = false.
Proof.
  induction s as [|c s IH]; cbn [find].
  - destruct (String.prefix sub "") eqn:E; [discriminate|].
    intros _ [|i]; exact E.
  - destruct (String.prefix sub (String c s)) eqn:E; [discriminate|].
    destruct (find sub s) as [k'|] eqn:F; [discriminate|].
    intros _ [|i]; [exact E|]. apply IH. reflexivity.
Qed.

Lemma find_from_spec sub s start k :
  find_from sub s start = Some k ->
  (start <= k)%nat
  /\ (k + String.length sub <= String.length s)%nat
  /\ String.prefix sub (drop k s) = true
  /\ forall i, (start <= i < k)%nat -> String.prefix sub (drop i s) = false.
Proof.
  unfold find_from. destruct (start <=? String.length s)%nat eqn:L; [|discriminate].
  apply Nat.leb_le in L.
  destruct (find sub (drop start s)) as [j|] eqn:F; [|discriminate].
  intros [= <-]. destruct (find_spec _ _ _ F) as [H1 H2].
  rewrite drop_drop in H1. split; [lia|]. split.
  - apply prefix_length in H1. rewrite length_drop in H1.
    destruct (Nat.le_gt_cases (start + j) (String.length s)) as [Hle|Hgt]; [lia|].
    assert (String.length sub = 0%nat) by lia.
    destruct sub; [|discriminate].
    assert (j = 0%nat); [|lia].
    destruct j as [|j]; [reflexivity|].
    specialize (H2 0%nat ltac:(lia)). simpl in H2.
    destruct (drop start s); discriminate.
  - split; [exact H1|]. intros i Hi.
    replace i with (start + (i - start))%nat by lia.
    rewrite <- drop_drop. apply H2. lia.
Qed.

Lemma find_from_none sub s start i :
  Str.nonempty sub = true ->
  find_from sub s start = None -> (start <= i)%nat ->
  String.prefix sub (drop i s) = false.
Proof.
  unfold find_from. intros Hne H Hi.
  destruct (start <=? String.length s)%nat eqn:L.
  - destruct (find sub (drop start s)) as [j|] eqn:F; [discriminate|].
    replace i with (start + (i - start))%nat by lia.
    rewrite <- drop_drop. apply (find_none _ _ F).
  - apply Nat.leb_gt in L.
    destruct (String.prefix sub (drop i s)) eqn:E; [|reflexivity].
    apply prefix_length in E. rewrite length_drop in E.
    destruct sub; [discriminate|]. simpl in E. lia.
Qed.

(** an occurrence inside a cut is an occurrence in the whole *)
Lemma contains_take_prefix sub n x :
  Str.contains sub (take n x) = true ->
  exists j, (j + String.length sub <= n)%nat
            /\ String.prefix sub (drop j x) = true.
Proof.
  intros H. apply StrFacts.contains_spec in H as (a & b & E).
  exists (String.length a).
  assert (Hx : x = a ++ sub ++ (b ++ drop n x)).
  { rewrite <- (take_drop n x) at 1. rewrite E.
    rewrite !StrFacts.append_assoc. reflexivity. }
  split.
  - assert (L : String.length (take n x) = String.length (a ++ sub ++ b))
      by (rewrite E; reflexivity).
    rewrite length_take, !length_app in L. lia.
  - rewrite Hx at 1. rewrite drop_app. apply StrFacts.prefix_spec. eauto.
Qed.

Lemma contains_prefix_at sub x :
  Str.contains sub x = true ->
  exists j, String.prefix sub (drop j x) = true.
Proof.
  intros H. apply StrFacts.contains_spec in H as (a & b & ->).
  exists (String.length a). rewrite drop_app. apply StrFacts.prefix_spec. eauto.
Qed.

Lemma prefix_take sub n x :
  String.prefix sub x = true -> (String.length sub <= n)%nat ->
  String.prefix sub (take n x) = true.
Proof.
  intros H Hn. apply StrFacts.prefix_spec in H as [b ->].
  apply StrFacts.prefix_spec. exists (take (n - String.length sub) b).
  revert n Hn. induction sub as [|c sub IH]; intros n Hn.
  - simpl. rewrite Nat.sub_0_r. reflexivity.
  - destruct n as [|n]; [simpl in Hn; lia|]. simpl in Hn.
    change (String c sub ++ b) with (String c (sub ++ b)). cbn [take].
    change (String c sub ++ take (S n - String.length (String c sub)) b)
      with (String c (sub ++ take (n - String.length sub) b)).
    f_equal. apply IH. lia.
Qed.

(** no [Looper] begins inside the words [View Hierarchy:] *)
Lemma no_looper_in_marker rest j :
  (j < 15)%nat ->
  String.prefix "Looper" (drop j ("View Hierarchy:" ++ rest)) = false.
Proof.
  intros Hj.
  do 15 (destruct j as [|j]; [reflexivity|]). lia.
Qed.

Lemma loop_ends output target :
  forall fuel start,
    (start <= String.length output)%nat ->
    (String.length output + 1 <= fuel + start)%nat ->
    exists r, hierarchy_loop fuel output target start = Some r.
Proof.
  induction fuel as [|fuel IH]; intros start Hs Hf; [lia|].
  cbn [hierarchy_loop].
  destruct (find_from "View Hierarchy:" output start) as [hs|] eqn:E1; [|eauto].
  destruct (find_from newline output hs) as [n1|]; [|eauto]. cbv zeta.
  destruct (_ && _).
  - destruct (find_from "Looper" output (hs + 1)); eauto.
  - apply find_from_spec in E1 as (H1 & H2 & _). simpl in H2.
    apply IH; lia.
Qed.

Lemma loop_result output target :
  forall fuel start text,
    hierarchy_loop fuel output target start = Some (Some text) ->
    String.prefix "View Hierarchy:" text = true
    /\ Str.contains "Looper" text = false
    /\ exists pre post, output = pre ++ text ++ post.
Proof.
  induction fuel as [|fuel IH]; intros start text; [discriminate|].
  cbn [hierarchy_loop].
  destruct (find_from "View Hierarchy:" output start) as [hs|] eqn:E1;
    [|discriminate].
  destruct (find_from newline output hs) as [n1|]; [|discriminate]. cbv zeta.
  destruct (_ && _); [|apply IH].
  apply find_from_spec in E1 as (_ & Hlen & Hp & _).
  pose proof Hp as Hp'. apply StrFacts.prefix_spec in Hp' as [rest Hrest].
  destruct (find_from "Looper" output (hs + 1)) as [he|] eqn:E2; intros [= <-].
  - apply find_from_spec in E2 as (Hge & _ & Hl & Hmin).
    assert (Hfar : (hs + 15 <= he)%nat).
    { destruct (Nat.le_gt_cases (hs + 15) he) as [|Hlt]; [assumption|].
      replace he with (hs + (he - hs))%nat in Hl by lia.
      rewrite <- drop_drop, Hrest, no_looper_in_marker in Hl by lia.
      discriminate. }
    unfold slice. split; [apply prefix_take; [exact Hp|simpl; lia]|]. split.
    + destruct (Str.contains "Looper" (take (he - hs) (drop hs output))) eqn:C;
        [|reflexivity].
      apply contains_take_prefix in C as (j & Hj & Hpj). simpl in Hj.
      rewrite drop_drop in Hpj. destruct j as [|j].
      * rewrite Nat.add_0_r, Hrest in Hpj. discriminate.
      * rewrite Hmin in Hpj by lia. discriminate.
    + exists (take hs output), (drop (he - hs) (drop hs output)).
      rewrite take_drop, take_drop. reflexivity.
  - split; [exact Hp|]. split.
    + destruct (Str.contains "Looper" (drop hs output)) eqn:C; [|reflexivity].
      apply contains_prefix_at in C as (j & Hpj).
      rewrite drop_drop in Hpj. destruct j as [|j].
      * rewrite Nat.add_0_r, Hrest in Hpj. discriminate.
      * rewrite (find_from_none "Looper" output (hs + 1) (hs + S j)
                   eq_refl E2) in Hpj by lia.
        discriminate.
    + exists (take hs output), "".
      rewrite StrFacts.append_nil_r, take_drop. reflexivity.
Qed.

Lemma loop_without_marker output target :
  Str.contains "View Hierarchy:" output = false ->
  forall fuel start,
    hierarchy_loop (S fuel) output target start = Some None.
Proof.
  intros H fuel start. cbn [hierarchy_loop].
  destruct (find_from "View Hierarchy:" output start) as [hs|] eqn:E1;
    [|reflexivity].
  apply find_from_spec in E1 as (_ & _ & Hp & _).
  apply StrFacts.prefix_spec in Hp as [rest Hrest].
  assert (Str.contains "View Hierarchy:" output = true); [|congruence].
  apply StrFacts.contains_spec. exists (take hs output), rest.
  rewrite <- Hrest, take_drop. reflexivity.
Qed.

(** X19. [get_view_hierarchy] always comes to an end, within one round of
    its loop per character of the output.  The text it returns is a part
    of the output that begins with [View Hierarchy:] and holds no
    [Looper]; an output that is missing, empty or without
    [View Hierarchy:] gives nothing. *)
Theorem hierarchy_text_is_cut_out (output : option string) (target : string) :
  exists r,
    get_view_hierarchy output target = Some r
    /\ match r with
       | Some text =>
           String.prefix "View Hierarchy:" text = true
           /\ Str.contains "Looper" text = false
           /\ exists o pre post, output = Some o /\ o = pre ++ text ++ post
       | None => True
       end
    /\ (match output with
        | Some o => Str.contains "View Hierarchy:" o = false
        | None => True
        end -> r = None).
Proof.
  unfold get_view_hierarchy. destruct output as [o|].
  - destruct (Str.nonempty o) eqn:Hne.
    + destruct (loop_ends o target (S (String.length o)) 0 ltac:(lia) ltac:(lia))
        as [r Hr].
      exists r. split; [exact Hr|]. split.
      * destruct r as [text|]; [|exact I].
        destruct (loop_result o target _ _ _ Hr) as (H1 & H2 & pre & post & H3).
        split; [exact H1|]. split; [exact H2|]. exists o, pre, post. auto.
      * intros Hc. rewrite (loop_without_marker o target Hc) in Hr. congruence.
    + exists None. repeat split.
  - exists None. repeat split.
Qed.

End HierarchyTextFacts.
